(** * world-banking-display: the CSV pipeline, embedded and verified

    A shallow embedding of the data pipeline of the repository
    (csv-parser.ts, banking-csv-parser.ts, profile-manager.ts and the
    summary helpers of the dashboard component), followed by the
    properties of that pipeline.

    Conventions of the embedding:
    - a JavaScript string is the list of its UTF-16 code units ([N]);
    - a JavaScript number is an IEEE 754 binary64 value, given by the
      Standard Library's [spec_float] at precision 53 and emax 1024
      (a single NaN, signed zeros, infinities, round to nearest even);
    - an object used as a dictionary ([CSVRow], the monthly buckets) is the
      [gmap] of the properties it has of its own, keyed by strings; a row is
      a plain object, so reading it under a name of [Object.prototype] that
      it does not own finds the inherited member, and assigning a string
      under [__proto__] stores nothing ([read] and [assign] of [CSVParser]);
      the month tables are only read under three word characters and the
      monthly buckets under month keys such as [2025-08] or [NaN-NaN], none
      of which is such a name;
    - a [Date] is either invalid or a time value in milliseconds since the
      epoch ([Z]); what the host decides (free-form [new Date(string)]
      parsing, the local time zone offset, [toLowerCase], the text of a
      built-in function) is a field of the class [Host];
    - [Array.prototype.sort] is a stable insertion sort, which is what every
      engine computes when the comparison is consistent; where it is not (a
      comparison that yields NaN beside others that do not) the order is the
      engine's, and nothing is stated about it. *)

From Stdlib Require Import ZArith NArith List String Ascii Bool Lia.
From Stdlib Require Import Sorting.Sorted Sorting.Permutation.
From Stdlib Require Import Floats.SpecFloat.
From Stdlib Require DecimalString.
From stdpp Require Import gmap list strings.

Local Open Scope Z_scope.

(* ===================================================================== *)
(** ** JavaScript strings *)
(* ===================================================================== *)

Module JS.

(** A code unit and a string; abbreviations, so that every lemma about
    lists and maps of [N] applies as it is. *)
Abbreviation char := N.
Abbreviation jsstring := (list N).

(** A string literal of the development, as code units (ASCII only). *)
Definition js (s : string) : jsstring :=
  map N_of_ascii (list_ascii_of_string s).

Definition LF : char := 10%N.
Definition DQUOTE : char := 34%N.
Definition COMMA : char := 44%N.
Definition DOLLAR : char := 36%N.
Definition PLUS : char := 43%N.
Definition MINUS : char := 45%N.
Definition DOT : char := 46%N.
Definition SLASH : char := 47%N.
Definition COLON : char := 58%N.
Definition UNDERSCORE : char := 95%N.

(** [WhiteSpace] and [LineTerminator] of ECMAScript: what [String.prototype.trim]
    strips and what the regular expression class [\s] matches. *)
Definition isWhiteSpace (c : char) : bool :=
  ((c =? 9) || (c =? 10) || (c =? 11) || (c =? 12) || (c =? 13) || (c =? 32)
   || (c =? 160) || (c =? 5760) || ((8192 <=? c) && (c <=? 8202))
   || (c =? 8232) || (c =? 8233) || (c =? 8239) || (c =? 8287)
   || (c =? 12288) || (c =? 65279))%N.

(** [\d] *)
Definition isDigit (c : char) : bool := ((48 <=? c) && (c <=? 57))%N.

(** [\w] (no unicode or ignore-case flag) *)
Definition isWordChar (c : char) : bool :=
  (isDigit c || ((65 <=? c) && (c <=? 90)) || ((97 <=? c) && (c <=? 122))
   || (c =? UNDERSCORE))%N.

Definition isEmpty (s : jsstring) : bool :=
  match s with [] => true | _ => false end.

Fixpoint trimStart (s : jsstring) : jsstring :=
  match s with
  | [] => []
  | c :: s' => if isWhiteSpace c then trimStart s' else s
  end.

Definition trimEnd (s : jsstring) : jsstring := rev (trimStart (rev s)).

(** [s.trim()] *)
Definition trim (s : jsstring) : jsstring := trimEnd (trimStart s).

(** [s.split(sep)] for a one-character separator: always at least one piece. *)
Fixpoint split (sep : char) (s : jsstring) : list jsstring :=
  match s with
  | [] => [[]]
  | c :: s' =>
      if (c =? sep)%N then [] :: split sep s'
      else match split sep s' with
           | [] => [[c]]
           | piece :: pieces => (c :: piece) :: pieces
           end
  end.

(** [pieces.join(sep)] *)
Fixpoint join (sep : jsstring) (pieces : list jsstring) : jsstring :=
  match pieces with
  | [] => []
  | [p] => p
  | p :: ps => p ++ sep ++ join sep ps
  end.

(** [s.startsWith(c)] for a one-character argument. *)
Definition startsWith (c : char) (s : jsstring) : bool :=
  match s with
  | c' :: _ => (c' =? c)%N
  | [] => false
  end.

Fixpoint isPrefixOf (p s : jsstring) : bool :=
  match p, s with
  | [], _ => true
  | _ :: _, [] => false
  | a :: p', b :: s' => (a =? b)%N && isPrefixOf p' s'
  end.

(** [s.includes(p)] *)
Fixpoint includes (s p : jsstring) : bool :=
  isPrefixOf p s || match s with [] => false | _ :: s' => includes s' p end.

(** [String(n)] for a non-negative integer. *)
Definition natToString (n : nat) : jsstring :=
  js (DecimalString.NilZero.string_of_uint (Nat.to_uint n)).

(** The value of a run of decimal digits ([parseInt] on [\d+]). *)
Definition digitVal (c : char) : Z := Z.of_N c - 48.

Definition digitsVal (ds : jsstring) : Z :=
  fold_left (fun acc c => 10 * acc + digitVal c) ds 0.

End JS.

Import JS.

(* ===================================================================== *)
(** ** JavaScript numbers: IEEE 754 binary64 *)
(* ===================================================================== *)

Module Number.

Abbreviation number := spec_float.

Definition prec : Z := 53.
Definition emax : Z := 1024.

Definition NaN : number := S754_nan.
Definition Infinity : number := S754_infinity false.
Definition zero : number := S754_zero false.

Definition add : number -> number -> number := SFadd prec emax.
Definition sub : number -> number -> number := SFsub prec emax.
Definition div : number -> number -> number := SFdiv prec emax.
Definition neg : number -> number := SFopp.
Definition abs : number -> number := SFabs.

(** [x > y], [x < y], [x == y]: all false as soon as one side is NaN. *)
Definition gtb (x y : number) : bool := SFltb y x.
Definition ltb (x y : number) : bool := SFltb x y.
Definition eqb (x y : number) : bool := SFeqb x y.

Definition isNaN (x : number) : bool :=
  match x with S754_nan => true | _ => false end.

(** The sign bit of a number is set (NaN has none). *)
Definition signBit (x : number) : bool :=
  match x with
  | S754_zero s | S754_infinity s | S754_finite s _ _ => s
  | S754_nan => false
  end.

(** The number nearest to the rational [num / den] (ties to even), with the
    sign bit [sign]; [den] is positive. *)
Definition ofRatio (sign : bool) (num den : Z) : number :=
  match num, den with
  | Zpos n, Zpos d => div (S754_finite sign n 0) (S754_finite false d 0)
  | _, _ => S754_zero sign
  end.

(** The number nearest to the integer [n]. *)
Definition ofZ (n : Z) : number :=
  binary_normalize prec emax n 0 false.

Definition ofNat (n : nat) : number := ofZ (Z.of_nat n).

(** The longest run of decimal digits at the start of a string, and the rest. *)
Fixpoint spanDigits (s : jsstring) : jsstring * jsstring :=
  match s with
  | c :: s' =>
      if isDigit c then let '(ds, rest) := spanDigits s' in (c :: ds, rest)
      else ([], s)
  | [] => ([], [])
  end.

(** [ExponentPart] of a [StrDecimalLiteral], when one starts here: the
    exponent indicator, an optional sign and at least one digit. *)
Definition exponentPart (s : jsstring) : Z :=
  match s with
  | c :: s' =>
      if ((c =? 101) || (c =? 69))%N then
        let '(esign, s'') :=
          match s' with
          | c' :: r => if (c' =? PLUS)%N then (false, r)
                       else if (c' =? MINUS)%N then (true, r)
                       else (false, s')
          | [] => (false, s')
          end in
        let '(ds, _) := spanDigits s'' in
        if isEmpty ds then 0
        else if esign then - digitsVal ds else digitsVal ds
      else 0
  | [] => 0
  end.

(** The built-in [parseFloat]: leading white space is skipped, the longest
    prefix that is a [StrDecimalLiteral] is converted (correctly rounded),
    and the result is NaN when there is no such prefix. *)
Definition parseFloat (s : jsstring) : number :=
  let s1 := trimStart s in
  let '(sign, s2) :=
    match s1 with
    | c :: r => if (c =? PLUS)%N then (false, r)
                else if (c =? MINUS)%N then (true, r)
                else (false, s1)
    | [] => (false, s1)
    end in
  if isPrefixOf (js "Infinity") s2 then S754_infinity sign
  else
    let '(intDigits, s3) := spanDigits s2 in
    let '(fracDigits, s4) :=
      match s3 with
      | c :: r => if (c =? DOT)%N then spanDigits r else ([], s3)
      | [] => ([], s3)
      end in
    if isEmpty intDigits && isEmpty fracDigits then NaN
    else
      let e10 := exponentPart s4 - Z.of_nat (length fracDigits) in
      ofRatio sign (digitsVal (intDigits ++ fracDigits) * 10 ^ Z.max e10 0)
                   (10 ^ Z.max (- e10) 0).

(** [shiftN k m] is [m * 2^k]. *)
Definition shiftN (k : nat) (m : positive) : positive := Nat.iter k xO m.

(** The zero bits that pad an integer below 2^53 to a 53-bit mantissa. *)
Definition pad (n : positive) : nat := Z.to_nat (53 - Z.pos (digits2_pos n)).

(** The float of the integer [n] below 2^53 with sign [s]: a 53-bit mantissa. *)
Definition canon (s : bool) (n : positive) : number :=
  S754_finite s (shiftN (pad n) n) (- Z.of_nat (pad n)).

(** The signed integer that a canonical float stands for. *)
Definition signed (s : bool) (n : positive) : Z := cond_Zopp s (Z.pos n).

End Number.

Import Number.

(* ===================================================================== *)
(** ** The host: what the JavaScript engine and its locale decide *)
(* ===================================================================== *)

Module Host.

(** [Date_parse s] is the time value of [new Date(s)] for a free-form string,
    [None] when the engine answers Invalid Date; [LocalTZA] is the offset of
    local time from UTC in milliseconds (a zone without daylight saving, at
    most a day away from UTC);
    [toLowerCase] is [String.prototype.toLowerCase];
    [functionText name] is the text that [Function.prototype.toString] gives
    for the built-in function that [Object.prototype] holds under [name]. *)
Class Host := {
  Date_parse : jsstring -> option Z;
  LocalTZA : Z;
  LocalTZA_range : Z.abs LocalTZA <= 86400000;
  toLowerCase : jsstring -> jsstring;
  functionText : jsstring -> jsstring
}.

Definition asciiLower (s : jsstring) : jsstring :=
  map (fun c => if ((65 <=? c) && (c <=? 90))%N then (c + 32)%N else c) s.

(** The text of a built-in function as V8 prints it; the function under
    [constructor] is [Object]. *)
Definition nativeFunctionText (name : jsstring) : jsstring :=
  js "function "
  ++ (if bool_decide (name = js "constructor") then js "Object" else name)
  ++ js "() { [native code] }".

(** A host in the UTC zone whose free-form date parser accepts nothing
    (the examples only hand it strings that every engine rejects). *)
Definition utcHost : Host :=
  {| Date_parse := fun _ => None;
     LocalTZA := 0;
     LocalTZA_range := ltac:(discriminate);
     toLowerCase := asciiLower;
     functionText := nativeFunctionText |}.

End Host.

Import Host.

(* ===================================================================== *)
(** ** Dates: the time values of ECMAScript *)
(* ===================================================================== *)

Module JSDate.

Inductive Date := InvalidDate | DateAt (t : Z).

(** [d.getTime()], [None] standing for NaN. *)
Definition getTime (d : Date) : option Z :=
  match d with DateAt t => Some t | InvalidDate => None end.

Definition isValid (d : Date) : bool :=
  match d with DateAt _ => true | InvalidDate => false end.

Definition msPerDay : Z := 86400000.
Definition msPerHour : Z := 3600000.
Definition msPerMinute : Z := 60000.

Definition Day (t : Z) : Z := t / msPerDay.

Definition DayFromYear (y : Z) : Z :=
  365 * (y - 1970) + (y - 1969) / 4 - (y - 1901) / 100 + (y - 1601) / 400.

Definition InLeapYear (y : Z) : bool :=
  ((y mod 4 =? 0) && negb (y mod 100 =? 0)) || (y mod 400 =? 0).

(** The first [y] with [DayFromYear y <= d], searching downwards from [y]. *)
Fixpoint yearDown (fuel : nat) (y d : Z) : Z :=
  match fuel with
  | O => y
  | S fuel' => if DayFromYear y <=? d then y else yearDown fuel' (y - 1) d
  end.

(** [YearFromTime]: the year that the day [d] falls in.  No year has fewer
    than 365 or more than 366 days, which bounds the year from above. *)
Definition YearFromDay (d : Z) : Z :=
  yearDown (Z.to_nat (Z.abs d / 36500 + 3))
           (1970 + (if 0 <=? d then d / 365 else d / 366)) d.

Definition YearFromTime (t : Z) : Z := YearFromDay (Day t).

(** Days of the year before month [m] (0 to 11). *)
Definition daysBeforeMonth (leap : bool) (m : Z) : Z :=
  let l := if leap then 1 else 0 in
  match m with
  | 0 => 0 | 1 => 31 | 2 => 59 + l | 3 => 90 + l | 4 => 120 + l
  | 5 => 151 + l | 6 => 181 + l | 7 => 212 + l | 8 => 243 + l
  | 9 => 273 + l | 10 => 304 + l | _ => 334 + l
  end.

Definition MonthFromTime (t : Z) : Z :=
  let y := YearFromTime t in
  let dayWithinYear := Day t - DayFromYear y in
  let leap := InLeapYear y in
  if dayWithinYear <? daysBeforeMonth leap 1 then 0
  else if dayWithinYear <? daysBeforeMonth leap 2 then 1
  else if dayWithinYear <? daysBeforeMonth leap 3 then 2
  else if dayWithinYear <? daysBeforeMonth leap 4 then 3
  else if dayWithinYear <? daysBeforeMonth leap 5 then 4
  else if dayWithinYear <? daysBeforeMonth leap 6 then 5
  else if dayWithinYear <? daysBeforeMonth leap 7 then 6
  else if dayWithinYear <? daysBeforeMonth leap 8 then 7
  else if dayWithinYear <? daysBeforeMonth leap 9 then 8
  else if dayWithinYear <? daysBeforeMonth leap 10 then 9
  else if dayWithinYear <? daysBeforeMonth leap 11 then 10
  else 11.

Definition MakeDay (year month date : Z) : Z :=
  let ym := year + month / 12 in
  let mn := month mod 12 in
  DayFromYear ym + daysBeforeMonth (InLeapYear ym) mn + date - 1.

Definition MakeTime (hour min sec ms : Z) : Z :=
  hour * msPerHour + min * msPerMinute + sec * 1000 + ms.

Definition MakeDate (day time : Z) : Z := day * msPerDay + time.

Definition TimeClip (t : Z) : Date :=
  if Z.abs t <=? 8640000000000000 then DateAt t else InvalidDate.

Section WithHost.
Context {host : Host}.

Definition UTC (t : Z) : Z := t - LocalTZA.
Definition LocalTime (t : Z) : Z := t + LocalTZA.

(** [new Date(year, monthIndex, day, hours, minutes)] on integers; a year from
    0 to 99 stands for 1900 + year. *)
Definition newDate (year monthIndex day hours minutes : Z) : Date :=
  let yr := if (0 <=? year) && (year <=? 99) then 1900 + year else year in
  TimeClip (UTC (MakeDate (MakeDay yr monthIndex day)
                          (MakeTime hours minutes 0 0))).

(** [new Date(s)] on a string. *)
Definition newDateOfString (s : jsstring) : Date :=
  match Date_parse s with
  | Some t => TimeClip t
  | None => InvalidDate
  end.

(** [d.getFullYear()] and [d.getMonth()], [None] standing for NaN. *)
Definition getFullYear (d : Date) : option Z :=
  match d with
  | DateAt t => Some (YearFromTime (LocalTime t))
  | InvalidDate => None
  end.

Definition getMonth (d : Date) : option Z :=
  match d with
  | DateAt t => Some (MonthFromTime (LocalTime t))
  | InvalidDate => None
  end.

End WithHost.

(** What the groups of
    [/(\d{2})\/(\w{3})\/(\d{4})\s+(\d{2}):(\d{2})/] capture. *)
Record DateMatch := {
  m_day : jsstring;
  m_month : jsstring;
  m_year : jsstring;
  m_hour : jsstring;
  m_minute : jsstring
}.

(** The pattern tried at the start of [s].  The only repetition, [\s+], is
    followed by a digit, so taking all the white space is the only way to
    match. *)
Definition matchDateAt (s : jsstring) : option DateMatch :=
  match s with
  | d1 :: d2 :: p1 :: w1 :: w2 :: w3 :: p2 :: y1 :: y2 :: y3 :: y4 :: sp :: rest =>
      if isDigit d1 && isDigit d2 && (p1 =? SLASH)%N
         && isWordChar w1 && isWordChar w2 && isWordChar w3 && (p2 =? SLASH)%N
         && isDigit y1 && isDigit y2 && isDigit y3 && isDigit y4
         && isWhiteSpace sp
      then
        match trimStart rest with
        | h1 :: h2 :: p3 :: n1 :: n2 :: _ =>
            if isDigit h1 && isDigit h2 && (p3 =? COLON)%N
               && isDigit n1 && isDigit n2
            then Some {| m_day := [d1; d2]; m_month := [w1; w2; w3];
                         m_year := [y1; y2; y3; y4];
                         m_hour := [h1; h2]; m_minute := [n1; n2] |}
            else None
        | _ => None
        end
      else None
  | _ => None
  end.

(** [dateStr.match(...)]: the leftmost place where the pattern matches. *)
Fixpoint matchDate (s : jsstring) : option DateMatch :=
  match matchDateAt s with
  | Some m => Some m
  | None => match s with
            | [] => None
            | _ :: s' => matchDate s'
            end
  end.

(** The ranges of the numbers that a match hands to the [Date] constructor. *)
Definition inDigitRange (m : DateMatch) : Prop :=
  0 <= digitsVal (m_day m) <= 99
  /\ 0 <= digitsVal (m_year m) <= 9999
  /\ 0 <= digitsVal (m_hour m) <= 99
  /\ 0 <= digitsVal (m_minute m) <= 99.

(** The month table that every copy of the date parser carries. *)
Definition months : gmap jsstring Z :=
  list_to_map
    [ (js "Jan", 0); (js "Feb", 1); (js "Mar", 2); (js "Apr", 3);
      (js "May", 4); (js "Jun", 5); (js "Jul", 6); (js "Aug", 7);
      (js "Sep", 8); (js "Oct", 9); (js "Nov", 10); (js "Dec", 11) ].

Definition monthNames : list jsstring :=
  [ js "Jan"; js "Feb"; js "Mar"; js "Apr"; js "May"; js "Jun";
    js "Jul"; js "Aug"; js "Sep"; js "Oct"; js "Nov"; js "Dec" ].

(** [arr.sort(compareFn)]: a stable insertion sort, the result of every
    engine when [compareFn] is a consistent comparison of the elements (the
    language then fixes the order).  A comparison that yields NaN ([None])
    counts as 0, as the language prescribes; when only some of the
    comparisons yield NaN the comparison is not consistent, the order is
    left to the engine, and this definition speaks for none: the properties
    below rest on the order only where every comparison is a number, and
    state elsewhere no more than which elements the result holds. *)
Definition comesFirst {A} (compareFn : A -> A -> option Z) (a b : A) : bool :=
  match compareFn a b with
  | Some v => v <=? 0
  | None => true
  end.

Fixpoint insertSorted {A} (compareFn : A -> A -> option Z) (x : A) (l : list A)
  : list A :=
  match l with
  | [] => [x]
  | y :: l' =>
      if comesFirst compareFn x y then x :: l
      else y :: insertSorted compareFn x l'
  end.

Definition sort {A} (compareFn : A -> A -> option Z) (l : list A) : list A :=
  foldr (insertSorted compareFn) [] l.

(** A list in ascending order of the keys of its elements. *)
Definition ascending {A} (key : A -> Z) (l : list A) : Prop :=
  StronglySorted (fun a b => key a <= key b) l.

(** [String(n)] for an integer. *)
Definition intToString (n : Z) : jsstring :=
  if n <? 0 then MINUS :: natToString (Z.to_nat (- n)) else natToString (Z.to_nat n).

(** [s.padStart(2, '0')] *)
Definition padStart2 (s : jsstring) : jsstring :=
  match s with
  | [] => js "00"
  | [c] => [48%N; c]
  | _ => s
  end.

End JSDate.

Import JSDate.

(* ===================================================================== *)
(** ** csv-parser.ts: the tokenizer and table builder *)
(* ===================================================================== *)

Module CSVParser.

(** [interface CSVRow { [key: string]: string }]: the properties that a row
    has of its own.  A row is a plain object: its prototype is
    [Object.prototype], as the language defines it. *)
Abbreviation CSVRow := (gmap jsstring jsstring).

Record CSVTable := {
  headers : list jsstring;
  rows : list CSVRow;
  totalRows : nat
}.

Record CSVParseOptions := {
  skipEmptyRows : bool;
  trimWhitespace : bool;
  handleEmptyHeaders : bool
}.

(** The defaults the constructor installs. *)
Definition defaultOptions : CSVParseOptions :=
  {| skipEmptyRows := true; trimWhitespace := true; handleEmptyHeaders := true |}.

(** The names under which a plain object finds a member of
    [Object.prototype]: eleven built-in functions and the accessor
    [__proto__], which answers [Object.prototype] itself. *)
Definition PROTO : jsstring := js "__proto__".

Definition objectPrototypeNames : list jsstring :=
  [ js "constructor"; js "hasOwnProperty"; js "isPrototypeOf";
    js "propertyIsEnumerable"; js "toLocaleString"; js "toString";
    js "valueOf"; js "__defineGetter__"; js "__defineSetter__";
    js "__lookupGetter__"; js "__lookupSetter__"; PROTO ].

Definition inherited (key : jsstring) : bool :=
  bool_decide (key ∈ objectPrototypeNames).

(** What [row[key] || ''] can be: a string, or the member of
    [Object.prototype] of that name (two of them are the same object only
    under the same name). *)
Inductive Value :=
| Text (s : jsstring)
| Member (name : jsstring).

#[export] Instance Value_eq_dec : EqDecision Value.
Proof. solve_decision. Defined.

(** [row[key] || '']: the string that the row holds under [key]; without
    one, the inherited member when [key] names one, which is truthy, and
    [''] for [undefined] otherwise. *)
Definition read (row : CSVRow) (key : jsstring) : Value :=
  match row !! key with
  | Some s => Text s
  | None => if inherited key then Member key else Text []
  end.

(** [row[key] || ''] where it is a string, that is when the row holds [key]
    or [key] names no member of [Object.prototype] (as the keys that
    banking-csv-parser.ts reads): a missing key and an empty value both
    give ['']. *)
Definition get (row : CSVRow) (key : jsstring) : jsstring :=
  default [] (row !! key).

(** [row[key] = value] for a string [value]: under [__proto__] the
    assignment reaches the setter of [Object.prototype], which ignores a
    string, unless the row holds a property of that name of its own; the
    other members of the prototype are writable and become shadowed. *)
Definition assign (row : CSVRow) (key value : jsstring) : CSVRow :=
  if bool_decide (key = PROTO) && bool_decide (row !! key = None) then row
  else <[key := value]> row.

(** The [while] loop of [parseCSVLine]; [line] is what is left from index [i]. *)
Fixpoint parseCSVLine_loop (line : jsstring) (values : list jsstring)
  (current : jsstring) (inQuotes : bool) : list jsstring :=
  match line with
  | [] => values ++ [current]
  | c :: rest =>
      if (c =? DQUOTE)%N then
        match rest with
        | c' :: rest' =>
            if inQuotes && (c' =? DQUOTE)%N
            then parseCSVLine_loop rest' values (current ++ [DQUOTE]) inQuotes
            else parseCSVLine_loop rest values current (negb inQuotes)
        | [] => parseCSVLine_loop rest values current (negb inQuotes)
        end
      else if (c =? COMMA)%N && negb inQuotes
      then parseCSVLine_loop rest (values ++ [current]) [] inQuotes
      else parseCSVLine_loop rest values (current ++ [c]) inQuotes
  end.

Definition parseCSVLine (line : jsstring) : list jsstring :=
  parseCSVLine_loop line [] [] false.

(** The callback of the [map] in [processHeaders]. *)
Definition processHeader (o : CSVParseOptions) (index : nat) (header : jsstring)
  : jsstring :=
  let processedHeader := trim header in
  if isEmpty processedHeader && handleEmptyHeaders o then
    match index with
    | O => js "TransactionID"
    | _ => js "Column" ++ natToString (index + 1)
    end
  else processedHeader.

Definition processHeaders (o : CSVParseOptions) (hs : list jsstring)
  : list jsstring :=
  imap (processHeader o) hs.

(** The [forEach] over the processed headers that fills one row: header
    number [index] takes [values[index]], or [''] past the end of [values];
    a repeated header name overwrites the earlier entry. *)
Fixpoint fillRow (o : CSVParseOptions) (hs : list jsstring)
  (values : list jsstring) (row : CSVRow) : CSVRow :=
  match hs with
  | [] => row
  | header :: hs' =>
      match values with
      | value :: values' =>
          fillRow o hs' values'
            (assign row header (if trimWhitespace o then trim value else value))
      | [] => fillRow o hs' [] (assign row header [])
      end
  end.

(** The [for] loop over [lines[1..]]. *)
Fixpoint parseRows (o : CSVParseOptions) (processedHeaders : list jsstring)
  (lines : list jsstring) : list CSVRow :=
  match lines with
  | [] => []
  | l :: lines' =>
      let line := trim l in
      if isEmpty line && skipEmptyRows o then parseRows o processedHeaders lines'
      else
        let values := parseCSVLine line in
        if (length values =? 0)%nat then parseRows o processedHeaders lines'
        else fillRow o processedHeaders values ∅
             :: parseRows o processedHeaders lines'
  end.

(** [csvContent.split('\n').filter(line => line.trim() !== '')] *)
Definition nonEmptyLines (csvContent : jsstring) : list jsstring :=
  List.filter (fun line => negb (isEmpty (trim line))) (split LF csvContent).

Definition parse (o : CSVParseOptions) (csvContent : jsstring) : CSVTable :=
  match nonEmptyLines csvContent with
  | [] => {| headers := []; rows := []; totalRows := 0 |}
  | line0 :: lines =>
      let processedHeaders := processHeaders o (parseCSVLine line0) in
      let rows := parseRows o processedHeaders lines in
      {| headers := processedHeaders; rows := rows; totalRows := length rows |}
  end.

(** The template literal that wraps a field in double quotes, as it is. *)
Definition quote (s : jsstring) : jsstring := [DQUOTE] ++ s ++ [DQUOTE].

Section WithHost.
Context {host : Host}.

(** The string that a template literal makes of a value: [Object.prototype]
    prints as [[object Object]], a built-in function as the host prints
    it. *)
Definition toText (value : Value) : jsstring :=
  match value with
  | Text s => s
  | Member name =>
      if bool_decide (name = PROTO) then js "[object Object]"
      else functionText name
  end.

(** The text that [exportToCSV] writes between the quotes for [row] under
    [header]. *)
Definition field (row : CSVRow) (header : jsstring) : jsstring :=
  toText (read row header).

Definition exportLine (hs : list jsstring) (row : CSVRow) : jsstring :=
  join [COMMA] (map (fun header => quote (field row header)) hs).

Definition exportToCSV (table : CSVTable) : jsstring :=
  let headerLine := join [COMMA] (map quote (headers table)) in
  let dataLines := map (exportLine (headers table)) (rows table) in
  join [LF] (headerLine :: dataLines).

(** The row that [parse] rebuilds from the exported line of [row]. *)
Definition reparsedRow (hs : list jsstring) (row : CSVRow) : CSVRow :=
  fillRow defaultOptions hs (map (field row) hs) ∅.

End WithHost.

(** The characters that [/[$,+\s]/g] deletes. *)
Definition isStripped (c : char) : bool :=
  ((c =? DOLLAR) || (c =? COMMA) || (c =? PLUS))%N || isWhiteSpace c.

(** [amountStr.replace(/[$,+\s]/g, '')] *)
Definition cleanAmount (amountStr : jsstring) : jsstring :=
  List.filter (fun c => negb (isStripped c)) amountStr.

(** [cleanStr.replace(/^-/, '')] *)
Definition dropLeadingMinus (cleanStr : jsstring) : jsstring :=
  match cleanStr with
  | c :: rest => if (c =? MINUS)%N then rest else cleanStr
  | [] => []
  end.

Definition parseAmount (amountStr : jsstring) : number :=
  let cleanStr := cleanAmount amountStr in
  let isNegative := startsWith MINUS cleanStr in
  let numericPart := dropLeadingMinus cleanStr in
  let num := parseFloat numericPart in
  if isNaN num then NaN else if isNegative then neg num else num.

(** One string is obtained from another by inserting or deleting stripped
    characters, at any positions and any number of times. *)
Inductive stripEdit : jsstring -> jsstring -> Prop :=
| stripEdit_refl s : stripEdit s s
| stripEdit_insert s1 s2 c :
    isStripped c = true -> stripEdit (s1 ++ s2) (s1 ++ c :: s2)
| stripEdit_delete s1 s2 c :
    isStripped c = true -> stripEdit (s1 ++ c :: s2) (s1 ++ s2)
| stripEdit_trans s t u : stripEdit s t -> stripEdit t u -> stripEdit s u.

(** [c] occurs in [s]. *)
Definition contains (c : char) (s : jsstring) : bool := existsb (N.eqb c) s.

(** A field that survives a trip through [exportToCSV] and [parse]: no
    double quote, no line feed, no surrounding white space. *)
Definition plainField (s : jsstring) : bool :=
  negb (contains DQUOTE s) && negb (contains LF s) && bool_decide (trim s = s).

(** A header that survives it: plain, not empty, and no name of
    [Object.prototype]. *)
Definition plainHeader (h : jsstring) : bool :=
  plainField h && negb (isEmpty h) && negb (inherited h).

(** A table that survives it: at least one header, every header plain,
    every field under a header plain. *)
Definition plainTable (table : CSVTable) : bool :=
  negb (bool_decide (headers table = []))
  && forallb plainHeader (headers table)
  && forallb (fun row => forallb (fun h => plainField (get row h)) (headers table))
       (rows table).

(** The condition of the specification's round trip: no double quote in a
    header or in a field that a row holds. *)
Definition quoteFree (table : CSVTable) : bool :=
  forallb (fun h => negb (contains DQUOTE h)) (headers table)
  && forallb (fun row => forallb (fun h => negb (contains DQUOTE (get row h)))
                (headers table))
       (rows table).

(** [options] with [skipEmptyRows] set to [b]. *)
Definition withSkipEmptyRows (b : bool) (o : CSVParseOptions) : CSVParseOptions :=
  {| skipEmptyRows := b;
     trimWhitespace := trimWhitespace o;
     handleEmptyHeaders := handleEmptyHeaders o |}.

(** CSV text as the bank writes it: every field in double quotes, one line
    per record. *)
Definition csvText (records : list (list string)) : jsstring :=
  join [LF] (map (fun fields => join [COMMA] (map (fun f => quote (js f)) fields))
               records).

(** The options of a parser that keeps the white space of its fields. *)
Definition keepWhiteSpace : CSVParseOptions :=
  {| skipEmptyRows := true; trimWhitespace := false; handleEmptyHeaders := true |}.

(** Two small tables: one with a field padded by a space, which is what a
    parser that keeps white space builds, and one as the bank exports
    them. *)
Definition paddedTable : CSVTable :=
  {| headers := [js "a"];
     rows := [ {[ js "a" := js " x" ]} ];
     totalRows := 1 |}.

(** A text whose first header is [__proto__], and the one row that [parse]
    builds from it. *)
Definition protoText : jsstring := js "__proto__,b" ++ [LF] ++ js "x,y".

Definition protoRow : CSVRow := {[ js "b" := js "y" ]}.

Definition sampleTable : CSVTable :=
  {| headers := [js "TransactionID"; js "From"; js "Amount"];
     rows := [ {[ js "TransactionID" := js "17"; js "From" := js "LS Bets";
                  js "Amount" := js "+$2,500" ]};
               {[ js "TransactionID" := js "18"; js "From" := [];
                  js "Amount" := js "-$40" ]} ];
     totalRows := 2 |}.

End CSVParser.

(* ===================================================================== *)
(** ** banking-csv-parser.ts: typed transactions and their aggregates *)
(* ===================================================================== *)

Module BankingCSVParser.
Import CSVParser.

Record BankingTransaction := {
  transactionId : jsstring;
  from : jsstring;
  routing : jsstring;
  reason : jsstring;
  amount : number;
  balance : jsstring;
  date : jsstring;
  rawRow : CSVRow
}.

Record DateRange := { start : jsstring; end_ : jsstring }.

Record Summary := {
  deposits : number;
  withdrawals : number;
  netChange : number
}.

Record BankingCSVTable := {
  transactions : list BankingTransaction;
  totalTransactions : nat;
  totalAmount : number;
  averageAmount : number;
  dateRange : DateRange;
  summary : Summary
}.

(** [a || b] on strings: the empty string is the only falsy one. *)
Definition orElse (a b : jsstring) : jsstring := if isEmpty a then b else a.

Definition parseTransaction (row : CSVRow) : BankingTransaction :=
  {| transactionId := orElse (get row (js "TransactionID")) (get row []);
     from := get row (js "From");
     routing := get row (js "Routing");
     reason := get row (js "Reason");
     amount := parseAmount (get row (js "Amount"));
     balance := get row (js "Balance");
     date := get row (js "Date");
     rawRow := row |}.

Definition parseTransactions (csvTable : CSVTable) : list BankingTransaction :=
  map parseTransaction (rows csvTable).

Definition calculateTotalAmount (ts : list BankingTransaction) : number :=
  fold_left (fun sum transaction => add sum (amount transaction)) ts zero.

Definition calculateAverageAmount (ts : list BankingTransaction) : number :=
  if (length ts =? 0)%nat then zero
  else div (calculateTotalAmount ts) (ofNat (length ts)).

(** One round of the [forEach] of [calculateSummary], on the pair of the
    running [deposits] and [withdrawals]. *)
Definition summaryStep (acc : number * number) (transaction : BankingTransaction)
  : number * number :=
  let '(deposits, withdrawals) := acc in
  if gtb (amount transaction) zero
  then (add deposits (amount transaction), withdrawals)
  else (deposits, add withdrawals (abs (amount transaction))).

Definition calculateSummary (ts : list BankingTransaction) : Summary :=
  let '(deposits, withdrawals) := fold_left summaryStep ts (zero, zero) in
  {| deposits := deposits;
     withdrawals := withdrawals;
     netChange := sub deposits withdrawals |}.

Definition getMonthIndex (month : jsstring) : Z := default 0 (months !! month).

Inductive TransactionType := Deposits | Withdrawals | All.

Section WithHost.
Context {host : Host}.

Definition parseDate (dateStr : jsstring) : Date :=
  match matchDate dateStr with
  | Some m =>
      newDate (digitsVal (m_year m)) (getMonthIndex (m_month m))
              (digitsVal (m_day m)) (digitsVal (m_hour m))
              (digitsVal (m_minute m))
  | None => newDateOfString dateStr
  end.

(** [parseDate(a).getTime() - parseDate(b).getTime()] *)
Definition compareDateStrings (a b : jsstring) : option Z :=
  match getTime (parseDate a), getTime (parseDate b) with
  | Some x, Some y => Some (x - y)
  | _, _ => None
  end.

(** [sortedDates] of [getDateRange]: the non-empty date strings, sorted. *)
Definition sortedDates (ts : list BankingTransaction) : list jsstring :=
  let dates := List.filter (fun d => negb (isEmpty d)) (map date ts) in
  sort compareDateStrings dates.

Definition getDateRange (ts : list BankingTransaction) : DateRange :=
  match sortedDates ts with
  | [] => {| start := []; end_ := [] |}
  | first :: rest => {| start := first; end_ := List.last rest first |}
  end.

Definition summarize (ts : list BankingTransaction) : BankingCSVTable :=
  {| transactions := ts;
     totalTransactions := length ts;
     totalAmount := calculateTotalAmount ts;
     averageAmount := calculateAverageAmount ts;
     dateRange := getDateRange ts;
     summary := calculateSummary ts |}.

Definition parseBankingData (csvContent : jsstring) : BankingCSVTable :=
  summarize (parseTransactions (parse defaultOptions csvContent)).

(** [a >= b] and [a <= b] on dates: false as soon as one of them is invalid. *)
Definition dateGeb (a b : Date) : bool :=
  match getTime a, getTime b with
  | Some x, Some y => x >=? y
  | _, _ => false
  end.

Definition dateLeb (a b : Date) : bool :=
  match getTime a, getTime b with
  | Some x, Some y => x <=? y
  | _, _ => false
  end.

Definition getTransactionsByDateRange (table : BankingCSVTable)
  (startDate endDate : jsstring) : list BankingTransaction :=
  let start := parseDate startDate in
  let end_ := parseDate endDate in
  List.filter
    (fun transaction =>
       let transactionDate := parseDate (date transaction) in
       dateGeb transactionDate start && dateLeb transactionDate end_)
    (transactions table).

Definition getTransactionsByType (table : BankingCSVTable) (type : TransactionType)
  : list BankingTransaction :=
  match type with
  | Deposits => List.filter (fun t => gtb (amount t) zero) (transactions table)
  | Withdrawals => List.filter (fun t => ltb (amount t) zero) (transactions table)
  | All => transactions table
  end.

(** One bucket of [getMonthlySummary]. *)
Record MonthBucket := {
  count : nat;
  total : number;
  bucketDeposits : number;
  bucketWithdrawals : number
}.

(** The bucket that [getMonthlySummary] starts a month with. *)
Definition emptyBucket : MonthBucket :=
  {| count := 0; total := zero; bucketDeposits := zero; bucketWithdrawals := zero |}.

(** The text of a number that may be NaN, as a template literal prints it. *)
Definition numberText (n : option Z) : jsstring :=
  match n with Some v => intToString v | None => js "NaN" end.

(** [`${date.getFullYear()}-${String(date.getMonth() + 1).padStart(2, '0')}`] *)
Definition monthKey (d : Date) : jsstring :=
  numberText (getFullYear d) ++ [MINUS]
  ++ padStart2 (numberText (option_map (fun m => m + 1) (getMonth d))).

Definition monthlyStep (monthly : gmap jsstring MonthBucket)
  (transaction : BankingTransaction) : gmap jsstring MonthBucket :=
  let key := monthKey (parseDate (date transaction)) in
  let b := default emptyBucket (monthly !! key) in
  let a := amount transaction in
  <[key := {| count := S (count b);
              total := add (total b) a;
              bucketDeposits :=
                if gtb a zero then add (bucketDeposits b) a else bucketDeposits b;
              bucketWithdrawals :=
                if gtb a zero then bucketWithdrawals b
                else add (bucketWithdrawals b) (abs a) |}]> monthly.

Definition getMonthlySummary (table : BankingCSVTable)
  : gmap jsstring MonthBucket :=
  fold_left monthlyStep (transactions table) ∅.

End WithHost.

(** Sums over the integer amounts of a list, for the exact case. *)
Definition sumZ (ks : list Z) : Z := fold_right Z.add 0 ks.
Definition sumAbs (ks : list Z) : Z := fold_right (fun k acc => Z.abs k + acc) 0 ks.
Definition sumPositive (ks : list Z) : Z :=
  fold_right (fun k acc => Z.max k 0 + acc) 0 ks.
Definition sumNegative (ks : list Z) : Z :=
  fold_right (fun k acc => Z.max (- k) 0 + acc) 0 ks.

(** A row whose date is no date, and a date with a month that is no month
    and a day past the end of January. *)
Definition undatedText : jsstring :=
  csvText [ ["TransactionID"; "Amount"; "Date"]; ["1"; "+$500"; "garbage"] ]%string.

Definition outOfRangeDay : jsstring := js "32/Foo/2025 10:00".

(** Three rows whose amounts are 0.1, -0.3 and 0.2, and two rows with whole
    amounts. *)
Definition centsText : jsstring :=
  csvText [ ["TransactionID"; "Amount"];
            ["1"; "+$0.1"]; ["2"; "-$0.3"]; ["3"; "+$0.2"] ]%string.

Definition wholeText : jsstring :=
  csvText [ ["TransactionID"; "Amount"]; ["1"; "+$500"]; ["2"; "-$2,500"] ]%string.

End BankingCSVParser.

(* ===================================================================== *)
(** ** profile-manager.ts: the merge of an upload into stored data *)
(* ===================================================================== *)

Module ProfileManagerService.
Import CSVParser BankingCSVParser.

Inductive Mode := merged | replaced.

Record SaveResult := {
  csvData : jsstring;
  mode : Mode;
  addedCount : nat
}.

Section WithHost.
Context {host : Host}.

(** The date parser local to [saveOrMergeProfileData]: no fallback past
    [new Date(dateStr)]. *)
Definition parseBankingDate (dateStr : jsstring) : Date :=
  match matchDate dateStr with
  | Some m =>
      newDate (digitsVal (m_year m)) (default 0 (months !! m_month m))
              (digitsVal (m_day m)) (digitsVal (m_hour m))
              (digitsVal (m_minute m))
  | None => newDateOfString dateStr
  end.

(** The date of a transaction as the merge sees it: the time value of a date
    string that is present and parses. *)
Definition parsedDate (t : BankingTransaction) : option Z :=
  if isEmpty (date t) then None else getTime (parseBankingDate (date t)).

(** The [for] loop that finds the latest stored date, from [new Date(0)]. *)
Definition latestStep (latestExistingDate : Z) (t : BankingTransaction) : Z :=
  if isEmpty (date t) then latestExistingDate
  else match parseBankingDate (date t) with
       | DateAt d => if d >? latestExistingDate then d else latestExistingDate
       | InvalidDate => latestExistingDate
       end.

Definition latestExistingDate (existing : list BankingTransaction) : Z :=
  fold_left latestStep existing 0.

Definition isAfter (latest : Z) (t : BankingTransaction) : bool :=
  if isEmpty (date t) then false
  else match parseBankingDate (date t) with
       | DateAt d => d >? latest
       | InvalidDate => false
       end.

(** [parseBankingDate(a.date).getTime() - parseBankingDate(b.date).getTime()] *)
Definition compareByDate (a b : BankingTransaction) : option Z :=
  match getTime (parseBankingDate (date a)), getTime (parseBankingDate (date b)) with
  | Some x, Some y => Some (x - y)
  | _, _ => None
  end.

Definition incomingAfter (existing incoming : list BankingTransaction)
  : list BankingTransaction :=
  sort compareByDate (List.filter (isAfter (latestExistingDate existing)) incoming).

End WithHost.

(** The table that a merge writes out: the stored rows under the stored
    headers, followed by the rows of the transactions it appends. *)
Definition mergedTable (stored : jsstring) (appended : list BankingTransaction)
  : CSVTable :=
  let existingGeneric := parse defaultOptions stored in
  {| headers := headers existingGeneric;
     rows := rows existingGeneric ++ map rawRow appended;
     totalRows := length (rows existingGeneric ++ map rawRow appended) |}.

(** The stored and uploaded texts of the specification's merge example, and
    a pair with dates before 1970. *)
Definition storedText : jsstring :=
  csvText [ [EmptyString; "From"; "Routing"; "Reason"; "Amount"; "Balance"; "Date"];
            ["11"; "LS Bets"; "900"; "Payout"; "+$500"; "$1,500"; "07/Aug/2025 20:00"] ]%string.

Definition uploadText : jsstring :=
  csvText [ [EmptyString; "From"; "Routing"; "Reason"; "Amount"; "Balance"; "Date"];
            ["10"; "Shop"; "901"; "Purchase of Components"; "-$40"; "$1,000"; "07/Aug/2025 19:00"];
            ["12"; "Depot"; "902"; "Delivery (Trucking)"; "+$250"; "$1,750"; "07/Aug/2025 21:00"] ]%string.

Definition storedText1960 : jsstring :=
  csvText [ [EmptyString; "Amount"; "Date"]; ["1"; "+$5"; "01/Jan/1960 00:00"] ]%string.

Definition uploadText1965 : jsstring :=
  csvText [ [EmptyString; "Amount"; "Date"]; ["2"; "+$7"; "01/Jan/1965 00:00"] ]%string.

End ProfileManagerService.

(* ===================================================================== *)
(** ** The dashboard component: custom summaries and worked hours *)
(* ===================================================================== *)

Module Dashboard.
Import CSVParser BankingCSVParser.

Definition ONE_HOUR_MS : Z := 60 * 60 * 1000.

(** The clustering loop shared by [truckingHours] and
    [computeHoursForReasons]: [rest] is [relevant[i..]].  Time values are
    integers of magnitude at most 8.64e15, on which the arithmetic of numbers
    is that of [Z]. *)
Fixpoint sessionLoop (totalMs sessionStart last : Z) (rest : list Z) : Z :=
  match rest with
  | [] => totalMs + ((last + ONE_HOUR_MS) - sessionStart)
  | cur :: rest' =>
      let gap := cur - last in
      if gap <=? ONE_HOUR_MS then sessionLoop totalMs sessionStart cur rest'
      else sessionLoop (totalMs + ((last + ONE_HOUR_MS) - sessionStart)) cur cur rest'
  end.

(** The hours for a sorted list of time values: [0] for none, and otherwise
    [totalMs / ONE_HOUR_MS]. *)
Definition sessionHours (relevant : list Z) : number :=
  match relevant with
  | [] => zero
  | first :: rest => div (ofZ (sessionLoop 0 first first rest)) (ofZ ONE_HOUR_MS)
  end.

(** [a.getTime() - b.getTime()] *)
Definition compareDates (a b : Date) : option Z :=
  match getTime a, getTime b with
  | Some x, Some y => Some (x - y)
  | _, _ => None
  end.

Definition timeValues (ds : list Date) : list Z :=
  omap getTime ds.

(** The sessions of a list of time values, as the specification describes
    them: a time stamp joins the session of its successor when the two are
    at most one hour apart, and otherwise closes a session of its own. *)
Fixpoint sessions (ts : list Z) : list (list Z) :=
  match ts with
  | [] => []
  | t :: rest =>
      match sessions rest with
      | (t' :: s) :: ss =>
          if t' - t <=? ONE_HOUR_MS then (t :: t' :: s) :: ss
          else [t] :: (t' :: s) :: ss
      | _ => [[t]]
      end
  end.

(** [(lastTimestampInSession + 1 hour) - sessionStartTimestamp] *)
Definition sessionDuration (s : list Z) : Z :=
  match s with
  | [] => 0
  | start :: rest => (List.last rest start + ONE_HOUR_MS) - start
  end.

Definition totalDuration (ss : list (list Z)) : Z :=
  fold_right (fun s acc => sessionDuration s + acc) 0 ss.

(** Consecutive time stamps of a session are at most an hour apart. *)
Fixpoint closeKnit (s : list Z) : bool :=
  match s with
  | a :: (b :: _) as rest => (b - a <=? ONE_HOUR_MS) && closeKnit rest
  | _ => true
  end.

(** A session ends more than an hour before the next one starts. *)
Fixpoint wellSeparated (ss : list (list Z)) : bool :=
  match ss with
  | s :: ((t :: _) :: _) as rest =>
      match s with
      | [] => false
      | a :: s' => (ONE_HOUR_MS <? t - List.last s' a) && wellSeparated rest
      end
  | _ => true
  end.

Section WithHost.
Context {host : Host}.

(** The date parser of the component: the epoch replaces a date that does
    not parse. *)
Definition parseBankingDate (dateStr : jsstring) : Date :=
  match matchDate dateStr with
  | Some m =>
      newDate (digitsVal (m_year m)) (default 0 (months !! m_month m))
              (digitsVal (m_day m)) (digitsVal (m_hour m))
              (digitsVal (m_minute m))
  | None =>
      let fallback := newDateOfString dateStr in
      if isValid fallback then fallback else DateAt 0
  end.

Definition normalize (str : jsstring) : jsstring := toLowerCase (trim str).

(** [!reasons || reasons.length === 0] covers the absent list too. *)
Definition transactionMatchesReasons (reasonText : jsstring) (reasons : list jsstring)
  : bool :=
  match reasons with
  | [] => true
  | _ => existsb (fun r => includes (normalize reasonText) (normalize r)) reasons
  end.

Definition transactionMatchesFroms (fromText : jsstring)
  (froms : option (list jsstring)) : bool :=
  match froms with
  | None | Some [] => true
  | Some fs => existsb (fun f => includes (normalize fromText) (normalize f)) fs
  end.

(** One bound of [transactionWithinDateRange]: absent, empty or unparseable
    bounds let every date pass. *)
Definition boundDate (bound : option jsstring) : option Z :=
  match bound with
  | Some b => if isEmpty b then None else getTime (newDateOfString b)
  | None => None
  end.

Definition transactionWithinDateRange (dateStr : jsstring)
  (start end_ : option jsstring) : bool :=
  match parseBankingDate dateStr with
  | InvalidDate => false
  | DateAt d =>
      match boundDate start with
      | Some s => negb (d <? s)
      | None => true
      end
      && match boundDate end_ with
         | Some e => negb (d >? e)
         | None => true
         end
  end.

(** The sorted valid dates that [computeHoursForReasons] clusters. *)
Definition relevantDates (transactions : list BankingTransaction)
  (reasons : list jsstring) (froms : option (list jsstring))
  (dateStart dateEnd : option jsstring) : list Date :=
  sort compareDates
    (List.filter isValid
       (map (fun t => parseBankingDate (date t))
          (List.filter
             (fun t => transactionMatchesReasons (reason t) reasons
                       && transactionMatchesFroms (from t) froms
                       && transactionWithinDateRange (date t) dateStart dateEnd)
             transactions))).

(** [csvData] is [None] while no table is loaded. *)
Definition computeHoursForReasons (csvData : option BankingCSVTable)
  (reasons : list jsstring) (froms : option (list jsstring))
  (dateStart dateEnd : option jsstring) : number :=
  match csvData with
  | None => zero
  | Some table =>
      sessionHours
        (timeValues (relevantDates (transactions table) reasons froms
                       dateStart dateEnd))
  end.

(** The built-in trucking category: the same loop on a fixed filter. *)
Definition isTruckingReason (reasonText : jsstring) : bool :=
  let reason := normalize reasonText in
  includes reason (js "(trucking)")
  || bool_decide (reason = js "purchase of components").

Definition truckingHours (csvData : option BankingCSVTable) : number :=
  match csvData with
  | None => zero
  | Some table =>
      sessionHours
        (timeValues
           (sort compareDates
              (List.filter isValid
                 (map (fun t => parseBankingDate (date t))
                    (List.filter (fun t => isTruckingReason (reason t))
                       (transactions table))))))
  end.

End WithHost.

(** The three time stamps of the specification's example, on 7 August 2025
    (UTC): 10:00, 10:30 and 13:00. *)
Definition exampleStamps : list Z :=
  [1754560800000; 1754562600000; 1754571600000].

Definition exampleText : jsstring :=
  csvText [ [EmptyString; "From"; "Reason"; "Amount"; "Date"];
            ["1"; "Depot"; "Delivery (Trucking)"; "+$250"; "07/Aug/2025 13:00"];
            ["2"; "Depot"; "Delivery (Trucking)"; "+$250"; "07/Aug/2025 10:00"];
            ["3"; "LS Bets"; "Payout"; "+$90"; "07/Aug/2025 12:00"];
            ["4"; "Shop"; "Purchase of Components"; "-$40"; "07/Aug/2025 10:30"] ]%string.

End Dashboard.

(* ===================================================================== *)
(** ** Built-ins of the queries: [Math], comparisons, the locale *)
(* ===================================================================== *)

Module Math.

(** [x >= y] and [x <= y] on numbers: false as soon as one side is NaN. *)
Definition geb (x y : number) : bool := SFleb y x.
Definition leb (x y : number) : bool := SFleb x y.

Definition isNegativeZero (x : number) : bool :=
  match x with S754_zero true => true | _ => false end.

Definition isPositiveZero (x : number) : bool :=
  match x with S754_zero false => true | _ => false end.

(** One round of [Math.min]: NaN wins over everything, -0 is below +0. *)
Definition minStep (lowest value : number) : number :=
  if isNaN lowest || isNaN value then NaN
  else if isNegativeZero value && isPositiveZero lowest then value
  else if ltb value lowest then value
  else lowest.

(** [Math.min(...values)]; how many arguments a call may spread is a limit
    of the engine, outside the model. *)
Definition min (values : list number) : number :=
  fold_left minStep values Infinity.

Definition maxStep (highest value : number) : number :=
  if isNaN highest || isNaN value then NaN
  else if isPositiveZero value && isNegativeZero highest then value
  else if gtb value highest then value
  else highest.

(** [Math.max(...values)] *)
Definition max (values : list number) : number :=
  fold_left maxStep values (neg Infinity).

End Math.

Module Locale.

(** What the locale of the engine decides: the collation behind
    [String.prototype.localeCompare] and the text of
    [Number.prototype.toLocaleString]. *)
Class Locale := {
  localeCompare : jsstring -> jsstring -> Z;
  toLocaleString : number -> jsstring
}.

(** Code units compared one by one: -1, 0 or 1. *)
Fixpoint compareCodeUnits (a b : jsstring) : Z :=
  match a, b with
  | [], [] => 0
  | [], _ :: _ => -1
  | _ :: _, [] => 1
  | x :: a', y :: b' =>
      if (x <? y)%N then -1 else if (y <? x)%N then 1 else compareCodeUnits a' b'
  end.

(** A locale that collates by code units and prints every number as [#]. *)
Definition plainLocale : Locale :=
  {| localeCompare := compareCodeUnits;
     toLocaleString := fun _ => js "#" |}.

End Locale.

Import Locale.

(* ===================================================================== *)
(** ** csv-parser.ts: the queries on a parsed table *)
(* ===================================================================== *)

Module CSVParserMethods.
Import CSVParser.

(** The values are strings for the rows that hold [headerName]; for the
    others they are [''], or the inherited member when [headerName] names
    one. *)
Definition getColumn (table : CSVTable) (headerName : jsstring) : list Value :=
  map (fun row => read row headerName) (rows table).

(** [[...new Set(values)]]: the values in the order they first occur. *)
Definition newSet (values : list Value) : list Value :=
  fold_left (fun set val => if bool_decide (val ∈ set) then set else set ++ [val])
    values [].

(** [val !== ''] *)
Definition isEmptyText (val : Value) : bool := bool_decide (val = Text []).

Definition getUniqueValues (table : CSVTable) (headerName : jsstring) : list Value :=
  let values := getColumn table headerName in
  newSet (List.filter (fun val => negb (isEmptyText val)) values).

(** How a call ends: with a value, or with the [TypeError] thrown when a
    method of strings is called on a member of [Object.prototype]. *)
Inductive Completion (A : Type) :=
| Normal (value : A)
| TypeError.

Arguments Normal {A} value.
Arguments TypeError {A}.

(** [values.map(val => this.parseAmount(val))]: [parseAmount] calls
    [amountStr.replace], which no member of [Object.prototype] has. *)
Fixpoint parseAmounts (values : list Value) : Completion (list number) :=
  match values with
  | [] => Normal []
  | Text amountStr :: values' =>
      match parseAmounts values' with
      | Normal nums => Normal (parseAmount amountStr :: nums)
      | TypeError => TypeError
      end
  | Member _ :: _ => TypeError
  end.

Record ColumnStats := {
  count : nat;
  sum : number;
  average : number;
  min : number;
  max : number
}.

(** The statistics of the amounts that parse. *)
Definition statsOf (nums : list number) : ColumnStats :=
  let numericValues := List.filter (fun num => negb (isNaN num)) nums in
  if (length numericValues =? 0)%nat
  then {| count := 0; sum := zero; average := zero; min := zero; max := zero |}
  else
    let sum := fold_left (fun acc val => add acc val) numericValues zero in
    {| count := length numericValues;
       sum := sum;
       average := div sum (ofNat (length numericValues));
       min := Math.min numericValues;
       max := Math.max numericValues |}.

Definition getColumnStats (table : CSVTable) (headerName : jsstring)
  : Completion ColumnStats :=
  let values := getColumn table headerName in
  match parseAmounts values with
  | Normal nums => Normal (statsOf nums)
  | TypeError => TypeError
  end.

(** [row[headerName] || ''] is a string. *)
Definition holdsText (headerName : jsstring) (row : CSVRow) : bool :=
  bool_decide (read row headerName = Text (get row headerName)).

Section WithLocale.
Context {locale : Locale}.

(** The comparison that [sortRows] hands to [sort], for two rows that read
    as strings under [headerName] ([holdsText]); on an inherited member the
    call of [localeCompare] throws. *)
Definition compareRows (headerName : jsstring) (ascending : bool) (a b : CSVRow)
  : option Z :=
  let aVal := get a headerName in
  let bVal := get b headerName in
  Some (if ascending then localeCompare aVal bVal else localeCompare bVal aVal).

(** [sortRows] sorts a copy: the table keeps its rows as they were.  The
    result is that of the method for a table whose rows all read as strings
    under [headerName]. *)
Definition sortRows (table : CSVTable) (headerName : jsstring) (ascending : bool)
  : list CSVRow :=
  sort (compareRows headerName ascending) (rows table).

End WithLocale.

(** A field in double quotes with every double quote inside it doubled: the
    escaping that [parseCSVLine] undoes. *)
Definition escapeField (s : jsstring) : jsstring :=
  [DQUOTE] ++ flat_map (fun c => if (c =? DQUOTE)%N then [DQUOTE; DQUOTE] else [c]) s
  ++ [DQUOTE].

End CSVParserMethods.

Module csvUtils.
Import CSVParser.

(** [(line.match(/,/g) || []).length] *)
Definition commaCount (line : jsstring) : Z :=
  Z.of_nat (length (List.filter (fun c => (c =? COMMA)%N) line)).

(** The test that the loop of [isValidCSV] applies to [lines[i]]. *)
Definition lineAgrees (commas : Z) (l : jsstring) : bool :=
  let line := trim l in
  isEmpty line || negb (Z.abs (commaCount line - commas) >? 1).

(** The loop runs over [lines[1]] to [lines[Math.min(lines.length, 5) - 1]]. *)
Definition isValidCSV (content : jsstring) : bool :=
  match split LF content with
  | firstLine :: (_ :: _) as others =>
      forallb (lineAgrees (commaCount firstLine)) (take 4 others)
  | _ => false
  end.

End csvUtils.

(* ===================================================================== *)
(** ** banking-csv-parser.ts: the queries and the export *)
(* ===================================================================== *)

Module BankingCSVParserMethods.
Import CSVParser BankingCSVParser.

Definition getTransactionsByAmountRange (table : BankingCSVTable)
  (minAmount maxAmount : number) : list BankingTransaction :=
  List.filter
    (fun transaction => Math.geb (amount transaction) minAmount
                        && Math.leb (amount transaction) maxAmount)
    (transactions table).

Section WithLocale.
Context {locale : Locale}.

(** The sign is [+] or nothing: a negative amount is printed without one. *)
Definition formatAmount (amount : number) : jsstring :=
  let sign := if Math.geb amount zero then [PLUS] else [] in
  sign ++ [DOLLAR] ++ toLocaleString (abs amount).

Definition exportHeaders : list jsstring :=
  [ js "TransactionID"; js "From"; js "Routing"; js "Reason"; js "Amount";
    js "Balance"; js "Date" ].

Definition exportCells (t : BankingTransaction) : list jsstring :=
  [ transactionId t; from t; routing t; reason t; formatAmount (amount t);
    balance t; date t ].

Definition exportBankingData (table : BankingCSVTable) : jsstring :=
  let rows := map exportCells (transactions table) in
  let headerLine := join [COMMA] (map quote exportHeaders) in
  let dataLines := map (fun row => join [COMMA] (map quote row)) rows in
  join [LF] (headerLine :: dataLines).

End WithLocale.

(** The transactions of a table whose month key is [key]. *)
Definition inMonth {host : Host} (key : jsstring) (ts : list BankingTransaction)
  : list BankingTransaction :=
  List.filter (fun t => bool_decide (monthKey (parseDate (date t)) = key)) ts.

(** The bucket that sums up the transactions [ts] of one month. *)
Definition monthBucketOf (ts : list BankingTransaction) : MonthBucket :=
  {| count := length ts;
     total := calculateTotalAmount ts;
     bucketDeposits := deposits (calculateSummary ts);
     bucketWithdrawals := withdrawals (calculateSummary ts) |}.

End BankingCSVParserMethods.

Module bankingUtils.
Import CSVParser.

Section WithHost.
Context {host : Host}.

(** The header cell without its double quotes, trimmed. *)
Definition cleanHeader (h : jsstring) : jsstring :=
  trim (List.filter (fun c => negb (c =? DQUOTE)%N) h).

Definition hasHeader (word : jsstring) (headers : list jsstring) : bool :=
  existsb (fun h => includes (toLowerCase h) word) headers.

Definition isValidBankingCSV (content : jsstring) : bool :=
  match nonEmptyLines content with
  | firstLine :: _ :: _ =>
      let headers := map cleanHeader (split COMMA firstLine) in
      if negb (length headers =? 7)%nat then false
      else hasHeader (js "from") headers
           && hasHeader (js "amount") headers
           && hasHeader (js "date") headers
  | _ => false
  end.

End WithHost.

End bankingUtils.

(* ===================================================================== *)
(** ** The dashboard component: the balance, filtered totals, the reasons input *)
(* ===================================================================== *)

Module DashboardSummaries.
Import CSVParser BankingCSVParser Dashboard.

(** The characters that [/[$,\s]/g] deletes. *)
Definition isBalanceNoise (c : char) : bool :=
  ((c =? DOLLAR) || (c =? COMMA))%N || isWhiteSpace c.

Definition parseBalanceNumber (balanceStr : jsstring) : number :=
  if isEmpty balanceStr then zero
  else
    let clean := List.filter (fun c => negb (isBalanceNoise c)) balanceStr in
    let num := parseFloat clean in
    if isNaN num then zero else num.

(** [input.split(',').map(s => s.trim()).filter(Boolean)] *)
Definition parseReasonsInput (input : jsstring) : list jsstring :=
  List.filter (fun s => negb (isEmpty s)) (map trim (split COMMA input)).

(** The text that the edit dialog shows for a list of reasons:
    [reasons.join(', ')]. *)
Definition reasonsText (reasons : list jsstring) : jsstring :=
  join (js ", ") reasons.

Section WithHost.
Context {host : Host}.

(** [parseBankingDate(b.date).getTime() - parseBankingDate(a.date).getTime()] *)
Definition compareNewestFirst (a b : BankingTransaction) : option Z :=
  match getTime (parseBankingDate (date b)), getTime (parseBankingDate (date a)) with
  | Some x, Some y => Some (x - y)
  | _, _ => None
  end.

Definition recentTransactions (csvData : option BankingCSVTable)
  : list BankingTransaction :=
  match csvData with
  | Some table => sort compareNewestFirst (transactions table)
  | None => []
  end.

Definition currentBalance (csvData : option BankingCSVTable) : number :=
  match csvData with
  | None => zero
  | Some _ =>
      match recentTransactions csvData with
      | [] => zero
      | latest :: _ => parseBalanceNumber (balance latest)
      end
  end.

Definition computeNetWithFilters (csvData : option BankingCSVTable)
  (reasons : option (list jsstring)) (froms : option (list jsstring))
  (dateStart dateEnd : option jsstring) : number :=
  match csvData with
  | None => zero
  | Some table =>
      fold_left
        (fun sum t =>
           let matches :=
             transactionMatchesReasons (reason t) (default [] reasons)
             && transactionMatchesFroms (from t) froms
             && transactionWithinDateRange (date t) dateStart dateEnd in
           if matches then add sum (amount t) else sum)
        (transactions table) zero
  end.

End WithHost.

End DashboardSummaries.

(* ===================================================================== *)
(** ** profile-manager.ts: the store of profiles *)
(* ===================================================================== *)

Module ProfileStore.
Import CSVParser BankingCSVParser.

(** [interface CustomSummary] and [interface Profile] of types.ts; the [id]
    and [name] of a summary are [summaryId] and [summaryName] here. *)
Record CustomSummary := {
  summaryId : jsstring;
  summaryName : jsstring;
  reasons : list jsstring;
  timeTracking : bool;
  timeReasons : option (list jsstring);
  froms : option (list jsstring);
  dateStart : option jsstring;
  dateEnd : option jsstring
}.

Record Profile := {
  id : jsstring;
  name : jsstring;
  csvData : jsstring;
  createdAt : jsstring;
  lastActive : jsstring;
  description : option jsstring;
  color : option jsstring;
  customSummaries : option (list CustomSummary)
}.

(** [Omit<Profile, 'id' | 'createdAt' | 'lastActive'>]; its fields carry
    the prefix [d_], those of the updates below the prefix [u_]. *)
Record ProfileData := {
  d_name : jsstring;
  d_csvData : jsstring;
  d_description : option jsstring;
  d_color : option jsstring;
  d_customSummaries : option (list CustomSummary)
}.

(** [Partial<Profile>]: a key is absent ([None]) or present; a present
    optional key may hold [undefined]. *)
Record Updates := {
  u_id : option jsstring;
  u_name : option jsstring;
  u_csvData : option jsstring;
  u_createdAt : option jsstring;
  u_lastActive : option jsstring;
  u_description : option (option jsstring);
  u_color : option (option jsstring);
  u_customSummaries : option (option (list CustomSummary))
}.

(** [{ ...profile, ...updates }] *)
Definition spread (profile : Profile) (updates : Updates) : Profile :=
  {| id := default (id profile) (u_id updates);
     name := default (name profile) (u_name updates);
     csvData := default (csvData profile) (u_csvData updates);
     createdAt := default (createdAt profile) (u_createdAt updates);
     lastActive := default (lastActive profile) (u_lastActive updates);
     description := default (description profile) (u_description updates);
     color := default (color profile) (u_color updates);
     customSummaries := default (customSummaries profile) (u_customSummaries updates) |}.

(** The two stores of the service, and what [saveProfiles] wrote last. *)
Record Store := {
  profiles : list Profile;
  activeProfile : option Profile;
  saved : list Profile
}.

Inductive Error :=
| NotFound (id : jsstring)   (* Profile with id ... not found *)
| StorageFailed.             (* saveProfiles rejected *)

(** How a promise settles. *)
Inductive Outcome (A : Type) :=
| Resolved (value : A)
| Rejected (error : Error).

Arguments Resolved {A} value.
Arguments Rejected {A} error.

(** What the platform decides: whether [saveProfiles] accepts a list. *)
Class Platform := { accepts : list Profile -> bool }.

Definition hasId (i : jsstring) (p : Profile) : bool := bool_decide (id p = i).

(** [profiles.findIndex(p => p.id === id)], [None] standing for -1. *)
Fixpoint findIndex (i : jsstring) (ps : list Profile) : option nat :=
  match ps with
  | [] => None
  | p :: ps' => if hasId i p then Some 0%nat
                else option_map S (findIndex i ps')
  end.

Definition getProfile (s : Store) (i : jsstring) : option Profile :=
  List.find (hasId i) (profiles s).

(** [activeProfile?.id === id] *)
Definition activeHasId (s : Store) (i : jsstring) : bool :=
  match activeProfile s with
  | Some a => hasId i a
  | None => false
  end.

Section WithPlatform.
Context {platform : Platform}.

(** [addProfile]: [newId] is what [generateId] returns, [created] and
    [active] the two time stamps.  The new profile is pushed onto the array
    of the store before it is saved. *)
Definition addProfile (profileData : ProfileData) (newId created active : jsstring)
  (s : Store) : Store * Outcome Profile :=
  let newProfile :=
    {| id := newId; name := d_name profileData; csvData := d_csvData profileData;
       createdAt := created; lastActive := active;
       description := d_description profileData; color := d_color profileData;
       customSummaries := d_customSummaries profileData |} in
  let profiles' := profiles s ++ [newProfile] in
  if accepts profiles'
  then ({| profiles := profiles'; activeProfile := activeProfile s;
           saved := profiles' |}, Resolved newProfile)
  else ({| profiles := profiles'; activeProfile := activeProfile s;
           saved := saved s |}, Rejected StorageFailed).

(** [updateProfile]: the array of the store is changed in place before it
    is saved.  The index that [findIndex] returns is always one of the
    array. *)
Definition updateProfile (i : jsstring) (updates : Updates) (s : Store)
  : Store * Outcome Profile :=
  match findIndex i (profiles s) with
  | None => (s, Rejected (NotFound i))
  | Some index =>
      match profiles s !! index with
      | None => (s, Rejected (NotFound i))
      | Some profile =>
          let updated := spread profile updates in
          let profiles' := <[index := updated]> (profiles s) in
          if accepts profiles'
          then ({| profiles := profiles';
                   activeProfile :=
                     if activeHasId s i then Some updated else activeProfile s;
                   saved := profiles' |}, Resolved updated)
          else ({| profiles := profiles'; activeProfile := activeProfile s;
                   saved := saved s |}, Rejected StorageFailed)
      end
  end.

Definition deleteProfile (i : jsstring) (s : Store) : Store * Outcome unit :=
  let filteredProfiles := List.filter (fun p => negb (hasId i p)) (profiles s) in
  if accepts filteredProfiles
  then ({| profiles := filteredProfiles;
           activeProfile :=
             if activeHasId s i then head filteredProfiles else activeProfile s;
           saved := filteredProfiles |}, Resolved tt)
  else (s, Rejected StorageFailed).

Definition stamp (now : jsstring) : Updates :=
  {| u_id := None; u_name := None; u_csvData := None; u_createdAt := None;
     u_lastActive := Some now; u_description := None; u_color := None;
     u_customSummaries := None |}.

(** [switchProfile]: [now1] and [now2] are the time stamps of the two
    updates; the profile that becomes active is the one found at the
    start. *)
Definition switchProfile (i now1 now2 : jsstring) (s : Store) : Store * Outcome unit :=
  match List.find (hasId i) (profiles s) with
  | None => (s, Rejected (NotFound i))
  | Some profile =>
      let '(s1, r1) :=
        match activeProfile s with
        | Some currentActive => updateProfile (id currentActive) (stamp now1) s
        | None => (s, Resolved profile)
        end in
      match r1 with
      | Rejected e => (s1, Rejected e)
      | Resolved _ =>
          let '(s2, r2) := updateProfile i (stamp now2) s1 in
          match r2 with
          | Rejected e => (s2, Rejected e)
          | Resolved _ =>
              ({| profiles := profiles s2; activeProfile := Some profile;
                  saved := saved s2 |}, Resolved tt)
          end
      end
  end.

Definition saveProfileData (i csv : jsstring) (s : Store) : Store * Outcome unit :=
  let '(s', r) :=
    updateProfile i
      {| u_id := None; u_name := None; u_csvData := Some csv; u_createdAt := None;
         u_lastActive := None; u_description := None; u_color := None;
         u_customSummaries := None |} s in
  (s', match r with Resolved _ => Resolved tt | Rejected e => Rejected e end).

Section WithHost.
Context {host : Host}.

(** The updates that [saveOrMergeProfileData] writes. *)
Definition dataUpdate (csv : option jsstring) (nowIso : jsstring) : Updates :=
  {| u_id := None; u_name := None; u_csvData := csv; u_createdAt := None;
     u_lastActive := Some nowIso; u_description := None; u_color := None;
     u_customSummaries := None |}.

(** [saveOrMergeProfileData] on the store: the answer is returned once the
    update of the profile has resolved. *)
Definition saveOrMergeProfileData (i incomingCSV nowIso : jsstring) (s : Store)
  : Store * Outcome ProfileManagerService.SaveResult :=
  let answer (updates : Updates) (result : ProfileManagerService.SaveResult) :=
    let '(s', r) := updateProfile i updates s in
    (s', match r with
         | Resolved _ => Resolved result
         | Rejected e => Rejected e
         end) in
  let replaced :=
    answer (dataUpdate (Some incomingCSV) nowIso)
      {| ProfileManagerService.csvData := incomingCSV;
         ProfileManagerService.mode := ProfileManagerService.replaced;
         ProfileManagerService.addedCount := 0 |} in
  match getProfile s i with
  | None => replaced
  | Some profile =>
      if isEmpty (csvData profile) then replaced
      else
        let existingBanking := parseBankingData (csvData profile) in
        let incomingBanking := parseBankingData incomingCSV in
        let incomingAfter :=
          ProfileManagerService.incomingAfter (transactions existingBanking)
            (transactions incomingBanking) in
        if (length incomingAfter =? 0)%nat
        then answer (dataUpdate None nowIso)
               {| ProfileManagerService.csvData := csvData profile;
                  ProfileManagerService.mode := ProfileManagerService.merged;
                  ProfileManagerService.addedCount := 0 |}
        else
          let existingGeneric := parse defaultOptions (csvData profile) in
          let mergedRows := rows existingGeneric ++ map rawRow incomingAfter in
          let mergedTable := {| headers := headers existingGeneric;
                                rows := mergedRows;
                                totalRows := length mergedRows |} in
          let mergedCSV := exportToCSV mergedTable in
          answer (dataUpdate (Some mergedCSV) nowIso)
            {| ProfileManagerService.csvData := mergedCSV;
               ProfileManagerService.mode := ProfileManagerService.merged;
               ProfileManagerService.addedCount := length incomingAfter |}
  end.

End WithHost.

End WithPlatform.

(** A platform that accepts every write. *)
Definition reliable : Platform := {| accepts := fun _ => true |}.

(** A store whose one profile holds [stored], last touched at [active]. *)
Definition storeOf (stored active : jsstring) : Store :=
  let profile :=
    {| id := js "p1"; name := js "Main"; csvData := stored;
       createdAt := js "2025-08-01T09:00:00.000Z"; lastActive := active;
       description := None; color := None; customSummaries := None |} in
  {| profiles := [profile]; activeProfile := Some profile; saved := [profile] |}.

(** A store with one profile, which is the active one. *)
Definition exampleProfile : Profile :=
  {| id := js "p1"; name := js "Main"; csvData := ProfileManagerService.storedText;
     createdAt := js "2025-08-01T09:00:00.000Z";
     lastActive := js "2025-08-01T09:00:00.000Z";
     description := None; color := Some (js "#3b82f6");
     customSummaries := None |}.

Definition exampleStore : Store :=
  {| profiles := [exampleProfile]; activeProfile := Some exampleProfile;
     saved := [exampleProfile] |}.

End ProfileStore.

(* ===================================================================== *)
(** ** Integer arithmetic in binary64 is exact below 2^53 *)
(* ===================================================================== *)

Module NumberFacts.

(** [SpecFloat.iter_pos] iterates as many times as its count says. *)
Lemma iter_pos_nat {A} (f : A -> A) p x :
  SpecFloat.iter_pos f p x = Nat.iter (Pos.to_nat p) f x.
Proof.
  revert x. induction p as [p IH|p IH|]; intros x; cbn [SpecFloat.iter_pos].
  - rewrite !IH, Pos2Nat.inj_xI.
    replace (S (2 * Pos.to_nat p))%nat with (Pos.to_nat p + (Pos.to_nat p + 1))%nat by lia.
    rewrite !Nat.iter_add. reflexivity.
  - rewrite !IH, Pos2Nat.inj_xO.
    replace (2 * Pos.to_nat p)%nat with (Pos.to_nat p + Pos.to_nat p)%nat by lia.
    rewrite Nat.iter_add. reflexivity.
  - reflexivity.
Qed.

Lemma Pos_iter_nat {A} (f : A -> A) p x :
  Pos.iter f x p = Nat.iter (Pos.to_nat p) f x.
Proof. apply Pos2Nat.inj_iter. Qed.

Lemma shiftN_S k m : shiftN (S k) m = xO (shiftN k m).
Proof. reflexivity. Qed.

Lemma shiftN_val k m : Z.pos (shiftN k m) = Z.pos m * 2 ^ Z.of_nat k.
Proof.
  induction k as [|k IH]; [cbn; lia|].
  rewrite shiftN_S, Pos2Z.inj_xO, IH.
  rewrite Nat2Z.inj_succ, Z.pow_succ_r by lia. lia.
Qed.

Lemma digits_shiftN k m :
  Z.pos (digits2_pos (shiftN k m)) = Z.pos (digits2_pos m) + Z.of_nat k.
Proof.
  induction k as [|k IH]; [cbn; lia|].
  rewrite shiftN_S. cbn [digits2_pos]. lia.
Qed.

Lemma digits2_pos_lower m : 2 ^ (Z.pos (digits2_pos m) - 1) <= Z.pos m.
Proof.
  induction m as [m IH|m IH|]; cbn [digits2_pos]; [| |cbn; lia].
  - rewrite Pos2Z.inj_succ. replace (Z.succ (Z.pos (digits2_pos m)) - 1) with (Z.succ (Z.pos (digits2_pos m) - 1)) by lia.
    rewrite Z.pow_succ_r by lia. lia.
  - rewrite Pos2Z.inj_succ. replace (Z.succ (Z.pos (digits2_pos m)) - 1) with (Z.succ (Z.pos (digits2_pos m) - 1)) by lia.
    rewrite Z.pow_succ_r by lia. lia.
Qed.

Lemma digits2_pos_bound m : Z.pos m < 2 ^ 53 -> Z.pos (digits2_pos m) <= 53.
Proof.
  intros H. pose proof (digits2_pos_lower m) as L.
  destruct (Z_le_gt_dec (Z.pos (digits2_pos m)) 53) as [|G]; [assumption|].
  assert (2 ^ 53 <= 2 ^ (Z.pos (digits2_pos m) - 1)) by (apply Z.pow_le_mono_r; lia).
  lia.
Qed.

(** Shifting out zeros is exact. *)
Lemma shr_1_even m :
  shr_1 {| shr_m := Z.pos m~0; shr_r := false; shr_s := false |}
  = {| shr_m := Z.pos m; shr_r := false; shr_s := false |}.
Proof. reflexivity. Qed.

Lemma iter_shr_1_shiftN k m :
  Nat.iter k shr_1 {| shr_m := Z.pos (shiftN k m); shr_r := false; shr_s := false |}
  = {| shr_m := Z.pos m; shr_r := false; shr_s := false |}.
Proof.
  induction k as [|k IH]; [reflexivity|].
  rewrite Nat.iter_succ_r, shiftN_S, shr_1_even. exact IH.
Qed.

Lemma shiftN_add j k m : shiftN (j + k) m = shiftN j (shiftN k m).
Proof. unfold shiftN. apply Nat.iter_add. Qed.

Lemma fexp_small d : 1 <= d -> fexp prec emax d = d - 53.
Proof. intros H. unfold fexp, emin, prec, emax. lia. Qed.

(** Rounding an integer below 2^53, written with [k] extra zero bits, gives
    the 53-bit mantissa of that integer. *)
Lemma binary_round_shiftN s (n : positive) (k : nat) :
  Z.pos n < 2 ^ 53 ->
  binary_round prec emax s (shiftN k n) (- Z.of_nat k)
  = S754_finite s (shiftN (Z.to_nat (53 - Z.pos (digits2_pos n))) n)
                  (Z.pos (digits2_pos n) - 53).
Proof.
  intros Hn. pose proof (digits2_pos_bound n Hn) as Hd.
  set (d := Z.pos (digits2_pos n)) in *.
  assert (Hd1 : 1 <= d) by (unfold d; lia).
  unfold binary_round.
  rewrite digits_shiftN. fold d.
  replace (d + Z.of_nat k + - Z.of_nat k) with d by lia.
  rewrite fexp_small by assumption.
  unfold shl_align.
  destruct (d - 53 - - Z.of_nat k) as [|p|p] eqn:E.
  - (* exactly aligned *)
    assert (Hk : k = Z.to_nat (53 - d)) by lia.
    unfold binary_round_aux, shr_fexp.
    cbn [Zdigits2]. rewrite digits_shiftN. fold d.
    replace (d + Z.of_nat k + - Z.of_nat k) with d by lia.
    rewrite fexp_small by assumption.
    replace (d - 53 - - Z.of_nat k) with 0 by lia.
    cbn [shr shr_record_of_loc loc_of_shr_record shr_m round_nearest_even Zdigits2].
    rewrite digits_shiftN. fold d.
    replace (d + Z.of_nat k + - Z.of_nat k) with d by lia.
    rewrite fexp_small by assumption.
    replace (d - 53 - - Z.of_nat k) with 0 by lia.
    cbn [shr shr_m].
    replace (- Z.of_nat k) with (d - 53) by lia.
    assert (Hle : (d - 53 <=? emax - prec) = true) by (apply Z.leb_le; unfold emax, prec; lia).
    rewrite Hle, <- Hk. reflexivity.
  - (* too many zero bits: shift right by p *)
    assert (Hk : k = (Pos.to_nat p + Z.to_nat (53 - d))%nat) by lia.
    unfold binary_round_aux, shr_fexp.
    cbn [Zdigits2]. rewrite digits_shiftN. fold d.
    replace (d + Z.of_nat k + - Z.of_nat k) with d by lia.
    rewrite fexp_small by assumption. rewrite E.
    cbn [shr shr_record_of_loc].
    assert (Hiter : Nat.iter (Pos.to_nat p) shr_1
                      {| shr_m := Z.pos (shiftN k n); shr_r := false; shr_s := false |}
                    = {| shr_m := Z.pos (shiftN (Z.to_nat (53 - d)) n);
                         shr_r := false; shr_s := false |}).
    { rewrite Hk, shiftN_add. apply iter_shr_1_shiftN. }
    rewrite iter_pos_nat, Hiter.
    cbn [loc_of_shr_record shr_m round_nearest_even Zdigits2].
    rewrite digits_shiftN. fold d.
    replace (d + Z.of_nat (Z.to_nat (53 - d)) + (- Z.of_nat k + Z.pos p)) with d by lia.
    rewrite fexp_small by assumption.
    replace (d - 53 - (- Z.of_nat k + Z.pos p)) with 0 by lia.
    cbn [shr shr_m].
    replace (- Z.of_nat k + Z.pos p) with (d - 53) by lia.
    assert (Hle : (d - 53 <=? emax - prec) = true) by (apply Z.leb_le; unfold emax, prec; lia).
    rewrite Hle. reflexivity.
  - (* too few: shift left by p *)
    assert (Hk : Z.to_nat (53 - d) = (Pos.to_nat p + k)%nat) by lia.
    rewrite Pos_iter_nat. change (Nat.iter (Pos.to_nat p) xO (shiftN k n)) with (shiftN (Pos.to_nat p) (shiftN k n)).
    rewrite <- shiftN_add, <- Hk.
    unfold binary_round_aux, shr_fexp.
    cbn [Zdigits2]. rewrite digits_shiftN. fold d.
    replace (d + Z.of_nat (Z.to_nat (53 - d)) + (d - 53)) with d by lia.
    rewrite fexp_small by assumption.
    replace (d - 53 - (d - 53)) with 0 by lia.
    cbn [shr shr_record_of_loc loc_of_shr_record shr_m round_nearest_even Zdigits2].
    rewrite digits_shiftN. fold d.
    replace (d + Z.of_nat (Z.to_nat (53 - d)) + (d - 53)) with d by lia.
    rewrite fexp_small by assumption.
    replace (d - 53 - (d - 53)) with 0 by lia.
    cbn [shr shr_m].
    assert (Hle : (d - 53 <=? emax - prec) = true) by (apply Z.leb_le; unfold emax, prec; lia).
    rewrite Hle. reflexivity.
Qed.

Lemma binary_round_canon s n k :
  Z.pos n < 2 ^ 53 ->
  binary_round prec emax s (shiftN k n) (- Z.of_nat k) = canon s n.
Proof.
  intros Hn. rewrite binary_round_shiftN by assumption.
  unfold canon, pad. pose proof (digits2_pos_bound n Hn). f_equal. lia.
Qed.

Lemma ofZ_pos n : Z.pos n < 2 ^ 53 -> ofZ (Z.pos n) = canon false n.
Proof. intros Hn. exact (binary_round_canon false n 0 Hn). Qed.

Lemma ofZ_neg n : Z.pos n < 2 ^ 53 -> ofZ (Z.neg n) = canon true n.
Proof. intros Hn. exact (binary_round_canon true n 0 Hn). Qed.

Lemma binary_normalize_scaled c K :
  Z.abs c < 2 ^ 53 ->
  binary_normalize prec emax (c * 2 ^ Z.of_nat K) (- Z.of_nat K) false = ofZ c.
Proof.
  intros Hc. destruct c as [|r|r].
  - reflexivity.
  - rewrite <- shiftN_val. cbn [binary_normalize].
    rewrite binary_round_canon, ofZ_pos by (cbn in Hc; lia). reflexivity.
  - replace (Z.neg r * 2 ^ Z.of_nat K) with (Z.neg (shiftN K r))
      by (rewrite <- Pos2Z.opp_pos, shiftN_val, <- Pos2Z.opp_pos; lia).
    cbn [binary_normalize].
    rewrite binary_round_canon, ofZ_neg by (cbn in Hc; lia). reflexivity.
Qed.

Lemma shl_align_shiftN n j K :
  (j <= K)%nat ->
  fst (shl_align (shiftN j n) (- Z.of_nat j) (- Z.of_nat K)) = shiftN K n.
Proof.
  intros Hle. unfold shl_align.
  destruct (- Z.of_nat K - - Z.of_nat j) as [|p|p] eqn:E; cbn [fst].
  - f_equal. lia.
  - lia.
  - rewrite Pos_iter_nat.
    change (Nat.iter (Pos.to_nat p) xO (shiftN j n)) with (shiftN (Pos.to_nat p) (shiftN j n)).
    rewrite <- shiftN_add. f_equal. lia.
Qed.

Lemma ofZ_signed s n : Z.pos n < 2 ^ 53 -> ofZ (signed s n) = canon s n.
Proof. destruct s; [apply ofZ_neg|apply ofZ_pos]. Qed.

Lemma cond_Zopp_shiftN s K n :
  cond_Zopp s (Z.pos (shiftN K n)) = signed s n * 2 ^ Z.of_nat K.
Proof. unfold signed. rewrite shiftN_val. destruct s; cbn [cond_Zopp]; lia. Qed.

Lemma add_canon sx nx sy ny :
  Z.pos nx < 2 ^ 53 -> Z.pos ny < 2 ^ 53 ->
  Z.abs (signed sx nx + signed sy ny) < 2 ^ 53 ->
  add (canon sx nx) (canon sy ny) = ofZ (signed sx nx + signed sy ny).
Proof.
  intros Hx Hy Hxy. unfold add, canon. cbn [SFadd].
  set (K := Nat.max (pad nx) (pad ny)).
  replace (Z.min (- Z.of_nat (pad nx)) (- Z.of_nat (pad ny))) with (- Z.of_nat K) by lia.
  rewrite !shl_align_shiftN by lia.
  rewrite !cond_Zopp_shiftN, <- Z.mul_add_distr_r.
  now apply binary_normalize_scaled.
Qed.

Lemma sub_canon sx nx sy ny :
  Z.pos nx < 2 ^ 53 -> Z.pos ny < 2 ^ 53 ->
  Z.abs (signed sx nx - signed sy ny) < 2 ^ 53 ->
  sub (canon sx nx) (canon sy ny) = ofZ (signed sx nx - signed sy ny).
Proof.
  intros Hx Hy Hxy. unfold sub, canon. cbn [SFsub].
  set (K := Nat.max (pad nx) (pad ny)).
  replace (Z.min (- Z.of_nat (pad nx)) (- Z.of_nat (pad ny))) with (- Z.of_nat K) by lia.
  rewrite !shl_align_shiftN by lia.
  rewrite !cond_Zopp_shiftN, <- Z.mul_sub_distr_r.
  now apply binary_normalize_scaled.
Qed.

(** Every integer is zero or a signed positive. *)
Lemma Z_signed_cases a : a = 0 \/ exists s n, a = signed s n /\ Z.pos n = Z.abs a.
Proof.
  destruct a as [|n|n]; [now left| |]; right.
  - exists false, n. now split.
  - exists true, n. now split.
Qed.

(** Addition and subtraction of integers are exact below 2^53. *)
Lemma add_ofZ a b :
  Z.abs a < 2 ^ 53 -> Z.abs b < 2 ^ 53 -> Z.abs (a + b) < 2 ^ 53 ->
  add (ofZ a) (ofZ b) = ofZ (a + b).
Proof.
  intros Ha Hb Hab.
  destruct (Z_signed_cases a) as [->|(sa & na & -> & Hna)];
    destruct (Z_signed_cases b) as [->|(sb & nb & -> & Hnb)].
  - reflexivity.
  - rewrite Z.add_0_l, ofZ_signed by lia. reflexivity.
  - rewrite Z.add_0_r, ofZ_signed by lia. reflexivity.
  - rewrite !ofZ_signed by lia. apply add_canon; lia.
Qed.

Lemma sub_ofZ a b :
  Z.abs a < 2 ^ 53 -> Z.abs b < 2 ^ 53 -> Z.abs (a - b) < 2 ^ 53 ->
  sub (ofZ a) (ofZ b) = ofZ (a - b).
Proof.
  intros Ha Hb Hab.
  destruct (Z_signed_cases a) as [->|(sa & na & -> & Hna)];
    destruct (Z_signed_cases b) as [->|(sb & nb & -> & Hnb)].
  - reflexivity.
  - rewrite Z.sub_0_l, (ofZ_signed sb) by lia.
    replace (- signed sb nb) with (signed (negb sb) nb) by (destruct sb; reflexivity).
    rewrite ofZ_signed by lia. reflexivity.
  - rewrite Z.sub_0_r, ofZ_signed by lia. reflexivity.
  - rewrite !ofZ_signed by lia. apply sub_canon; lia.
Qed.

Lemma abs_ofZ a : Z.abs a < 2 ^ 53 -> abs (ofZ a) = ofZ (Z.abs a).
Proof.
  intros Ha. destruct a as [|n|n]; [reflexivity| |].
  - change (Z.abs (Z.pos n)) with (Z.pos n).
    rewrite ofZ_pos by (cbn in Ha; lia). reflexivity.
  - change (Z.abs (Z.neg n)) with (Z.pos n).
    rewrite ofZ_neg, ofZ_pos by (cbn in Ha; lia). reflexivity.
Qed.

Lemma gtb_ofZ_zero a : Z.abs a < 2 ^ 53 -> gtb (ofZ a) zero = (0 <? a).
Proof.
  intros Ha. destruct a as [|n|n]; [reflexivity| |].
  - rewrite ofZ_pos by (cbn in Ha; lia). reflexivity.
  - rewrite ofZ_neg by (cbn in Ha; lia). reflexivity.
Qed.

(** Rounding with a clear sign never sets the sign bit. *)
Lemma signBit_binary_round_aux m e l :
  signBit (binary_round_aux prec emax false m e l) = false.
Proof.
  unfold binary_round_aux.
  destruct (shr_fexp prec emax m e l) as [mrs' e'].
  destruct (shr_fexp prec emax _ e' loc_Exact) as [mrs'' e''].
  destruct (shr_m mrs''); [reflexivity| |reflexivity].
  now destruct (e'' <=? emax - prec).
Qed.

Lemma signBit_ofRatio num den : signBit (ofRatio false num den) = false.
Proof.
  unfold ofRatio. destruct num as [|n|n]; try reflexivity.
  destruct den as [|d|d]; try reflexivity.
  unfold div, SFdiv.
  destruct (SFdiv_core_binary prec emax (Z.pos n) 0 (Z.pos d) 0) as [[mz ez] lz].
  apply signBit_binary_round_aux.
Qed.

Lemma signBit_add_abs w a :
  signBit w = false -> signBit (add w (abs a)) = false.
Proof.
  intros Hw. destruct w as [sw|sw| |sw mw ew]; cbn [signBit] in Hw; subst;
    destruct a as [sa|sa| |sa ma ea]; try reflexivity.
  unfold add, abs. cbn [SFabs SFadd cond_Zopp].
  destruct (shl_align mw ew _) as [mz ez], (shl_align ma ea _) as [mz' ez'].
  cbn [fst]. change (Z.pos mz + Z.pos mz') with (Z.pos (mz + mz')).
  cbn [binary_normalize]. unfold binary_round.
  destruct (shl_align (mz + mz') _ _) as [mz'' ez''].
  apply signBit_binary_round_aux.
Qed.

Lemma add_zero_r w : signBit w = false -> add w zero = w.
Proof. destruct w as [[]|[]| |]; cbn; congruence. Qed.

End NumberFacts.

(* ===================================================================== *)
(** ** The sort: a permutation, ascending when the comparison is a
       difference of keys *)
(* ===================================================================== *)

Module SortFacts.

Section Sort.
Context {A : Type} (compareFn : A -> A -> option Z) (key : A -> Z).

Lemma insertSorted_perm x l : Permutation (insertSorted compareFn x l) (x :: l).
Proof.
  induction l as [|y l IH]; cbn [insertSorted]; [reflexivity|].
  destruct (comesFirst compareFn x y); [reflexivity|].
  rewrite IH. apply perm_swap.
Qed.

Lemma sort_perm l : Permutation (sort compareFn l) l.
Proof.
  induction l as [|x l IH]; [reflexivity|].
  unfold sort in *. cbn [foldr]. rewrite insertSorted_perm. now constructor.
Qed.

Lemma insertSorted_ascending x l :
  (forall y, In y l -> compareFn x y = Some (key x - key y)) ->
  ascending key l -> ascending key (insertSorted compareFn x l).
Proof.
  unfold ascending. intros Hcmp Hl.
  induction Hl as [|y l Hl IH Hy]; cbn [insertSorted].
  - repeat constructor.
  - unfold comesFirst. rewrite (Hcmp y (or_introl eq_refl)).
    destruct (key x - key y <=? 0) eqn:E.
    + apply Z.leb_le in E. constructor; [now constructor|].
      constructor; [lia|]. eapply List.Forall_impl; [|exact Hy].
      cbn. intros z Hz. lia.
    + apply Z.leb_gt in E. constructor.
      * apply IH. intros z Hz. apply Hcmp. now right.
      * rewrite List.Forall_forall in *. intros z Hz.
        apply (Permutation_in _ (insertSorted_perm x l)) in Hz as [<-|Hz];
          [lia|now apply Hy].
Qed.

Lemma sort_ascending l :
  (forall a b, In a l -> In b l -> compareFn a b = Some (key a - key b)) ->
  ascending key (sort compareFn l).
Proof.
  induction l as [|x l IH]; intros Hcmp; [constructor|].
  unfold sort in *. cbn [foldr]. apply insertSorted_ascending.
  - intros y Hy. apply Hcmp; [now left|right].
    exact (Permutation_in _ (sort_perm l) Hy).
  - apply IH. intros a b Ha Hb. apply Hcmp; now right.
Qed.

End Sort.

End SortFacts.

(* ===================================================================== *)
(** ** Properties of the tokenizer *)
(* ===================================================================== *)

Module CSVParserFacts.
Import CSVParser.

Lemma nonEmptyLines_spec csvContent :
  Forall (fun line => isEmpty (trim line) = false) (nonEmptyLines csvContent).
Proof.
  unfold nonEmptyLines. apply List.Forall_forall. intros line Hin.
  apply List.filter_In in Hin as [_ Hne].
  now apply negb_true_iff in Hne.
Qed.

Lemma parseRows_skipEmptyRows o b hs lines :
  Forall (fun line => isEmpty (trim line) = false) lines ->
  parseRows (withSkipEmptyRows b o) hs lines = parseRows o hs lines.
Proof.
  induction 1 as [|l lines Hl _ IH]; simpl; [reflexivity|].
  rewrite Hl, IH. simpl.
  destruct (length (parseCSVLine (trim l)) =? 0)%nat; [reflexivity|].
  f_equal.
  generalize (parseCSVLine (trim l)) (∅ : CSVRow).
  clear. induction hs as [|h hs IHhs]; intros values row; simpl; [reflexivity|].
  destruct values; apply IHhs.
Qed.

(** C9: switching [skipEmptyRows] off gives the same table as leaving it on:
    the lines that are empty after trimming never reach the row loop. *)
Theorem parse_skipEmptyRows_irrelevant (o : CSVParseOptions) (csvContent : jsstring) :
  parse (withSkipEmptyRows false o) csvContent
  = parse (withSkipEmptyRows true o) csvContent.
Proof.
  unfold parse.
  pose proof (nonEmptyLines_spec csvContent) as Hall.
  destruct (nonEmptyLines csvContent) as [|line0 lines]; [reflexivity|].
  apply Forall_cons_1 in Hall as [_ Hall].
  change (processHeaders (withSkipEmptyRows false o)) with (processHeaders o).
  change (processHeaders (withSkipEmptyRows true o)) with (processHeaders o).
  rewrite !parseRows_skipEmptyRows by assumption.
  reflexivity.
Qed.

Lemma isWhiteSpace_DQUOTE : isWhiteSpace DQUOTE = false.
Proof. reflexivity. Qed.

Lemma split_no_sep sep s :
  contains sep s = false -> split sep s = [s].
Proof.
  induction s as [|c s IH]; simpl; [reflexivity|].
  rewrite N.eqb_sym. intros [Hc Hs]%orb_false_iff.
  rewrite Hc, (IH Hs). reflexivity.
Qed.

Lemma split_app_sep sep s t :
  contains sep s = false -> split sep (s ++ sep :: t) = s :: split sep t.
Proof.
  induction s as [|c s IH]; simpl.
  - now rewrite N.eqb_refl.
  - rewrite N.eqb_sym. intros [Hc Hs]%orb_false_iff.
    rewrite Hc, (IH Hs). reflexivity.
Qed.

Lemma split_join sep line lines :
  forallb (fun l => negb (contains sep l)) (line :: lines) = true ->
  split sep (join [sep] (line :: lines)) = line :: lines.
Proof.
  revert line. induction lines as [|l2 lines IH]; intros line H.
  - simpl in *. apply split_no_sep.
    apply andb_true_iff in H as [H _]. now apply negb_true_iff in H.
  - change (join [sep] (line :: l2 :: lines))
      with (line ++ sep :: join [sep] (l2 :: lines)).
    change (forallb _ (line :: l2 :: lines))
      with (negb (contains sep line)
            && forallb (fun l => negb (contains sep l)) (l2 :: lines)) in H.
    apply andb_true_iff in H as [H1 H2]. apply negb_true_iff in H1.
    rewrite split_app_sep by assumption. now rewrite IH.
Qed.

(** Inside quotes, a run of characters without a double quote is copied to
    the field buffer. *)
Lemma parseCSVLine_loop_quoted f tail values current :
  contains DQUOTE f = false ->
  parseCSVLine_loop (f ++ DQUOTE :: tail) values current true
  = parseCSVLine_loop (DQUOTE :: tail) values (current ++ f) true.
Proof.
  revert current. induction f as [|c f IH]; intros current.
  - intros _. now rewrite app_nil_r.
  - simpl app. intros [Hc Hf]%orb_false_iff.
    rewrite N.eqb_sym in Hc.
    cbn [parseCSVLine_loop]. rewrite Hc. cbn [andb negb].
    rewrite andb_false_r, (IH _ Hf), <- app_assoc. reflexivity.
Qed.

Lemma parseCSVLine_loop_open l values :
  parseCSVLine_loop (DQUOTE :: l) values [] false
  = parseCSVLine_loop l values [] true.
Proof. destruct l; reflexivity. Qed.

(** One quoted field at the end of the line. *)
Lemma parseCSVLine_loop_last f values :
  contains DQUOTE f = false ->
  parseCSVLine_loop (quote f) values [] false = values ++ [f].
Proof.
  intros Hf. unfold quote. cbn [app].
  rewrite parseCSVLine_loop_open, parseCSVLine_loop_quoted by assumption.
  reflexivity.
Qed.

(** One quoted field followed by a comma. *)
Lemma parseCSVLine_loop_field f tail values :
  contains DQUOTE f = false ->
  parseCSVLine_loop (quote f ++ COMMA :: tail) values [] false
  = parseCSVLine_loop tail (values ++ [f]) [] false.
Proof.
  intros Hf. unfold quote. cbn [app]. rewrite <- app_assoc. cbn [app].
  rewrite parseCSVLine_loop_open, parseCSVLine_loop_quoted by assumption.
  reflexivity.
Qed.

Lemma parseCSVLine_loop_fields f fs values :
  forallb (fun x => negb (contains DQUOTE x)) (f :: fs) = true ->
  parseCSVLine_loop (join [COMMA] (map quote (f :: fs))) values [] false
  = values ++ f :: fs.
Proof.
  revert f values. induction fs as [|f2 fs IH]; intros f values H;
    cbn [forallb] in H; apply andb_true_iff in H as [Hf Hfs];
    apply negb_true_iff in Hf.
  - now apply parseCSVLine_loop_last.
  - change (join [COMMA] (map quote (f :: f2 :: fs)))
      with (quote f ++ COMMA :: join [COMMA] (map quote (f2 :: fs))).
    rewrite parseCSVLine_loop_field by assumption.
    rewrite (IH f2 (values ++ [f])) by exact Hfs.
    rewrite <- app_assoc. reflexivity.
Qed.

Lemma parseCSVLine_quoted f fs :
  forallb (fun x => negb (contains DQUOTE x)) (f :: fs) = true ->
  parseCSVLine (join [COMMA] (map quote (f :: fs))) = f :: fs.
Proof. intros H. unfold parseCSVLine. now rewrite parseCSVLine_loop_fields. Qed.

Lemma contains_app c s t : contains c (s ++ t) = contains c s || contains c t.
Proof. apply existsb_app. Qed.

(** A line written by [exportToCSV] for at least one field starts and ends
    with a double quote. *)
Lemma join_quote_shape f fs :
  (exists x, join [COMMA] (map quote (f :: fs)) = DQUOTE :: x)
  /\ (exists y, join [COMMA] (map quote (f :: fs)) = y ++ [DQUOTE]).
Proof.
  split; [destruct fs; eexists; reflexivity|].
  revert f. induction fs as [|f2 fs IH]; intros f.
  - exists (DQUOTE :: f). reflexivity.
  - destruct (IH f2) as [y Hy].
    exists (quote f ++ COMMA :: y).
    change (join [COMMA] (map quote (f :: f2 :: fs)))
      with (quote f ++ COMMA :: join [COMMA] (map quote (f2 :: fs))).
    rewrite Hy, <- app_assoc. reflexivity.
Qed.

Lemma trim_quoted_shape l x y :
  l = DQUOTE :: x -> l = y ++ [DQUOTE] -> trim l = l.
Proof.
  intros Hx Hy. unfold trim, trimEnd.
  assert (Hs : trimStart l = l) by (rewrite Hx; reflexivity).
  rewrite Hs, Hy, rev_app_distr. cbn [rev app trimStart].
  rewrite isWhiteSpace_DQUOTE.
  change (DQUOTE :: rev y) with (rev [DQUOTE] ++ rev y).
  now rewrite <- rev_app_distr, rev_involutive.
Qed.

Lemma trim_exported_line f fs :
  trim (join [COMMA] (map quote (f :: fs))) = join [COMMA] (map quote (f :: fs)).
Proof.
  destruct (join_quote_shape f fs) as [[x Hx] [y Hy]].
  eapply trim_quoted_shape; eassumption.
Qed.

Lemma isEmpty_exported_line f fs :
  isEmpty (join [COMMA] (map quote (f :: fs))) = false.
Proof. destruct (join_quote_shape f fs) as [[x ->] _]. reflexivity. Qed.

Lemma contains_LF_exported_line fs :
  forallb (fun x => negb (contains LF x)) fs = true ->
  contains LF (join [COMMA] (map quote fs)) = false.
Proof.
  induction fs as [|f fs IH]; [reflexivity|].
  cbn [forallb]. intros [Hf Hfs]%andb_true_iff. apply negb_true_iff in Hf.
  destruct fs as [|f2 fs].
  - cbn [map join]. unfold quote. rewrite !contains_app, Hf. reflexivity.
  - change (join [COMMA] (map quote (f :: f2 :: fs)))
      with (quote f ++ [COMMA] ++ join [COMMA] (map quote (f2 :: fs))).
    unfold quote at 1. rewrite !contains_app, Hf, (IH Hfs). reflexivity.
Qed.

(** *** Reading a row and assigning to it *)

Lemma inherited_PROTO : inherited PROTO = true.
Proof. reflexivity. Qed.

Lemma not_inherited_PROTO (key : jsstring) : inherited key = false -> key <> PROTO.
Proof. intros H ->. discriminate H. Qed.

Lemma read_held (row : CSVRow) (key : jsstring) :
  is_Some (row !! key) -> read row key = Text (get row key).
Proof. intros [v Hv]. unfold read, get. now rewrite Hv. Qed.

Lemma read_not_inherited (row : CSVRow) (key : jsstring) :
  inherited key = false -> read row key = Text (get row key).
Proof.
  intros H. unfold read, get. destruct (row !! key); [reflexivity|].
  now rewrite H.
Qed.

Lemma read_inherited (row : CSVRow) (key : jsstring) :
  row !! key = None -> inherited key = true -> read row key = Member key.
Proof. intros Hn H. unfold read. now rewrite Hn, H. Qed.

Lemma assign_lookup (row : CSVRow) (key value k : jsstring) :
  row !! PROTO = None ->
  assign row key value !! k
  = if bool_decide (k = key) && negb (bool_decide (k = PROTO)) then Some value
    else row !! k.
Proof.
  intros Hp. unfold assign.
  destruct (decide (key = PROTO)) as [->|Hkey].
  - rewrite Hp, !(bool_decide_eq_true_2 (_ = _)) by reflexivity. cbn [andb].
    destruct (decide (k = PROTO)) as [->|Hk].
    + now rewrite !(bool_decide_eq_true_2 (_ = _)) by reflexivity.
    + now rewrite (bool_decide_eq_false_2 (k = PROTO)) by assumption.
  - rewrite (bool_decide_eq_false_2 (key = PROTO)) by assumption. cbn [andb].
    destruct (decide (k = key)) as [->|Hk].
    + rewrite (bool_decide_eq_true_2 (key = key)) by reflexivity.
      rewrite (bool_decide_eq_false_2 (key = PROTO)) by assumption.
      apply lookup_insert_eq.
    + rewrite (bool_decide_eq_false_2 (k = key)) by assumption.
      apply lookup_insert_ne. congruence.
Qed.

Lemma assign_PROTO (row : CSVRow) (key value : jsstring) :
  row !! PROTO = None -> assign row key value !! PROTO = None.
Proof.
  intros Hp. rewrite assign_lookup by assumption.
  rewrite (bool_decide_eq_true_2 (PROTO = PROTO)) by reflexivity.
  now rewrite andb_false_r.
Qed.

(** The keys after an assignment: the key assigned is new unless it is
    [__proto__]. *)
Lemma assign_keys (row : CSVRow) (key value k : jsstring) :
  is_Some (assign row key value !! k)
  <-> (k = key /\ k <> PROTO) \/ is_Some (row !! k).
Proof.
  unfold assign. destruct (decide (key = PROTO)) as [->|Hkey].
  - rewrite (bool_decide_eq_true_2 (PROTO = PROTO)) by reflexivity. cbn [andb].
    destruct (row !! PROTO) as [v|] eqn:Hp.
    + rewrite bool_decide_eq_false_2 by discriminate.
      rewrite lookup_insert_is_Some. split.
      * intros [<-|[_ H]]; right; [rewrite Hp; eauto|exact H].
      * intros [[-> Hk]|H]; [contradiction|].
        destruct (decide (PROTO = k)); [now left|now right].
    + rewrite bool_decide_eq_true_2 by reflexivity. split; [now right|].
      intros [[-> Hk]|H]; [contradiction|exact H].
  - rewrite (bool_decide_eq_false_2 (key = PROTO)) by assumption. cbn [andb].
    rewrite lookup_insert_is_Some. split.
    + intros [<-|[_ H]]; [now left|now right].
    + intros [[-> _]|H]; [now left|].
      destruct (decide (key = k)); [now left|now right].
Qed.

Lemma fillRow_PROTO (o : CSVParseOptions) (hs values : list jsstring) (row : CSVRow) :
  row !! PROTO = None -> fillRow o hs values row !! PROTO = None.
Proof.
  revert values row. induction hs as [|h hs IH]; intros values row Hp;
    [exact Hp|].
  cbn [fillRow]. destruct values; apply IH, assign_PROTO, Hp.
Qed.

(** What [fillRow] leaves under each key when the values are read off the
    headers themselves. *)
Lemma fillRow_lookup (g : jsstring -> jsstring) (hs : list jsstring)
  (row : CSVRow) (k : jsstring) :
  row !! PROTO = None ->
  fillRow defaultOptions hs (map g hs) row !! k
  = if bool_decide (k ∈ hs) && negb (bool_decide (k = PROTO))
    then Some (trim (g k)) else row !! k.
Proof.
  revert row. induction hs as [|h hs IH]; intros row Hp; [reflexivity|].
  cbn [map fillRow]. rewrite IH by now apply assign_PROTO.
  cbn [trimWhitespace defaultOptions]. rewrite assign_lookup by assumption.
  destruct (decide (k = PROTO)) as [Hk|Hk].
  - rewrite !(bool_decide_eq_true_2 (k = PROTO)) by assumption.
    now rewrite !andb_false_r.
  - rewrite !(bool_decide_eq_false_2 (k = PROTO)) by assumption.
    rewrite !andb_true_r.
    destruct (decide (k ∈ hs)) as [Hin|Hnin].
    + rewrite !bool_decide_eq_true_2; [reflexivity| |assumption].
      now apply elem_of_cons; right.
    + rewrite (bool_decide_eq_false_2 _ Hnin).
      destruct (decide (k = h)) as [->|Hne].
      * rewrite (bool_decide_eq_true_2 (h = h)) by reflexivity.
        now rewrite bool_decide_eq_true_2 by apply list_elem_of_here.
      * rewrite (bool_decide_eq_false_2 (k = h)) by assumption.
        rewrite bool_decide_eq_false_2; [reflexivity|].
        intros [?|?]%elem_of_cons; contradiction.
Qed.

Lemma processHeaders_plain hs :
  forallb (fun h => plainField h && negb (isEmpty h)) hs = true ->
  processHeaders defaultOptions hs = hs.
Proof.
  unfold processHeaders.
  assert (Hgen : forall (f : nat -> jsstring -> jsstring),
    (forall i h, h ∈ hs -> f i h = h) -> imap f hs = hs).
  { induction hs as [|h hs IH]; intros f Hf; [reflexivity|].
    rewrite imap_cons. f_equal.
    - apply Hf, list_elem_of_here.
    - apply IH. intros i x Hx. apply Hf. now apply elem_of_cons; right. }
  intros H. apply Hgen. intros i h Hin.
  rewrite forallb_forall in H. apply list_elem_of_In in Hin.
  specialize (H _ Hin). apply andb_true_iff in H as [Hp Hne].
  unfold plainField in Hp. apply andb_true_iff in Hp as [_ Ht].
  apply bool_decide_eq_true_1 in Ht.
  unfold processHeader. rewrite Ht.
  apply negb_true_iff in Hne. now rewrite Hne.
Qed.

Lemma forallb_plainField_parts (g : jsstring -> jsstring) hs :
  forallb (fun h => plainField (g h)) hs = true ->
  forallb (fun x => negb (contains DQUOTE x)) (map g hs) = true
  /\ forallb (fun x => negb (contains LF x)) (map g hs) = true
  /\ (forall h, h ∈ hs -> trim (g h) = g h).
Proof.
  induction hs as [|h hs IH]; cbn [forallb map].
  - intros _. repeat split. intros h Hh. inversion Hh.
  - intros [Hh Hhs]%andb_true_iff. destruct (IH Hhs) as (IH1 & IH2 & IH3).
    unfold plainField in Hh.
    apply andb_true_iff in Hh as [[Hq Hl]%andb_true_iff Ht].
    apply bool_decide_eq_true_1 in Ht.
    rewrite Hq, Hl, IH1, IH2. repeat split.
    intros k [->|Hk]%elem_of_cons; auto.
Qed.

Section WithHost.
Context {host : Host}.

Lemma field_held (row : CSVRow) (key : jsstring) :
  is_Some (row !! key) -> field row key = get row key.
Proof. intros H. unfold field. now rewrite read_held. Qed.

Lemma field_not_inherited (row : CSVRow) (key : jsstring) :
  inherited key = false -> field row key = get row key.
Proof. intros H. unfold field. now rewrite read_not_inherited. Qed.

Lemma field_PROTO (row : CSVRow) :
  row !! PROTO = None -> field row PROTO = js "[object Object]".
Proof.
  intros H. unfold field. rewrite read_inherited by (assumption || reflexivity).
  reflexivity.
Qed.

Lemma reparsedRow_lookup (hs : list jsstring) (row : CSVRow) (k : jsstring) :
  reparsedRow hs row !! k
  = if bool_decide (k ∈ hs) && negb (bool_decide (k = PROTO))
    then Some (trim (field row k)) else None.
Proof.
  unfold reparsedRow. rewrite fillRow_lookup by apply lookup_empty.
  now rewrite lookup_empty.
Qed.

(** What the export writes for a row that the parser rebuilt. *)
Lemma field_reparsedRow (hs : list jsstring) (row : CSVRow) (h : jsstring) :
  h ∈ hs ->
  field (reparsedRow hs row) h
  = if bool_decide (h = PROTO) then js "[object Object]" else trim (field row h).
Proof.
  intros Hin. destruct (decide (h = PROTO)) as [->|Hne].
  - rewrite bool_decide_eq_true_2 by reflexivity. apply field_PROTO.
    rewrite reparsedRow_lookup.
    rewrite (bool_decide_eq_true_2 (PROTO = PROTO)) by reflexivity.
    now rewrite andb_false_r.
  - rewrite bool_decide_eq_false_2 by assumption.
    assert (E : reparsedRow hs row !! h = Some (trim (field row h))).
    { rewrite reparsedRow_lookup, bool_decide_eq_true_2 by assumption.
      now rewrite bool_decide_eq_false_2 by assumption. }
    rewrite field_held by (rewrite E; eauto). unfold get. now rewrite E.
Qed.

Lemma exportLine_eq hs row :
  exportLine hs row = join [COMMA] (map quote (map (field row) hs)).
Proof. unfold exportLine. now rewrite map_map. Qed.

Lemma parseRows_exported h0 hs rows :
  forallb (fun row => forallb (fun h => plainField (field row h)) (h0 :: hs)) rows
    = true ->
  parseRows defaultOptions (h0 :: hs) (map (exportLine (h0 :: hs)) rows)
  = map (reparsedRow (h0 :: hs)) rows.
Proof.
  induction rows as [|row rows IH]; [reflexivity|].
  intros H. apply andb_true_iff in H as [Hrow Hrows].
  destruct (forallb_plainField_parts (field row) (h0 :: hs) Hrow) as (Hq & _ & _).
  change (map (exportLine (h0 :: hs)) (row :: rows))
    with (exportLine (h0 :: hs) row :: map (exportLine (h0 :: hs)) rows).
  cbn [parseRows]. rewrite (IH Hrows), exportLine_eq.
  change (map (field row) (h0 :: hs)) with (field row h0 :: map (field row) hs) in *.
  rewrite trim_exported_line, isEmpty_exported_line.
  rewrite parseCSVLine_quoted by exact Hq.
  reflexivity.
Qed.

Lemma nonEmptyLines_exported table :
  headers table <> [] ->
  forallb (fun h => plainField h && negb (isEmpty h)) (headers table) = true ->
  forallb (fun row => forallb (fun h => plainField (field row h)) (headers table))
    (rows table) = true ->
  nonEmptyLines (exportToCSV table)
  = join [COMMA] (map quote (headers table))
    :: map (exportLine (headers table)) (rows table).
Proof.
  intros Hne Hhs Hrows.
  destruct (headers table) as [|h0 hs] eqn:Eh; [contradiction|]. clear Hne.
  assert (Hhs' : forallb (fun h => plainField (id h)) (h0 :: hs) = true).
  { rewrite forallb_forall in *. intros h Hin.
    apply Hhs in Hin. now apply andb_true_iff in Hin as [? _]. }
  destruct (forallb_plainField_parts id _ Hhs') as (_ & Hl & _).
  rewrite map_id in Hl.
  unfold nonEmptyLines, exportToCSV. rewrite Eh.
  rewrite split_join.
  - apply forallb_filter_id. cbn [forallb].
    rewrite trim_exported_line, isEmpty_exported_line. cbn [negb andb].
    apply forallb_forall. intros l [row [<- _]]%in_map_iff.
    rewrite exportLine_eq.
    change (map (field row) (h0 :: hs)) with (field row h0 :: map (field row) hs).
    now rewrite trim_exported_line, isEmpty_exported_line.
  - cbn [forallb]. rewrite contains_LF_exported_line by exact Hl.
    cbn [negb andb]. apply forallb_forall.
    intros l [row [<- Hin]]%in_map_iff.
    rewrite forallb_forall in Hrows. specialize (Hrows _ Hin).
    destruct (forallb_plainField_parts (field row) _ Hrows) as (_ & Hl' & _).
    rewrite exportLine_eq. now rewrite contains_LF_exported_line.
Qed.

(** Parsing an export whose headers and exported fields are plain: line by
    line, the rows come back as [reparsedRow] gives them. *)
Lemma parse_exported table :
  headers table <> [] ->
  forallb (fun h => plainField h && negb (isEmpty h)) (headers table) = true ->
  forallb (fun row => forallb (fun h => plainField (field row h)) (headers table))
    (rows table) = true ->
  parse defaultOptions (exportToCSV table)
  = {| headers := headers table;
       rows := map (reparsedRow (headers table)) (rows table);
       totalRows := length (rows table) |}.
Proof.
  intros Hne Hhs Hrows. unfold parse.
  rewrite nonEmptyLines_exported by assumption.
  destruct (headers table) as [|h0 hs] eqn:Eh; [contradiction|].
  assert (Hhs' : forallb (fun h => plainField (id h)) (h0 :: hs) = true).
  { rewrite forallb_forall in *. intros h Hin.
    apply Hhs in Hin. now apply andb_true_iff in Hin as [? _]. }
  destruct (forallb_plainField_parts id _ Hhs') as (Hq & _ & _).
  rewrite map_id in Hq.
  rewrite parseCSVLine_quoted by exact Hq.
  rewrite processHeaders_plain by exact Hhs.
  rewrite parseRows_exported by exact Hrows.
  now rewrite length_map.
Qed.

(** What [plainTable] says, piece by piece. *)
Lemma plainTable_parts table :
  plainTable table = true ->
  headers table <> []
  /\ forallb (fun h => plainField h && negb (isEmpty h)) (headers table) = true
  /\ (forall h, h ∈ headers table -> inherited h = false)
  /\ forallb (fun row => forallb (fun h => plainField (field row h)) (headers table))
       (rows table) = true
  /\ (forall row h, In row (rows table) -> h ∈ headers table ->
      field row h = get row h /\ trim (get row h) = get row h).
Proof.
  unfold plainTable. intros [[Hne Hhs]%andb_true_iff Hrows]%andb_true_iff.
  apply negb_true_iff, bool_decide_eq_false_1 in Hne.
  rewrite forallb_forall in Hhs.
  assert (Hinh : forall h, h ∈ headers table -> inherited h = false).
  { intros h Hin%list_elem_of_In. specialize (Hhs _ Hin). unfold plainHeader in Hhs.
    apply andb_true_iff in Hhs as [_ Hi]. now apply negb_true_iff in Hi. }
  rewrite forallb_forall in Hrows.
  repeat split; [exact Hne| | exact Hinh | | |].
  - apply forallb_forall. intros h Hin. specialize (Hhs _ Hin).
    unfold plainHeader in Hhs. now apply andb_true_iff in Hhs as [? _].
  - apply forallb_forall. intros row Hrow. specialize (Hrows _ Hrow).
    rewrite forallb_forall in Hrows. apply forallb_forall. intros h Hin.
    rewrite field_not_inherited by now apply Hinh, list_elem_of_In.
    now apply Hrows.
  - apply field_not_inherited, Hinh. assumption.
  - destruct (forallb_plainField_parts (get row) _ (Hrows row H)) as (_ & _ & Ht).
    now apply Ht.
Qed.

(** The round trip of a plain table. *)
Lemma roundtrip_plainTable (table : CSVTable) :
  plainTable table = true ->
  let table' := parse defaultOptions (exportToCSV table) in
  exportToCSV table' = exportToCSV table
  /\ headers table' = headers table
  /\ totalRows table' = length (rows table)
  /\ Forall2 (fun row' row => forall h, h ∈ headers table -> read row' h = read row h)
       (rows table') (rows table)
  /\ (Forall (fun row : CSVRow => forall k, is_Some (row !! k) <-> k ∈ headers table)
        (rows table) ->
      rows table' = rows table).
Proof.
  intros Hplain table'. subst table'.
  destruct (plainTable_parts table Hplain) as (Hne & Hhs & Hinh & Hrows & Hfield).
  rewrite parse_exported by assumption.
  cbn [headers rows totalRows].
  assert (Hlookup : forall row h, In row (rows table) -> h ∈ headers table ->
            reparsedRow (headers table) row !! h = Some (get row h)).
  { intros row h Hrow Hh. rewrite reparsedRow_lookup.
    rewrite bool_decide_eq_true_2 by assumption.
    rewrite bool_decide_eq_false_2 by now apply not_inherited_PROTO, Hinh.
    destruct (Hfield row h Hrow Hh) as [-> ->]. reflexivity. }
  repeat split.
  - unfold exportToCSV. cbn [headers rows]. do 2 f_equal.
    rewrite map_map. apply map_ext_in. intros row Hin.
    unfold exportLine. f_equal. apply map_ext_in. intros h Hh%list_elem_of_In.
    f_equal. rewrite field_held by (rewrite Hlookup by assumption; eauto).
    unfold get at 1. rewrite Hlookup by assumption.
    symmetry. now apply Hfield.
  - assert (Hall : forall row, In row (rows table) -> In row (rows table)) by auto.
    revert Hall. generalize (rows table) at 1 3 4. intros rs.
    induction rs as [|row rs IH]; intros Hall; constructor.
    + intros h Hh. pose proof (Hlookup row h (Hall _ (or_introl eq_refl)) Hh) as E.
      rewrite read_held by (rewrite E; eauto).
      rewrite (read_not_inherited row) by now apply Hinh.
      unfold get at 1. now rewrite E.
    + apply IH. intros r Hr. apply Hall. now right.
  - intros Hkeys. rewrite <- (map_id (rows table)) at 2.
    apply map_ext_in. intros row Hin.
    rewrite List.Forall_forall in Hkeys. specialize (Hkeys _ Hin).
    apply map_eq. intros k.
    destruct (decide (k ∈ headers table)) as [Hk|Hk].
    + rewrite Hlookup by assumption. apply Hkeys in Hk as [v Hv].
      unfold get. rewrite Hv. reflexivity.
    + rewrite reparsedRow_lookup, bool_decide_eq_false_2 by assumption.
      cbn [andb]. symmetry. apply eq_None_not_Some. now rewrite Hkeys.
Qed.

End WithHost.

(** C6 (as stated): a table without any double quote need not survive
    export, parse, export: the parser trims the padded field.  The table is
    the one that a parser built with [trimWhitespace: false] reads from the
    exported text. *)
Lemma roundtrip_fails_on_padded_field :
  quoteFree paddedTable = true
  /\ parse keepWhiteSpace (csvText [["a"]; [" x"]]%string) = paddedTable
  /\ exportToCSV (host := utcHost) paddedTable = csvText [["a"]; [" x"]]%string
  /\ exportToCSV (host := utcHost)
       (parse defaultOptions (exportToCSV (host := utcHost) paddedTable))
     = csvText [["a"]; ["x"]]%string
  /\ rows (parse defaultOptions (exportToCSV (host := utcHost) paddedTable))
     = [ {[ js "a" := js "x" ]} ]
  /\ exportToCSV (host := utcHost)
       (parse defaultOptions (exportToCSV (host := utcHost) paddedTable))
     <> exportToCSV (host := utcHost) paddedTable.
Proof. repeat split; try (vm_compute; reflexivity). vm_compute. discriminate. Qed.

(** *** Tables that the parser itself builds *)

Lemma trimStart_id c s : isWhiteSpace c = false -> trimStart (c :: s) = c :: s.
Proof. intros H. cbn [trimStart]. now rewrite H. Qed.

(** What [trimStart] leaves is empty or starts with a character that is
    not white space. *)
Lemma trimStart_head s :
  trimStart s = [] \/ exists c r, trimStart s = c :: r /\ isWhiteSpace c = false.
Proof.
  induction s as [|c s IH]; [now left|].
  cbn [trimStart]. destruct (isWhiteSpace c) eqn:E; [exact IH|].
  right. now exists c, s.
Qed.

Lemma trimStart_idempotent s : trimStart (trimStart s) = trimStart s.
Proof.
  destruct (trimStart_head s) as [->|(c & r & -> & Hc)]; [reflexivity|].
  now apply trimStart_id.
Qed.

Lemma trimStart_Forall (P : char -> Prop) s : Forall P s -> Forall P (trimStart s).
Proof.
  induction 1 as [|c s Hc Hs IH]; [constructor|].
  cbn [trimStart]. destruct (isWhiteSpace c); [exact IH|now constructor].
Qed.

Lemma trimStart_snoc s c :
  isWhiteSpace c = false -> exists y, trimStart (s ++ [c]) = y ++ [c].
Proof.
  intros Hc. induction s as [|d s IH]; cbn [app trimStart].
  - rewrite Hc. now exists [].
  - destruct (isWhiteSpace d); [exact IH|]. now exists (d :: s).
Qed.

Lemma trimEnd_head c s :
  isWhiteSpace c = false -> exists r, trimEnd (c :: s) = c :: r.
Proof.
  intros Hc. unfold trimEnd. cbn [rev].
  destruct (trimStart_snoc (rev s) c Hc) as [y ->].
  rewrite rev_app_distr. now exists (rev y).
Qed.

Lemma trimEnd_idempotent s : trimEnd (trimEnd s) = trimEnd s.
Proof. unfold trimEnd. now rewrite rev_involutive, trimStart_idempotent. Qed.

Lemma trim_idempotent s : trim (trim s) = trim s.
Proof.
  unfold trim.
  destruct (trimStart_head s) as [->|(c & r & -> & Hc)]; [reflexivity|].
  destruct (trimEnd_head c r Hc) as [r' E]. rewrite E.
  rewrite trimStart_id by assumption. rewrite <- E. apply trimEnd_idempotent.
Qed.

Lemma trim_Forall (P : char -> Prop) s : Forall P s -> Forall P (trim s).
Proof.
  intros H. unfold trim, trimEnd.
  now apply Forall_rev, trimStart_Forall, Forall_rev, trimStart_Forall.
Qed.

Lemma contains_false c s : contains c s = false <-> Forall (fun x => x <> c) s.
Proof.
  unfold contains. induction s as [|d s IH]; cbn [existsb].
  - split; [constructor|reflexivity].
  - rewrite orb_false_iff, IH, N.eqb_neq, Forall_cons. intuition congruence.
Qed.

Lemma trim_contains c s : contains c s = false -> contains c (trim s) = false.
Proof. rewrite !contains_false. apply trim_Forall. Qed.

(** A trimmed string with no quote and no line feed remains one. *)
Lemma plainField_trim s :
  contains DQUOTE (trim s) = false -> contains LF s = false ->
  plainField (trim s) = true.
Proof.
  intros Hq Hl. unfold plainField.
  rewrite Hq, (trim_contains LF s Hl), trim_idempotent.
  now rewrite bool_decide_eq_true_2.
Qed.

(** The pieces of a split hold no separator. *)
Lemma split_pieces sep s :
  Forall (fun piece => contains sep piece = false) (split sep s).
Proof.
  induction s as [|c s IH]; cbn [split]; [repeat constructor|].
  destruct (c =? sep)%N eqn:E; [now constructor|].
  destruct (split sep s) as [|piece pieces]; [repeat constructor; cbn|].
  - now rewrite N.eqb_sym, E.
  - apply Forall_cons_1 in IH as [Hp Hps]. constructor; [|exact Hps].
    cbn. now rewrite N.eqb_sym, E.
Qed.

(** Every character of a field that [parseCSVLine] returns is a character of
    the line. *)
Lemma parseCSVLine_loop_Forall (P : char -> Prop) n line values current inQuotes :
  (length line <= n)%nat ->
  Forall P line -> Forall (Forall P) values -> Forall P current ->
  Forall (Forall P) (parseCSVLine_loop line values current inQuotes).
Proof.
  revert line values current inQuotes.
  induction n as [|n IH]; intros line values current inQuotes Hlen Hline Hv Hc.
  - destruct line; [|cbn in Hlen; lia]. cbn.
    apply Forall_app. split; [exact Hv|now constructor].
  - destruct line as [|c rest].
    { cbn. apply Forall_app. split; [exact Hv|now constructor]. }
    apply Forall_cons_1 in Hline as [Pc Hrest]. cbn [length] in Hlen.
    cbn [parseCSVLine_loop]. destruct (c =? DQUOTE)%N eqn:Eq.
    + destruct rest as [|c' rest'].
      * apply IH; [cbn; lia|constructor|exact Hv|exact Hc].
      * apply Forall_cons_1 in Hrest as [Pc' Hrest']. cbn [length] in Hlen.
        destruct (inQuotes && (c' =? DQUOTE)%N) eqn:Ee.
        -- apply IH; [lia|exact Hrest'|exact Hv|].
           apply Forall_app. split; [exact Hc|].
           constructor; [|constructor]. apply N.eqb_eq in Eq. now subst c.
        -- apply IH; [cbn; lia|now constructor|exact Hv|exact Hc].
    + destruct ((c =? COMMA)%N && negb inQuotes).
      * apply IH; [lia|exact Hrest| |constructor].
        apply Forall_app. split; [exact Hv|now constructor].
      * apply IH; [lia|exact Hrest|exact Hv|].
        apply Forall_app. split; [exact Hc|now constructor].
Qed.

Lemma parseCSVLine_Forall (P : char -> Prop) line :
  Forall P line -> Forall (Forall P) (parseCSVLine line).
Proof.
  intros H. unfold parseCSVLine.
  apply (parseCSVLine_loop_Forall P (length line)); auto; constructor.
Qed.

Lemma parseCSVLine_loop_nonempty line values current inQuotes :
  parseCSVLine_loop line values current inQuotes <> [].
Proof.
  assert (H : forall n line values current inQuotes, (length line <= n)%nat ->
              parseCSVLine_loop line values current inQuotes <> []).
  { clear. induction n as [|n IH]; intros line values current inQuotes Hlen.
    - destruct line; [|cbn in Hlen; lia]. cbn. now destruct values.
    - destruct line as [|c rest]; [cbn; now destruct values|].
      cbn [length] in Hlen. cbn [parseCSVLine_loop].
      destruct (c =? DQUOTE)%N.
      + destruct rest as [|c' rest']; [apply IH; cbn; lia|].
        cbn [length] in Hlen.
        destruct (inQuotes && (c' =? DQUOTE)%N); apply IH; cbn; lia.
      + destruct ((c =? COMMA)%N && negb inQuotes); apply IH; lia. }
  now apply (H (length line)).
Qed.

(** What [fillRow] leaves under the key [k]. *)
Lemma fillRow_lookup_cases (hs values : list jsstring) (row : CSVRow)
  (k : jsstring) :
  row !! PROTO = None ->
  fillRow defaultOptions hs values row !! k = row !! k /\ (k ∉ hs \/ k = PROTO)
  \/ (k ∈ hs /\ k <> PROTO)
     /\ (fillRow defaultOptions hs values row !! k = Some []
         \/ exists v, In v values
                      /\ fillRow defaultOptions hs values row !! k
                         = Some (trim v)).
Proof.
  revert values row. induction hs as [|h hs IH]; intros values row Hp.
  - left. split; [reflexivity|left; apply not_elem_of_nil].
  - assert (Hstep : forall x,
              assign row h x !! k = Some x /\ k = h /\ k <> PROTO
              \/ assign row h x !! k = row !! k /\ (k <> h \/ k = PROTO)).
    { intros x. rewrite assign_lookup by assumption.
      destruct (decide (k = h)) as [->|Hne];
        destruct (decide (h = PROTO)) as [->|Hk];
        rewrite ?(bool_decide_eq_true_2 (_ = _)) by reflexivity;
        rewrite ?(bool_decide_eq_false_2 (_ = _)) by assumption;
        cbn [andb negb]; auto. }
    cbn [fillRow]. destruct values as [|v values].
    + destruct (IH [] (assign row h []) (assign_PROTO _ _ _ Hp))
        as [[E Hn]|[Hin [E|(v & [] & _)]]].
      * destruct (Hstep []) as [(Ex & -> & Hk)|[Ex Hk]].
        -- right. split; [split; [apply list_elem_of_here|exact Hk]|left].
           now rewrite E.
        -- left. rewrite E, Ex. split; [reflexivity|].
           destruct Hn as [Hn| ->]; [|now right].
           destruct Hk as [Hk| ->]; [|now right].
           left. now apply not_elem_of_cons.
      * right. split; [|now left]. destruct Hin as [Hin Hk].
        split; [now apply elem_of_cons; right|exact Hk].
    + cbn [trimWhitespace defaultOptions].
      destruct (IH values (assign row h (trim v)) (assign_PROTO _ _ _ Hp))
        as [[E Hn]|[Hin [E|(w & Hw & E)]]].
      * destruct (Hstep (trim v)) as [(Ex & -> & Hk)|[Ex Hk]].
        -- right. split; [split; [apply list_elem_of_here|exact Hk]|right].
           exists v. split; [now left|]. now rewrite E.
        -- left. rewrite E, Ex. split; [reflexivity|].
           destruct Hn as [Hn| ->]; [|now right].
           destruct Hk as [Hk| ->]; [|now right].
           left. now apply not_elem_of_cons.
      * right. split; [|now left]. destruct Hin as [Hin Hk].
        split; [now apply elem_of_cons; right|exact Hk].
      * right. split; [|right].
        -- destruct Hin as [Hin Hk].
           split; [now apply elem_of_cons; right|exact Hk].
        -- exists w. split; [now right|exact E].
Qed.

Lemma string_of_uint_digits d :
  Forall (fun c => isDigit c = true) (js (DecimalString.NilEmpty.string_of_uint d)).
Proof. induction d; cbn; constructor; auto. Qed.

Lemma natToString_digits n :
  natToString n <> [] /\ Forall (fun c => isDigit c = true) (natToString n).
Proof.
  unfold natToString, DecimalString.NilZero.string_of_uint.
  destruct (Nat.to_uint n) eqn:E;
    try (split; [discriminate|rewrite <- E; apply string_of_uint_digits]).
  split; [discriminate|repeat constructor].
Qed.

Lemma isDigit_plain c :
  isDigit c = true -> isWhiteSpace c = false /\ c <> DQUOTE /\ c <> LF.
Proof.
  unfold isDigit, isWhiteSpace, DQUOTE, LF.
  rewrite andb_true_iff, !N.leb_le. intros [? ?].
  repeat split; [|lia|lia].
  repeat (apply orb_false_iff; split); try apply andb_false_iff;
    rewrite ?N.eqb_neq, ?N.leb_gt; lia.
Qed.

(** A string that starts and ends with characters that are not white space
    is its own trim. *)
Lemma trim_shape l c x d y :
  l = c :: x -> l = y ++ [d] ->
  isWhiteSpace c = false -> isWhiteSpace d = false -> trim l = l.
Proof.
  intros Hx Hy Hc Hd. unfold trim, trimEnd.
  assert (Hs : trimStart l = l) by (rewrite Hx; now apply trimStart_id).
  rewrite Hs, Hy, rev_app_distr. cbn [rev app].
  rewrite trimStart_id by assumption.
  change (d :: rev y) with (rev [d] ++ rev y).
  now rewrite <- rev_app_distr, rev_involutive.
Qed.

Lemma columnName_plain n :
  plainField (js "Column" ++ natToString n) = true.
Proof.
  destruct (natToString_digits n) as [Hne Hd].
  destruct (exists_last Hne) as (y & d & E).
  assert (Hdig : isDigit d = true).
  { rewrite E in Hd. apply Forall_app in Hd as [_ Hd]. now inversion Hd. }
  destruct (isDigit_plain d Hdig) as (Hws & _ & _).
  assert (Hall : Forall (fun c => c <> DQUOTE /\ c <> LF) (js "Column" ++ natToString n)).
  { apply Forall_app. split.
    - repeat constructor; discriminate.
    - eapply List.Forall_impl; [|exact Hd]. intros c Hc.
      now destruct (isDigit_plain c Hc) as (_ & ? & ?). }
  unfold plainField.
  rewrite (proj2 (contains_false DQUOTE _)), (proj2 (contains_false LF _)).
  - apply bool_decide_eq_true_2.
    eapply (trim_shape _ 67%N _ d (js "Column" ++ y)); try reflexivity; try assumption.
    now rewrite E, app_assoc.
  - eapply List.Forall_impl; [|exact Hall]. now intros c [_ ?].
  - eapply List.Forall_impl; [|exact Hall]. now intros c [? _].
Qed.

Lemma processHeader_plain index header :
  contains LF header = false ->
  contains DQUOTE (processHeader defaultOptions index header) = false ->
  plainField (processHeader defaultOptions index header) = true
  /\ isEmpty (processHeader defaultOptions index header) = false.
Proof.
  unfold processHeader. cbn [handleEmptyHeaders defaultOptions].
  rewrite andb_true_r. intros Hl.
  destruct (isEmpty (trim header)) eqn:E.
  - destruct index as [|index]; intros _; [split; reflexivity|].
    split; [apply columnName_plain|reflexivity].
  - intros Hq. split; [now apply plainField_trim|exact E].
Qed.

Lemma forallb_imap_processHeader (P : jsstring -> bool) hs :
  (forall i h, In h hs -> P (processHeader defaultOptions i h) = true) ->
  forallb P (processHeaders defaultOptions hs) = true.
Proof.
  unfold processHeaders. generalize (processHeader defaultOptions).
  induction hs as [|h hs IH]; intros f Hf; [reflexivity|].
  rewrite imap_cons. cbn [forallb]. rewrite Hf by now left.
  apply IH. intros i x Hx. apply Hf. now right.
Qed.

Lemma elem_of_imap_processHeader hs k :
  k ∈ processHeaders defaultOptions hs ->
  exists i h, In h hs /\ k = processHeader defaultOptions i h.
Proof.
  unfold processHeaders. intros (i & h & -> & Hl)%elem_of_lookup_imap.
  exists i, h. split; [|reflexivity].
  apply list_elem_of_In. eapply list_elem_of_lookup_2. exact Hl.
Qed.

Lemma processHeaders_plain_of_lines hs0 :
  Forall (fun h => contains LF h = false) hs0 ->
  forallb (fun h => negb (contains DQUOTE h)) (processHeaders defaultOptions hs0) = true ->
  forallb (fun h => plainField h && negb (isEmpty h))
    (processHeaders defaultOptions hs0) = true.
Proof.
  unfold processHeaders. generalize (processHeader_plain).
  generalize (processHeader defaultOptions). intros f Hf Hl.
  revert f Hf. induction Hl as [|h hs0 Hh _ IH]; intros f Hf; [reflexivity|].
  rewrite imap_cons. cbn [forallb]. intros [Hq Hqs]%andb_true_iff.
  apply negb_true_iff in Hq. destruct (Hf 0%nat h Hh Hq) as [-> ->].
  apply IH; [|exact Hqs]. intros i x. apply Hf.
Qed.

Lemma parseRows_rows hs lines :
  Forall (fun row => exists l, In l lines
                     /\ row = fillRow defaultOptions hs (parseCSVLine (trim l)) ∅)
    (parseRows defaultOptions hs lines).
Proof.
  induction lines as [|l lines IH]; [constructor|].
  assert (IH' : Forall (fun row => exists l', In l' (l :: lines)
                  /\ row = fillRow defaultOptions hs (parseCSVLine (trim l')) ∅)
                  (parseRows defaultOptions hs lines)).
  { eapply List.Forall_impl; [|exact IH]. intros row (l' & Hin & E).
    exists l'. split; [now right|exact E]. }
  cbn [parseRows]. destruct (isEmpty (trim l) && skipEmptyRows defaultOptions);
    [exact IH'|].
  destruct (length (parseCSVLine (trim l)) =? 0)%nat; [exact IH'|].
  constructor; [|exact IH']. exists l. split; [now left|reflexivity].
Qed.

Lemma nonEmptyLines_no_LF csvContent :
  Forall (fun line => contains LF line = false) (nonEmptyLines csvContent).
Proof.
  unfold nonEmptyLines. pose proof (split_pieces LF csvContent) as H.
  rewrite List.Forall_forall in *. intros line [Hin _]%filter_In. now apply H.
Qed.

Lemma parseCSVLine_no_LF line :
  contains LF line = false ->
  Forall (fun v => contains LF v = false) (parseCSVLine line).
Proof.
  rewrite contains_false. intros H.
  eapply List.Forall_impl; [|exact (parseCSVLine_Forall _ line H)].
  intros v. apply contains_false.
Qed.

(** A field of a row that the parser built. *)
Lemma parsed_row_field hs l k :
  contains LF l = false -> k ∈ hs -> k <> PROTO ->
  contains DQUOTE (get (fillRow defaultOptions hs (parseCSVLine (trim l)) ∅) k) = false ->
  plainField (get (fillRow defaultOptions hs (parseCSVLine (trim l)) ∅) k) = true.
Proof.
  intros Hl Hk Hp. unfold get.
  destruct (fillRow_lookup_cases hs (parseCSVLine (trim l)) ∅ k (lookup_empty _))
    as [[_ [Hn| ->]]|[_ [->|(v & Hv & ->)]]];
    [contradiction|contradiction|reflexivity|].
  cbn [default from_option id]. intros Hq. apply plainField_trim; [exact Hq|].
  pose proof (parseCSVLine_no_LF (trim l) (trim_contains LF l Hl)) as Hf.
  rewrite List.Forall_forall in Hf. now apply Hf.
Qed.

(** The keys of a row that the parser built: the headers, except
    [__proto__]. *)
Lemma parsed_row_keys hs values k :
  is_Some (fillRow defaultOptions hs values ∅ !! k) <-> k ∈ hs /\ k <> PROTO.
Proof.
  destruct (fillRow_lookup_cases hs values ∅ k (lookup_empty _))
    as [[E Hn]|[Hin [E|(v & _ & E)]]]; rewrite E.
  - rewrite lookup_empty. split; [intros []; discriminate|].
    intros [Hin Hk]. destruct Hn; contradiction.
  - split; [trivial|eauto].
  - split; [trivial|eauto].
Qed.

Lemma plainField_object : plainField (js "[object Object]") = true.
Proof. reflexivity. Qed.

Section WithHost.
Context {host : Host}.

(** What the export writes for a row that the parser built. *)
Lemma parsed_row_export hs values h :
  let row := fillRow defaultOptions hs values ∅ in
  h ∈ hs ->
  field row h = if bool_decide (h = PROTO) then js "[object Object]" else get row h.
Proof.
  intros row Hin. destruct (decide (h = PROTO)) as [->|Hne].
  - rewrite bool_decide_eq_true_2 by reflexivity.
    apply field_PROTO, fillRow_PROTO, lookup_empty.
  - rewrite bool_decide_eq_false_2 by assumption.
    apply field_held, parsed_row_keys. now split.
Qed.

(** The parser builds tables whose export parses back line by line, as soon
    as they hold no double quote. *)
Lemma parse_exportable csvContent :
  let table := parse defaultOptions csvContent in
  quoteFree table = true ->
  headers table = []
  \/ headers table <> []
     /\ forallb (fun h => plainField h && negb (isEmpty h)) (headers table) = true
     /\ forallb (fun row => forallb (fun h => plainField (field row h)) (headers table))
          (rows table) = true.
Proof.
  unfold parse. pose proof (nonEmptyLines_no_LF csvContent) as Hlf.
  destruct (nonEmptyLines csvContent) as [|line0 lines]; [now left|].
  apply Forall_cons_1 in Hlf as [Hl0 Hlines].
  cbv zeta. set (hs := processHeaders defaultOptions (parseCSVLine line0)).
  unfold quoteFree. cbn [headers rows].
  intros [Hqh Hqr]%andb_true_iff. right.
  assert (Hhs : forallb (fun h => plainField h && negb (isEmpty h)) hs = true).
  { apply processHeaders_plain_of_lines; [|exact Hqh].
    now apply parseCSVLine_no_LF. }
  split; [|split; [exact Hhs|]].
  - subst hs. unfold processHeaders.
    intros E. apply (f_equal length) in E. rewrite length_imap in E.
    pose proof (parseCSVLine_loop_nonempty line0 [] [] false) as Hne.
    unfold parseCSVLine in E. destruct (parseCSVLine_loop line0 [] [] false);
      [contradiction|discriminate].
  - apply forallb_forall. intros row Hrow.
    pose proof (parseRows_rows hs lines) as Hrows.
    rewrite List.Forall_forall in Hrows, Hlines.
    destruct (Hrows row Hrow) as (l & Hl & ->).
    rewrite forallb_forall in Hqr. specialize (Hqr _ Hrow).
    rewrite forallb_forall in Hqr. apply forallb_forall. intros k Hk.
    rewrite parsed_row_export by now apply list_elem_of_In.
    destruct (decide (k = PROTO)) as [->|Hne].
    + rewrite bool_decide_eq_true_2 by reflexivity. apply plainField_object.
    + rewrite bool_decide_eq_false_2 by assumption.
      apply parsed_row_field;
        [now apply Hlines|now apply list_elem_of_In|assumption|].
      apply negb_true_iff. now apply Hqr.
Qed.

(** Parsing the export of a parsed table that holds no double quote gives
    that table back. *)
Lemma parse_export_parse csvContent :
  let table := parse defaultOptions csvContent in
  quoteFree table = true ->
  parse defaultOptions (exportToCSV table) = table
  /\ exportToCSV (parse defaultOptions (exportToCSV table)) = exportToCSV table.
Proof.
  intros table Hq.
  assert (Hp : parse defaultOptions (exportToCSV table) = table); [|now rewrite Hp].
  destruct (parse_exportable csvContent Hq) as [Hempty|(Hne & Hhs & Hfields)].
  - subst table. unfold parse in *.
    destruct (nonEmptyLines csvContent) as [|line0 lines]; [reflexivity|].
    cbn [headers] in Hempty. unfold processHeaders in Hempty.
    apply (f_equal length) in Hempty. rewrite length_imap in Hempty.
    pose proof (parseCSVLine_loop_nonempty line0 [] [] false) as Hn.
    unfold parseCSVLine in Hempty.
    destruct (parseCSVLine_loop line0 [] [] false); [contradiction|discriminate].
  - fold table in Hne, Hhs, Hfields. rewrite parse_exported by assumption.
    assert (Hrows : map (reparsedRow (headers table)) (rows table) = rows table).
    { rewrite <- (map_id (rows table)) at 2. apply map_ext_in. intros row Hrow.
      assert (Hbuilt : exists values,
                row = fillRow defaultOptions (headers table) values ∅).
      { subst table. unfold parse in *.
        destruct (nonEmptyLines csvContent) as [|line0 lines]; [destruct Hrow|].
        cbn [rows headers] in *.
        pose proof (parseRows_rows
                      (processHeaders defaultOptions (parseCSVLine line0)) lines) as H.
        rewrite List.Forall_forall in H. destruct (H row Hrow) as (l & _ & E).
        eauto. }
      destruct Hbuilt as [values Hbuilt].
      rewrite forallb_forall in Hfields. specialize (Hfields _ Hrow).
      destruct (forallb_plainField_parts (field row) _ Hfields) as (_ & _ & Ht).
      apply map_eq. intros k. rewrite reparsedRow_lookup.
      destruct (decide (k ∈ headers table /\ k <> PROTO)) as [[Hk Hp']|Hk].
      - rewrite bool_decide_eq_true_2, bool_decide_eq_false_2 by assumption.
        cbn [andb negb]. rewrite (Ht k Hk).
        assert (Hsome : is_Some (row !! k)).
        { rewrite Hbuilt. apply parsed_row_keys. now split. }
        rewrite field_held by assumption. destruct Hsome as [v Hv].
        unfold get. now rewrite Hv.
      - assert (Hnone : row !! k = None).
        { apply eq_None_not_Some. rewrite Hbuilt, parsed_row_keys. exact Hk. }
        rewrite Hnone.
        destruct (decide (k ∈ headers table)) as [Hin|Hin].
        + rewrite (bool_decide_eq_true_2 (k = PROTO)); [now rewrite andb_false_r|].
          destruct (decide (k = PROTO)); [assumption|]. exfalso. now apply Hk.
        + now rewrite bool_decide_eq_false_2 by assumption. }
    assert (Hlen : totalRows table = length (rows table)).
    { subst table. unfold parse.
      now destruct (nonEmptyLines csvContent). }
    rewrite Hrows. destruct table as [h' r' n']. cbn in *. congruence.
Qed.

End WithHost.

(** C6 (amended): for a table with at least one header whose headers are
    non-empty and name no member of [Object.prototype], and whose headers
    and fields hold no double quote, no line feed and no surrounding white
    space, export after parse after export is the exported text again; the
    parsed table has the same headers, the same number of rows and, row by
    row, the same value under every header; and when the keys of each row
    are exactly the headers the rows are the same.  Every table that
    [parse] builds with its default options and that holds no double quote
    comes back from parsing its export, whatever its headers are. *)
Theorem exportToCSV_parse_roundtrip (host : Host) :
  (forall table : CSVTable,
     plainTable table = true ->
     let table' := parse defaultOptions (exportToCSV table) in
     exportToCSV table' = exportToCSV table
     /\ headers table' = headers table
     /\ totalRows table' = length (rows table)
     /\ Forall2 (fun row' row => forall h, h ∈ headers table -> read row' h = read row h)
          (rows table') (rows table)
     /\ (Forall (fun row : CSVRow => forall k, is_Some (row !! k) <-> k ∈ headers table)
           (rows table) ->
         rows table' = rows table))
  /\ (forall csvContent : jsstring,
        let table := parse defaultOptions csvContent in
        quoteFree table = true ->
        parse defaultOptions (exportToCSV table) = table
        /\ exportToCSV (parse defaultOptions (exportToCSV table)) = exportToCSV table).
Proof.
  split; [exact roundtrip_plainTable|exact parse_export_parse].
Qed.

Lemma exportToCSV_parse_roundtrip_witness :
  plainTable sampleTable = true
  /\ exportToCSV (host := utcHost)
       (parse defaultOptions (exportToCSV (host := utcHost) sampleTable))
     = exportToCSV (host := utcHost) sampleTable
  /\ quoteFree (parse defaultOptions ProfileManagerService.uploadText) = true
  /\ parse defaultOptions
       (exportToCSV (host := utcHost)
          (parse defaultOptions ProfileManagerService.uploadText))
     = parse defaultOptions ProfileManagerService.uploadText
  /\ quoteFree (parse defaultOptions protoText) = true
  /\ exportToCSV (host := utcHost) (parse defaultOptions protoText)
     = csvText [["__proto__"; "b"]; ["[object Object]"; "y"]]%string
  /\ parse defaultOptions
       (exportToCSV (host := utcHost) (parse defaultOptions protoText))
     = parse defaultOptions protoText.
Proof.
  assert (H : plainTable sampleTable = true) by (vm_compute; reflexivity).
  assert (Hq : quoteFree (parse defaultOptions ProfileManagerService.uploadText) = true)
    by (vm_compute; reflexivity).
  assert (Hp : quoteFree (parse defaultOptions protoText) = true)
    by (vm_compute; reflexivity).
  split; [exact H|]. split; [|split; [exact Hq|split; [|split; [exact Hp|split]]]].
  - exact (proj1 (proj1 (exportToCSV_parse_roundtrip utcHost) sampleTable H)).
  - exact (proj1 (proj2 (exportToCSV_parse_roundtrip utcHost)
                    ProfileManagerService.uploadText Hq)).
  - vm_compute. reflexivity.
  - exact (proj1 (proj2 (exportToCSV_parse_roundtrip utcHost) protoText Hp)).
Defined.

End CSVParserFacts.
(* ===================================================================== *)
(** ** Properties of the amount parser *)
(* ===================================================================== *)

Module AmountFacts.
Import CSVParser NumberFacts.

Lemma cleanAmount_elem s c :
  c ∈ cleanAmount s <-> c ∈ s /\ isStripped c = false.
Proof.
  unfold cleanAmount. rewrite !list_elem_of_In, filter_In, negb_true_iff.
  reflexivity.
Qed.

Lemma cleanAmount_sublist s : cleanAmount s `sublist_of` s.
Proof.
  induction s as [|c s IH]; [constructor|].
  unfold cleanAmount in *. cbn [List.filter].
  destruct (negb (isStripped c)); now constructor.
Qed.

Lemma cleanAmount_app s t : cleanAmount (s ++ t) = cleanAmount s ++ cleanAmount t.
Proof. apply List.filter_app. Qed.

Lemma cleanAmount_stripped c s :
  isStripped c = true -> cleanAmount (c :: s) = cleanAmount s.
Proof. intros H. unfold cleanAmount. cbn [List.filter]. now rewrite H. Qed.

Lemma cleanAmount_idempotent s : cleanAmount (cleanAmount s) = cleanAmount s.
Proof.
  unfold cleanAmount. induction s as [|c s IH]; [reflexivity|].
  cbn [List.filter]. destruct (negb (isStripped c)) eqn:E; [|exact IH].
  cbn [List.filter]. now rewrite E, IH.
Qed.

(** The edits of [stripEdit] are exactly what [cleanAmount] cannot see. *)
Lemma stripEdit_cleanAmount s s' :
  stripEdit s s' -> cleanAmount s = cleanAmount s'.
Proof.
  induction 1 as [s|s1 s2 c Hc|s1 s2 c Hc|s t u _ IH1 _ IH2].
  - reflexivity.
  - now rewrite !cleanAmount_app, (cleanAmount_stripped c s2 Hc).
  - now rewrite !cleanAmount_app, (cleanAmount_stripped c s2 Hc).
  - congruence.
Qed.

Lemma stripEdit_sym s s' : stripEdit s s' -> stripEdit s' s.
Proof.
  induction 1; [constructor|now apply stripEdit_delete|now apply stripEdit_insert|].
  eapply stripEdit_trans; eassumption.
Qed.

Lemma stripEdit_to_clean s : stripEdit s (cleanAmount s).
Proof.
  induction s as [|c s IH]; [constructor|].
  destruct (isStripped c) eqn:E.
  - rewrite (cleanAmount_stripped c s E).
    eapply stripEdit_trans; [|exact IH].
    apply (stripEdit_delete [] s c E).
  - unfold cleanAmount in *. cbn [List.filter]. rewrite E. cbn [negb].
    clear E. induction IH as [t|t1 t2 d Hd|t1 t2 d Hd|t u v _ IH1 _ IH2].
    + constructor.
    + apply (stripEdit_insert (c :: t1) t2 d Hd).
    + apply (stripEdit_delete (c :: t1) t2 d Hd).
    + eapply stripEdit_trans; eassumption.
Qed.

(** Conversely, two strings with the same cleaned form differ by such edits. *)
Lemma cleanAmount_stripEdit s s' :
  cleanAmount s = cleanAmount s' -> stripEdit s s'.
Proof.
  intros H. eapply stripEdit_trans; [apply stripEdit_to_clean|].
  rewrite H. apply stripEdit_sym, stripEdit_to_clean.
Qed.

Lemma neg_NaN x : isNaN x = true -> neg x = NaN.
Proof. now destruct x. Qed.

Lemma isNaN_neg x : isNaN (neg x) = isNaN x.
Proof. now destruct x. Qed.

Lemma isNaN_true x : isNaN x = true -> x = NaN.
Proof. now destruct x. Qed.

Lemma parseAmount_unfold s :
  parseAmount s
  = if startsWith MINUS (cleanAmount s)
    then neg (parseFloat (tail (cleanAmount s)))
    else parseFloat (cleanAmount s).
Proof.
  unfold parseAmount, dropLeadingMinus, startsWith.
  destruct (cleanAmount s) as [|c r]; cbn [tail].
  - now destruct (parseFloat []).
  - destruct (c =? MINUS)%N.
    + destruct (isNaN (parseFloat r)) eqn:E; [|reflexivity].
      symmetry. now apply neg_NaN.
    + destruct (isNaN (parseFloat (c :: r))) eqn:E; [|reflexivity].
      symmetry. now apply isNaN_true.
Qed.

(** C7: [parseAmount] deletes every dollar sign, comma, plus sign and white
    space character and keeps the other characters in order; a minus sign at
    the start of what is left marks the value negative; the rest is parsed as
    a decimal number; the result is NaN exactly when that parse fails; and
    the four boundary strings evaluate as the specification says. *)
Theorem parseAmount_spec :
  (forall s : jsstring,
     let clean := cleanAmount s in
     (forall c, c ∈ clean <-> c ∈ s /\ isStripped c = false)
     /\ clean `sublist_of` s
     /\ parseAmount s
        = (if startsWith MINUS clean
           then neg (parseFloat (tail clean))
           else parseFloat clean)
     /\ isNaN (parseAmount s) = isNaN (parseFloat (dropLeadingMinus clean)))
  /\ parseAmount (js "+$500") = ofZ 500
  /\ parseAmount (js "-$2,500") = ofZ (-2500)
  /\ parseAmount (js "abc") = NaN
  /\ parseAmount (js "$0") = ofZ 0.
Proof.
  split; [|repeat split; vm_compute; reflexivity].
  intros s clean. subst clean.
  split; [intros c; apply cleanAmount_elem|].
  split; [apply cleanAmount_sublist|].
  split; [apply parseAmount_unfold|].
  - rewrite parseAmount_unfold. unfold dropLeadingMinus, startsWith.
    destruct (cleanAmount s) as [|c r]; [reflexivity|].
    destruct (c =? MINUS)%N; [apply isNaN_neg|reflexivity].
Qed.

(** A string whose first non-blank character is not a minus sign never
    parses to a number with the sign bit set. *)
Lemma signBit_parseFloat t :
  startsWith MINUS (trimStart t) = false -> signBit (parseFloat t) = false.
Proof.
  unfold parseFloat, startsWith.
  destruct (trimStart t) as [|c r].
  - intros _. reflexivity.
  - intros Hc. destruct (c =? PLUS)%N.
    + destruct (isPrefixOf (js "Infinity") r); [reflexivity|].
      destruct (spanDigits r) as [intDigits s3].
      destruct (match s3 with
                | [] => ([], s3)
                | c0 :: r0 => if (c0 =? DOT)%N then spanDigits r0 else ([], s3)
                end) as [fracDigits s4].
      destruct (isEmpty intDigits && isEmpty fracDigits); [reflexivity|].
      apply signBit_ofRatio.
    + rewrite Hc.
      destruct (isPrefixOf (js "Infinity") (c :: r)); [reflexivity|].
      destruct (spanDigits (c :: r)) as [intDigits s3].
      destruct (match s3 with
                | [] => ([], s3)
                | c0 :: r0 => if (c0 =? DOT)%N then spanDigits r0 else ([], s3)
                end) as [fracDigits s4].
      destruct (isEmpty intDigits && isEmpty fracDigits); [reflexivity|].
      apply signBit_ofRatio.
Qed.

Lemma trimStart_cleanAmount s : trimStart (cleanAmount s) = cleanAmount s.
Proof.
  destruct (cleanAmount s) as [|c r] eqn:E; [reflexivity|].
  assert (Hc : c ∈ cleanAmount s) by (rewrite E; apply list_elem_of_here).
  apply cleanAmount_elem in Hc as [_ Hc].
  unfold isStripped in Hc. apply orb_false_iff in Hc as [_ Hc].
  cbn [trimStart]. now rewrite Hc.
Qed.

(** C10: [parseAmount] gives the same number (NaN included) on two strings
    that differ by insertions and deletions of dollar signs, commas, plus
    signs and white space at any positions; "1,2,3" is 123 and "5 0 $" is 50;
    the result is the negation of the parsed remainder when the cleaned
    string starts with a minus sign, and otherwise it is the parsed cleaned
    string, which never has its sign bit set. *)
Theorem parseAmount_stripEdit :
  (forall s s' : jsstring, stripEdit s s' -> parseAmount s = parseAmount s')
  /\ parseAmount (js "1,2,3") = ofZ 123
  /\ parseAmount (js "5 0 $") = ofZ 50
  /\ (forall s : jsstring,
        startsWith MINUS (cleanAmount s) = true ->
        parseAmount s = neg (parseFloat (tail (cleanAmount s))))
  /\ (forall s : jsstring,
        startsWith MINUS (cleanAmount s) = false ->
        parseAmount s = parseFloat (cleanAmount s)
        /\ signBit (parseAmount s) = false).
Proof.
  split; [|split; [|split; [|split]]].
  - intros s s' Hedit. rewrite !parseAmount_unfold.
    now rewrite (stripEdit_cleanAmount s s' Hedit).
  - vm_compute. reflexivity.
  - vm_compute. reflexivity.
  - intros s Hs. rewrite parseAmount_unfold, Hs. reflexivity.
  - intros s Hs. rewrite parseAmount_unfold, Hs. split; [reflexivity|].
    apply signBit_parseFloat. now rewrite trimStart_cleanAmount.
Qed.

Lemma parseAmount_stripEdit_witness :
  stripEdit (js "-2500") (js "- $2,500 ")
  /\ parseAmount (js "-2500") = parseAmount (js "- $2,500 ").
Proof.
  assert (H : stripEdit (js "-2500") (js "- $2,500 ")).
  { apply cleanAmount_stripEdit. vm_compute. reflexivity. }
  split; [exact H|].
  exact (proj1 parseAmount_stripEdit (js "-2500") (js "- $2,500 ") H).
Defined.

(** A second minus sign is read by [parseFloat] itself. *)
Example parseAmount_double_minus : parseAmount (js "--5") = ofZ 5.
Proof. vm_compute. reflexivity. Qed.

End AmountFacts.
(* ===================================================================== *)
(** ** Properties of the aggregates *)
(* ===================================================================== *)

Module BankingFacts.
Import CSVParser BankingCSVParser NumberFacts.

Lemma add_NaN_l y : add NaN y = NaN.
Proof. reflexivity. Qed.

Lemma add_NaN_r x : add x NaN = NaN.
Proof. now destruct x. Qed.

Lemma sub_NaN_r x : sub x NaN = NaN.
Proof. now destruct x. Qed.

Lemma total_from_NaN ts :
  fold_left (fun sum t => add sum (amount t)) ts NaN = NaN.
Proof. induction ts as [|t ts IH]; [reflexivity|exact IH]. Qed.

Lemma summary_from_NaN ts d :
  snd (fold_left summaryStep ts (d, NaN)) = NaN.
Proof.
  revert d. induction ts as [|t ts IH]; intros d; [reflexivity|].
  cbn [fold_left summaryStep]. destruct (gtb (amount t) zero); apply IH.
Qed.

Lemma calculateSummary_netChange ts :
  netChange (calculateSummary ts)
  = sub (deposits (calculateSummary ts)) (withdrawals (calculateSummary ts)).
Proof.
  unfold calculateSummary. now destruct (fold_left summaryStep ts (zero, zero)).
Qed.

Lemma calculateSummary_withdrawals ts :
  withdrawals (calculateSummary ts) = snd (fold_left summaryStep ts (zero, zero)).
Proof.
  unfold calculateSummary. now destruct (fold_left summaryStep ts (zero, zero)).
Qed.

Lemma calculateSummary_deposits ts :
  deposits (calculateSummary ts) = fst (fold_left summaryStep ts (zero, zero)).
Proof.
  unfold calculateSummary. now destruct (fold_left summaryStep ts (zero, zero)).
Qed.

(** One NaN amount turns the total, the withdrawals and the net change
    into NaN. *)
Lemma NaN_amount_propagates ts t :
  In t ts -> amount t = NaN ->
  calculateTotalAmount ts = NaN
  /\ withdrawals (calculateSummary ts) = NaN
  /\ netChange (calculateSummary ts) = NaN.
Proof.
  intros Hin Ht. apply in_split in Hin as (l1 & l2 & ->).
  assert (Hw : withdrawals (calculateSummary (l1 ++ t :: l2)) = NaN).
  { rewrite calculateSummary_withdrawals, fold_left_app. cbn [fold_left].
    destruct (fold_left summaryStep l1 (zero, zero)) as [d w].
    cbn [summaryStep]. rewrite Ht.
    change (gtb NaN zero) with false. change (abs NaN) with NaN. cbv iota.
    rewrite add_NaN_r. apply summary_from_NaN. }
  split; [|split; [exact Hw|]].
  - unfold calculateTotalAmount. rewrite fold_left_app. cbn [fold_left].
    rewrite Ht, add_NaN_r. apply total_from_NaN.
  - rewrite calculateSummary_netChange, Hw. apply sub_NaN_r.
Qed.

Ltac sum_induction ks :=
  induction ks as [|? ? ?];
  unfold sumZ, sumAbs, sumPositive, sumNegative in *;
  cbn [fold_right] in *; lia.

Lemma sumAbs_nonneg ks : 0 <= sumAbs ks.
Proof. sum_induction ks. Qed.

Lemma sumPositive_nonneg ks : 0 <= sumPositive ks.
Proof. sum_induction ks. Qed.

Lemma sumNegative_nonneg ks : 0 <= sumNegative ks.
Proof. sum_induction ks. Qed.

Lemma sumPositive_sumNegative ks :
  sumPositive ks - sumNegative ks = sumZ ks
  /\ sumPositive ks + sumNegative ks = sumAbs ks.
Proof. sum_induction ks. Qed.

Lemma sumZ_bound ks : Z.abs (sumZ ks) <= sumAbs ks.
Proof. sum_induction ks. Qed.

Lemma sums_cons k ks :
  sumZ (k :: ks) = k + sumZ ks
  /\ sumAbs (k :: ks) = Z.abs k + sumAbs ks
  /\ sumPositive (k :: ks) = Z.max k 0 + sumPositive ks
  /\ sumNegative (k :: ks) = Z.max (- k) 0 + sumNegative ks.
Proof. repeat split. Qed.

(** The running total stays exact while the absolute values seen so far
    stay below 2^53. *)
Lemma total_exact ts ks T :
  Forall2 (fun t k => amount t = ofZ k) ts ks ->
  Z.abs T + sumAbs ks < 2 ^ 53 ->
  fold_left (fun sum t => add sum (amount t)) ts (ofZ T) = ofZ (T + sumZ ks).
Proof.
  intros Hall. revert T.
  induction Hall as [|t k ts ks Ht _ IH]; intros T Hb.
  - cbn. now rewrite Z.add_0_r.
  - destruct (sums_cons k ks) as (Ez & Ea & _ & _). rewrite Ez, Ea in *.
    pose proof (sumAbs_nonneg ks). pose proof (sumZ_bound ks).
    cbn [fold_left]. rewrite Ht, add_ofZ by lia.
    rewrite IH by lia. f_equal. lia.
Qed.

Lemma summary_exact ts ks D W :
  Forall2 (fun t k => amount t = ofZ k) ts ks ->
  0 <= D -> 0 <= W -> D + W + sumAbs ks < 2 ^ 53 ->
  fold_left summaryStep ts (ofZ D, ofZ W)
  = (ofZ (D + sumPositive ks), ofZ (W + sumNegative ks)).
Proof.
  intros Hall. revert D W.
  induction Hall as [|t k ts ks Ht _ IH]; intros D W HD HW Hb.
  - cbn. now rewrite !Z.add_0_r.
  - destruct (sums_cons k ks) as (_ & Ea & Ep & En). rewrite Ea, Ep, En in *.
    pose proof (sumAbs_nonneg ks).
    cbn [fold_left summaryStep]. rewrite Ht, gtb_ofZ_zero by lia.
    destruct (0 <? k) eqn:Ek.
    + apply Z.ltb_lt in Ek. rewrite add_ofZ by lia.
      rewrite IH by lia. f_equal; f_equal; lia.
    + apply Z.ltb_ge in Ek. rewrite abs_ofZ, add_ofZ by lia.
      rewrite IH by lia. f_equal; f_equal; lia.
Qed.

Lemma integer_amounts_exact ts ks :
  Forall2 (fun t k => amount t = ofZ k) ts ks ->
  sumAbs ks < 2 ^ 53 ->
  calculateTotalAmount ts = ofZ (sumZ ks)
  /\ deposits (calculateSummary ts) = ofZ (sumPositive ks)
  /\ withdrawals (calculateSummary ts) = ofZ (sumNegative ks)
  /\ netChange (calculateSummary ts) = ofZ (sumZ ks).
Proof.
  intros Hall Hb.
  pose proof (sumPositive_sumNegative ks) as [Hdiff Hsum].
  pose proof (sumPositive_nonneg ks). pose proof (sumNegative_nonneg ks).
  pose proof (sumZ_bound ks).
  assert (Hs : fold_left summaryStep ts (zero, zero)
               = (ofZ (sumPositive ks), ofZ (sumNegative ks))).
  { change (zero, zero) with (ofZ 0, ofZ 0).
    rewrite (summary_exact ts ks 0 0 Hall) by lia. reflexivity. }
  split; [|split; [|split]].
  - unfold calculateTotalAmount. change zero with (ofZ 0).
    rewrite (total_exact ts ks 0 Hall) by (cbn; lia). reflexivity.
  - now rewrite calculateSummary_deposits, Hs.
  - now rewrite calculateSummary_withdrawals, Hs.
  - rewrite calculateSummary_netChange, calculateSummary_deposits,
      calculateSummary_withdrawals, Hs. cbn [fst snd].
    rewrite sub_ofZ by lia. now rewrite Hdiff.
Qed.

(** C1 (as stated): with the amounts 0.1, -0.3 and 0.2 the total and the net
    change are two different numbers: 2^-55 and 2^-54. *)
Lemma totalAmount_differs_from_netChange :
  let table := parseBankingData (host := utcHost) centsText in
  map amount (transactions table)
    = [parseFloat (js "0.1"); neg (parseFloat (js "0.3")); parseFloat (js "0.2")]
  /\ totalAmount table = S754_finite false 4503599627370496 (-107)
  /\ netChange (summary table) = S754_finite false 4503599627370496 (-106)
  /\ Number.eqb (totalAmount table) (netChange (summary table)) = false.
Proof. vm_compute. repeat split. Qed.

(** C1 (amended): in every table that [parseBankingData] builds, the total
    and the summary are those of its transactions and the net change is the
    difference of deposits and withdrawals; an amount that is NaN makes the
    total, the withdrawals and the net change NaN; and when the amounts are
    whole numbers whose absolute values sum to less than 2^53, the total and
    the net change are both the exact sum. *)
Theorem summary_invariant :
  (forall (host : Host) (csvContent : jsstring),
     let table := parseBankingData csvContent in
     totalAmount table = calculateTotalAmount (transactions table)
     /\ summary table = calculateSummary (transactions table))
  /\ (forall ts : list BankingTransaction,
        let s := calculateSummary ts in
        netChange s = sub (deposits s) (withdrawals s)
        /\ (forall t, In t ts -> amount t = NaN ->
              calculateTotalAmount ts = NaN /\ withdrawals s = NaN
              /\ netChange s = NaN)
        /\ (forall ks, Forall2 (fun t k => amount t = ofZ k) ts ks ->
              sumAbs ks < 2 ^ 53 ->
              calculateTotalAmount ts = ofZ (sumZ ks)
              /\ netChange s = ofZ (sumZ ks)
              /\ calculateTotalAmount ts = netChange s)).
Proof.
  split.
  - intros host csvContent table. now subst table.
  - intros ts s. subst s. split; [apply calculateSummary_netChange|]. split.
    + intros t Hin Ht. now apply (NaN_amount_propagates ts t).
    + intros ks Hall Hb.
      destruct (integer_amounts_exact ts ks Hall Hb) as (Ht & _ & _ & Hn).
      repeat split; congruence.
Qed.

Lemma summary_invariant_witness :
  let ts := transactions (parseBankingData (host := utcHost) wholeText) in
  calculateTotalAmount ts = ofZ (-2000)
  /\ netChange (calculateSummary ts) = ofZ (-2000)
  /\ calculateTotalAmount ts = netChange (calculateSummary ts).
Proof.
  intros ts.
  refine (proj2 (proj2 (proj2 summary_invariant ts)) [500; -2500] _ _).
  - subst ts. vm_compute. repeat constructor.
  - vm_compute. reflexivity.
Defined.

(** [withdrawals] only ever adds absolute values to +0: its sign bit is
    never set, so adding a zero to it changes nothing. *)
Lemma signBit_withdrawals ts d w :
  signBit w = false -> signBit (snd (fold_left summaryStep ts (d, w))) = false.
Proof.
  revert d w. induction ts as [|t ts IH]; intros d w Hw; [exact Hw|].
  cbn [fold_left summaryStep]. destruct (gtb (amount t) zero); apply IH;
    [exact Hw|now apply signBit_add_abs].
Qed.

Lemma calculateSummary_snoc ts t :
  let s := calculateSummary ts in
  let s' := calculateSummary (ts ++ [t]) in
  if gtb (amount t) zero
  then deposits s' = add (deposits s) (amount t) /\ withdrawals s' = withdrawals s
  else deposits s' = deposits s
       /\ withdrawals s' = add (withdrawals s) (abs (amount t)).
Proof.
  cbv zeta.
  rewrite !calculateSummary_deposits, !calculateSummary_withdrawals, fold_left_app.
  cbn [fold_left]. destruct (fold_left summaryStep ts (zero, zero)) as [d w].
  cbn [summaryStep fst snd]. now destruct (gtb (amount t) zero).
Qed.

(** C4: the summary takes a transaction for a deposit exactly when its
    amount is greater than zero and otherwise adds the absolute value to the
    withdrawals; the type filter keeps, in order, the transactions with
    amount > 0 under deposits and those with amount < 0 under withdrawals; so
    a transaction with amount zero leaves the summary as it was (a zero is
    added to the withdrawals) and is in neither filtered list. *)
Theorem summary_and_type_filter_boundary :
  (forall ts t,
     let s := calculateSummary ts in
     let s' := calculateSummary (ts ++ [t]) in
     if gtb (amount t) zero
     then deposits s' = add (deposits s) (amount t)
          /\ withdrawals s' = withdrawals s
     else deposits s' = deposits s
          /\ withdrawals s' = add (withdrawals s) (abs (amount t)))
  /\ (forall table,
        getTransactionsByType table Deposits
          = List.filter (fun t => gtb (amount t) zero) (transactions table)
        /\ getTransactionsByType table Withdrawals
          = List.filter (fun t => ltb (amount t) zero) (transactions table)
        /\ forall t,
             (In t (getTransactionsByType table Deposits)
              <-> In t (transactions table) /\ gtb (amount t) zero = true)
             /\ (In t (getTransactionsByType table Withdrawals)
                 <-> In t (transactions table) /\ ltb (amount t) zero = true))
  /\ (forall ts t table sz,
        amount t = S754_zero sz ->
        withdrawals (calculateSummary (ts ++ [t]))
          = add (withdrawals (calculateSummary ts)) zero
        /\ calculateSummary (ts ++ [t]) = calculateSummary ts
        /\ ~ In t (getTransactionsByType table Deposits)
        /\ ~ In t (getTransactionsByType table Withdrawals)).
Proof.
  split; [exact calculateSummary_snoc|]. split.
  - intros table. split; [reflexivity|]. split; [reflexivity|].
    intros t. cbn [getTransactionsByType]. now rewrite !filter_In.
  - intros ts t table sz Hz.
    pose proof (calculateSummary_snoc ts t) as Hs. cbv zeta in Hs.
    rewrite Hz in Hs. change (gtb (S754_zero sz) zero) with false in Hs.
    change (abs (S754_zero sz)) with zero in Hs. destruct Hs as [Hd Hw].
    assert (Hsign : signBit (withdrawals (calculateSummary ts)) = false).
    { rewrite calculateSummary_withdrawals. now apply signBit_withdrawals. }
    split; [exact Hw|]. split.
    + rewrite add_zero_r in Hw by exact Hsign.
      pose proof (calculateSummary_netChange (ts ++ [t])) as Hn'.
      pose proof (calculateSummary_netChange ts) as Hn.
      rewrite Hd, Hw, <- Hn in Hn'.
      destruct (calculateSummary (ts ++ [t])), (calculateSummary ts).
      cbn in *. congruence.
    + cbn [getTransactionsByType]. rewrite !filter_In, Hz.
      split; intros [_ H]; destruct sz; discriminate H.
Qed.

Lemma summary_and_type_filter_boundary_witness :
  let ts := transactions (parseBankingData (host := utcHost) wholeText) in
  let t := parseTransaction {[ js "Amount" := js "$0" ]} in
  amount t = S754_zero false
  /\ calculateSummary (ts ++ [t]) = calculateSummary ts.
Proof.
  intros ts t. split; [reflexivity|].
  exact (proj1 (proj2 (proj2 (proj2 summary_and_type_filter_boundary)
                         ts t (summarize (host := utcHost) ts) false eq_refl))).
Defined.

End BankingFacts.
(* ===================================================================== *)
(** ** Properties of the worked-hours estimate *)
(* ===================================================================== *)

Module DashboardFacts.
Import CSVParser BankingCSVParser Dashboard SortFacts.

Lemma last_cons {A} (a d : A) l : List.last (a :: l) d = List.last l a.
Proof.
  revert a d. induction l as [|b l IH]; intros a d; [reflexivity|].
  change (List.last (a :: b :: l) d) with (List.last (b :: l) d).
  now rewrite !IH.
Qed.

(** The sessions of a non-empty list start with the session of its head. *)
Lemma sessions_head t rest :
  exists s ss, sessions (t :: rest) = (t :: s) :: ss.
Proof.
  cbn [sessions]. destruct (sessions rest) as [|[|t' s] ss]; eauto.
  destruct (t' - t <=? ONE_HOUR_MS); eauto.
Qed.

Lemma sessions_cons t t' rest :
  sessions (t :: t' :: rest)
  = match sessions (t' :: rest) with
    | (_ :: s) :: ss =>
        if t' - t <=? ONE_HOUR_MS then (t :: t' :: s) :: ss
        else [t] :: (t' :: s) :: ss
    | _ => [[t]]
    end.
Proof.
  destruct (sessions_head t' rest) as (s & ss & E).
  change (sessions (t :: t' :: rest))
    with (match sessions (t' :: rest) with
          | (t'' :: s) :: ss =>
              if t'' - t <=? ONE_HOUR_MS then (t :: t'' :: s) :: ss
              else [t] :: (t'' :: s) :: ss
          | _ => [[t]]
          end).
  now rewrite E.
Qed.

(** The loop, started in the middle of a session, adds up the sessions of
    what is left, the first of them stretched back to [sessionStart]. *)
Lemma sessionLoop_sessions rest totalMs sessionStart last :
  sessionLoop totalMs sessionStart last rest
  = totalMs + (last - sessionStart) + totalDuration (sessions (last :: rest)).
Proof.
  revert totalMs sessionStart last.
  induction rest as [|cur rest IH]; intros totalMs sessionStart last.
  - cbn. lia.
  - cbn [sessionLoop]. rewrite sessions_cons.
    destruct (sessions_head cur rest) as (s & ss & E).
    destruct (cur - last <=? ONE_HOUR_MS); rewrite IH, E;
      cbn [totalDuration fold_right sessionDuration];
      rewrite ?last_cons; cbn [List.last]; lia.
Qed.

Lemma sessions_concat ts : concat (sessions ts) = ts.
Proof.
  induction ts as [|t [|t' rest] IH]; [reflexivity|reflexivity|].
  rewrite sessions_cons.
  destruct (sessions_head t' rest) as (s & ss & E). rewrite E in *.
  cbn [concat app] in IH.
  destruct (t' - t <=? ONE_HOUR_MS); cbn [concat app]; now rewrite IH.
Qed.

Lemma sessions_closeKnit ts :
  Forall (fun s => s <> [] /\ closeKnit s = true) (sessions ts).
Proof.
  induction ts as [|t [|t' rest] IH].
  - constructor.
  - repeat constructor. discriminate.
  - rewrite sessions_cons.
    destruct (sessions_head t' rest) as (s & ss & E). rewrite E in *.
    apply Forall_cons_1 in IH as [[_ Hs] Hss].
    destruct (t' - t <=? ONE_HOUR_MS) eqn:G.
    + constructor; [|exact Hss]. split; [discriminate|].
      cbn [closeKnit] in *. now rewrite G.
    + constructor; [split; [discriminate|reflexivity]|].
      constructor; [split; [discriminate|exact Hs]|exact Hss].
Qed.

Lemma sessions_wellSeparated ts : wellSeparated (sessions ts) = true.
Proof.
  induction ts as [|t [|t' rest] IH]; [reflexivity|reflexivity|].
  rewrite sessions_cons.
  destruct (sessions_head t' rest) as (s & ss & E). rewrite E in *.
  destruct (t' - t <=? ONE_HOUR_MS) eqn:G.
  - destruct ss as [|[|u s'] ss]; [reflexivity|exact IH|].
    cbn [wellSeparated] in *. now rewrite !last_cons in *.
  - change (wellSeparated ([t] :: (t' :: s) :: ss))
      with ((ONE_HOUR_MS <? t' - t) && wellSeparated ((t' :: s) :: ss)).
    rewrite IH, andb_true_r.
    apply Z.ltb_lt. apply Z.leb_gt in G. lia.
Qed.

Lemma sessionHours_sessions ts :
  sessionHours ts
  = match ts with
    | [] => zero
    | _ => div (ofZ (totalDuration (sessions ts))) (ofZ ONE_HOUR_MS)
    end.
Proof.
  destruct ts as [|first rest]; [reflexivity|].
  unfold sessionHours. rewrite sessionLoop_sessions. do 2 f_equal. lia.
Qed.

Section WithHost.
Context {host : Host}.

(** What the loop is given is in ascending order. *)
Lemma relevantDates_ascending transactions reasons froms dateStart dateEnd :
  ascending id
    (timeValues (relevantDates transactions reasons froms dateStart dateEnd)).
Proof.
  unfold relevantDates.
  set (ds := List.filter isValid _).
  assert (Hvalid : forall d, In d ds -> isValid d = true).
  { intros d Hd. now apply filter_In in Hd as [_ ?]. }
  assert (Hsorted : ascending (fun d => default 0 (getTime d)) (sort compareDates ds)).
  { apply sort_ascending. intros a b Ha Hb.
    apply Hvalid in Ha, Hb. now destruct a, b. }
  assert (Hvalid' : forall d, In d (sort compareDates ds) -> isValid d = true).
  { intros d Hd. apply Hvalid. exact (Permutation_in _ (sort_perm _ ds) Hd). }
  unfold ascending in *.
  induction Hsorted as [|d l Hl IH Hd]; [constructor|].
  assert (isValid d = true) as Hv by (apply Hvalid'; now left).
  destruct d as [|t]; [discriminate|].
  unfold timeValues in *. cbn [omap list_omap getTime].
  constructor; [apply IH; intros; apply Hvalid'; now right|].
  rewrite List.Forall_forall in *. intros x Hx.
  apply list_elem_of_In, list_elem_of_omap in Hx as (d' & Hd' & Hx).
  apply list_elem_of_In in Hd'. specialize (Hd _ Hd').
  destruct d'; [discriminate|]. cbn in *. injection Hx as <-. exact Hd.
Qed.

End WithHost.

(** C2: the estimate is the sum, in hours, of the durations of the sessions
    of the time stamps it is given, each session running from its first time
    stamp to one hour after its last; the sessions split the list in order,
    consecutive time stamps of a session are at most one hour apart and
    sessions are more than one hour apart; what [computeHoursForReasons]
    clusters is the ascending list of the time values its filters select; no
    time stamp gives zero; and 10:00, 10:30 and 13:00 give 1.5 h + 1 h, also
    through the built-in trucking category. *)
Theorem sessionHours_spec :
  (forall ts : list Z,
     sessionHours ts
     = match ts with
       | [] => zero
       | _ => div (ofZ (totalDuration (sessions ts))) (ofZ ONE_HOUR_MS)
       end
     /\ concat (sessions ts) = ts
     /\ Forall (fun s => s <> [] /\ closeKnit s = true) (sessions ts)
     /\ wellSeparated (sessions ts) = true)
  /\ (forall (host : Host) table reasons froms dateStart dateEnd,
        let relevant :=
          timeValues (relevantDates (transactions table) reasons froms
                        dateStart dateEnd) in
        computeHoursForReasons (Some table) reasons froms dateStart dateEnd
          = sessionHours relevant
        /\ ascending id relevant)
  /\ (forall (host : Host) reasons froms dateStart dateEnd,
        computeHoursForReasons None reasons froms dateStart dateEnd = zero)
  /\ sessionHours [] = zero
  /\ sessions exampleStamps
     = [[1754560800000; 1754562600000]; [1754571600000]]
  /\ map sessionDuration (sessions exampleStamps) = [5400000; 3600000]
  /\ sessionHours exampleStamps = parseFloat (js "2.5")
  /\ computeHoursForReasons (host := utcHost)
       (Some (parseBankingData (host := utcHost) exampleText))
       [js "Trucking"; js "components"] None None None
     = parseFloat (js "2.5")
  /\ truckingHours (host := utcHost)
       (Some (parseBankingData (host := utcHost) exampleText))
     = parseFloat (js "2.5").
Proof.
  split.
  { intros ts. split; [apply sessionHours_sessions|].
    split; [apply sessions_concat|].
    split; [apply sessions_closeKnit|apply sessions_wellSeparated]. }
  split.
  { intros host table reasons froms dateStart dateEnd relevant.
    split; [reflexivity|apply relevantDates_ascending]. }
  split; [reflexivity|].
  repeat split; vm_compute; reflexivity.
Qed.

End DashboardFacts.
(* ===================================================================== *)
(** ** Properties of the merge *)
(* ===================================================================== *)

Module MergeFacts.
Import CSVParser BankingCSVParser ProfileManagerService SortFacts.

Section WithHost.
Context {host : Host}.

Lemma latestStep_parsedDate latest t :
  latestStep latest t
  = match parsedDate t with
    | Some d => Z.max latest d
    | None => latest
    end.
Proof.
  unfold latestStep, parsedDate. destruct (isEmpty (date t)); [reflexivity|].
  destruct (parseBankingDate (date t)) as [|d]; [reflexivity|].
  cbn [getTime]. destruct (d >? latest) eqn:E.
  - apply Z.gtb_lt in E. lia.
  - rewrite Z.gtb_ltb in E. apply Z.ltb_ge in E. lia.
Qed.

Lemma isAfter_parsedDate latest t :
  isAfter latest t
  = match parsedDate t with
    | Some d => latest <? d
    | None => false
    end.
Proof.
  unfold isAfter, parsedDate. destruct (isEmpty (date t)); [reflexivity|].
  destruct (parseBankingDate (date t)) as [|d]; [reflexivity|].
  apply Z.gtb_ltb.
Qed.

Lemma latest_fold_lower l init : init <= fold_left latestStep l init.
Proof.
  revert init. induction l as [|t l IH]; intros init; cbn [fold_left]; [lia|].
  specialize (IH (latestStep init t)).
  pose proof (latestStep_parsedDate init t) as E.
  destruct (parsedDate t); lia.
Qed.

Lemma latest_fold_upper l init t d :
  In t l -> parsedDate t = Some d -> d <= fold_left latestStep l init.
Proof.
  revert init. induction l as [|u l IH]; intros init [].
  - subst u. intros Hd. cbn [fold_left].
    pose proof (latest_fold_lower l (latestStep init t)) as Hl.
    pose proof (latestStep_parsedDate init t) as E. rewrite Hd in E. lia.
  - intros Hd. cbn [fold_left]. now apply IH.
Qed.

Lemma latest_fold_attained l init :
  fold_left latestStep l init = init
  \/ exists t, In t l /\ parsedDate t = Some (fold_left latestStep l init).
Proof.
  revert init. induction l as [|u l IH]; intros init; [now left|].
  cbn [fold_left]. destruct (IH (latestStep init u)) as [E|(t & Hin & Ht)].
  - rewrite E, latestStep_parsedDate.
    destruct (parsedDate u) as [d|] eqn:Hu; [|now left].
    destruct (Z.max_spec init d) as [[_ ->]|[_ ->]]; [|now left].
    right. exists u. split; [now left|]. rewrite Hu. reflexivity.
  - right. exists t. split; [now right|exact Ht].
Qed.

Lemma incomingAfter_perm existing incoming :
  Permutation (incomingAfter existing incoming)
    (List.filter (isAfter (latestExistingDate existing)) incoming).
Proof. apply sort_perm. Qed.

Lemma incomingAfter_ascending existing incoming :
  ascending (fun t => default 0 (parsedDate t)) (incomingAfter existing incoming).
Proof.
  apply sort_ascending.
  assert (H : forall a, In a (List.filter (isAfter (latestExistingDate existing)) incoming) ->
              getTime (parseBankingDate (date a)) = Some (default 0 (parsedDate a))).
  { intros a [_ Ha]%filter_In. unfold isAfter, parsedDate in *.
    destruct (isEmpty (date a)); [discriminate|].
    now destruct (parseBankingDate (date a)). }
  intros a b Ha Hb. unfold compareByDate. now rewrite (H a Ha), (H b Hb).
Qed.

(** What is appended: with the cut-off the later of 1 January 1970 and the
    latest date that parses among the stored transactions, the transactions
    of the upload whose date parses and is strictly later than the cut-off,
    in ascending order of date. *)
Lemma incomingAfter_spec existing incoming :
  let cutoff := latestExistingDate existing in
  let appended := incomingAfter existing incoming in
  (0 <= cutoff
   /\ (forall t d, In t existing -> parsedDate t = Some d -> d <= cutoff)
   /\ (cutoff = 0 \/ exists t, In t existing /\ parsedDate t = Some cutoff))
  /\ Permutation appended
       (List.filter (fun t => match parsedDate t with
                              | Some d => cutoff <? d
                              | None => false
                              end) incoming)
  /\ (forall t, In t appended
                <-> In t incoming /\ exists d, parsedDate t = Some d /\ cutoff < d)
  /\ ascending (fun t => default 0 (parsedDate t)) appended.
Proof.
  intros cutoff appended.
  assert (Hperm : Permutation appended
            (List.filter (fun t => match parsedDate t with
                                   | Some d => cutoff <? d
                                   | None => false
                                   end) incoming)).
  { subst appended. rewrite incomingAfter_perm. fold cutoff.
    erewrite filter_ext; [reflexivity|]. intros t. apply isAfter_parsedDate. }
  split; [|split; [exact Hperm|split]].
  - subst cutoff. unfold latestExistingDate. split; [apply latest_fold_lower|].
    split; [intros t d; apply latest_fold_upper|apply latest_fold_attained].
  - intros t. split.
    + intros Hin. apply (Permutation_in _ Hperm), filter_In in Hin as [Hin Hd].
      split; [exact Hin|]. destruct (parsedDate t) as [d|]; [|discriminate].
      exists d. split; [reflexivity|]. now apply Z.ltb_lt.
    + intros (Hin & d & Hd & Hlt).
      apply (Permutation_in _ (Permutation_sym Hperm)), filter_In.
      split; [exact Hin|]. rewrite Hd. now apply Z.ltb_lt.
  - apply incomingAfter_ascending.
Qed.

(** The method on a profile that holds data: the text is the stored text
    when nothing is appended and otherwise the export of the stored rows
    followed by the appended ones; it is written to the profile, and
    answered once that update has resolved. *)
Lemma saveOrMergeProfileData_merge {platform : ProfileStore.Platform}
  (i incomingCSV nowIso : jsstring) (s : ProfileStore.Store)
  (profile : ProfileStore.Profile) :
  ProfileStore.getProfile s i = Some profile ->
  isEmpty (ProfileStore.csvData profile) = false ->
  let stored := ProfileStore.csvData profile in
  let appended := incomingAfter (transactions (parseBankingData stored))
                    (transactions (parseBankingData incomingCSV)) in
  let text := match appended with
              | [] => stored
              | _ => exportToCSV (mergedTable stored appended)
              end in
  let updates := ProfileStore.dataUpdate
                   (match appended with [] => None | _ => Some text end) nowIso in
  ProfileStore.saveOrMergeProfileData i incomingCSV nowIso s
  = (fst (ProfileStore.updateProfile i updates s),
     match snd (ProfileStore.updateProfile i updates s) with
     | ProfileStore.Resolved _ =>
         ProfileStore.Resolved
           {| csvData := text; mode := merged; addedCount := length appended |}
     | ProfileStore.Rejected e => ProfileStore.Rejected e
     end).
Proof.
  intros Hfound Hne stored appended text updates.
  unfold ProfileStore.saveOrMergeProfileData. rewrite Hfound, Hne.
  fold stored. fold appended. subst text updates.
  destruct appended as [|t appended']; cbn [length Nat.eqb].
  - now destruct (ProfileStore.updateProfile _ _ s).
  - unfold mergedTable.
    now destruct (ProfileStore.updateProfile _ _ s).
Qed.

End WithHost.

(** C3: the method on a profile whose stored row is dated 1 January 1960
    and an upload whose row is dated 1 January 1965.  Both dates parse and
    the uploaded one is later than every stored one, but the latest stored
    date that the loop finds is its start value [new Date(0)]: nothing is
    appended, the stored text is kept and the answer counts 0 rows.  On the
    example of the specification (stored 20:00, upload 19:00 and 21:00 of
    7 August 2025) the same method appends the row of 21:00 alone. *)
Theorem saveOrMergeProfileData_before_1970 :
  let existing := transactions (parseBankingData (host := utcHost) storedText1960) in
  let incoming := transactions (parseBankingData (host := utcHost) uploadText1965) in
  let created := js "2025-08-01T09:00:00.000Z" in
  let nowIso := js "2025-08-09T12:00:00.000Z" in
  let save := ProfileStore.saveOrMergeProfileData
                (platform := ProfileStore.reliable) (host := utcHost) (js "p1") in
  (map (parsedDate (host := utcHost)) existing = [Some (-315619200000)]
   /\ map (parsedDate (host := utcHost)) incoming = [Some (-157766400000)]
   /\ latestExistingDate (host := utcHost) existing = 0
   /\ incomingAfter (host := utcHost) existing incoming = []
   /\ save uploadText1965 nowIso (ProfileStore.storeOf storedText1960 created)
      = (ProfileStore.storeOf storedText1960 nowIso,
         ProfileStore.Resolved
           {| csvData := storedText1960; mode := merged; addedCount := 0 |}))
  /\ (let mergedText :=
        csvText
          [ ["TransactionID"; "From"; "Routing"; "Reason"; "Amount"; "Balance"; "Date"];
            ["11"; "LS Bets"; "900"; "Payout"; "+$500"; "$1,500"; "07/Aug/2025 20:00"];
            ["12"; "Depot"; "902"; "Delivery (Trucking)"; "+$250"; "$1,750"; "07/Aug/2025 21:00"] ]%string in
      save uploadText nowIso (ProfileStore.storeOf storedText created)
      = (ProfileStore.storeOf mergedText nowIso,
         ProfileStore.Resolved
           {| csvData := mergedText; mode := merged; addedCount := 1 |})).
Proof. vm_compute. repeat split. Qed.

End MergeFacts.
(* ===================================================================== *)
(** ** Properties of the date parser and of what consumes dates *)
(* ===================================================================== *)

Module DateFacts.
Import CSVParser BankingCSVParser.

Ltac euclid := Z.div_mod_to_equations; lia.

Lemma DayFromYear_step y : 365 <= DayFromYear (y + 1) - DayFromYear y <= 366.
Proof. unfold DayFromYear. euclid. Qed.

Lemma DayFromYear_mono y y' : y <= y' -> DayFromYear y <= DayFromYear y'.
Proof. unfold DayFromYear. intros H. euclid. Qed.

Lemma DayFromYear_bounds y :
  (1970 <= y -> 365 * (y - 1970) <= DayFromYear y <= 366 * (y - 1970))
  /\ (y <= 1970 -> 366 * (y - 1970) <= DayFromYear y <= 365 * (y - 1970)).
Proof. unfold DayFromYear. split; intros H; euclid. Qed.

Lemma yearDown_spec fuel start d y :
  DayFromYear y <= d < DayFromYear (y + 1) ->
  y <= start -> start - y < Z.of_nat fuel ->
  yearDown fuel start d = y.
Proof.
  intros Hd. revert start. induction fuel as [|fuel IH]; intros start Hle Hfuel;
    [lia|].
  cbn [yearDown]. destruct (DayFromYear start <=? d) eqn:E.
  - apply Z.leb_le in E.
    destruct (Z_le_gt_dec (y + 1) start) as [Hge|Hlt]; [|lia].
    pose proof (DayFromYear_mono (y + 1) start Hge). lia.
  - apply Z.leb_gt in E.
    assert (start <> y) by (intros ->; lia).
    apply IH; lia.
Qed.

(** [YearFromDay] finds the year whose days include [d]. *)
Lemma YearFromDay_spec d y :
  DayFromYear y <= d < DayFromYear (y + 1) -> YearFromDay d = y.
Proof.
  intros Hd. unfold YearFromDay.
  pose proof (DayFromYear_bounds y) as [Hup Hdown].
  pose proof (DayFromYear_bounds (y + 1)) as [Hup' Hdown'].
  apply yearDown_spec; [exact Hd| |].
  - destruct (0 <=? d) eqn:E; [apply Z.leb_le in E|apply Z.leb_gt in E]; euclid.
  - rewrite Z2Nat.id by euclid.
    destruct (0 <=? d) eqn:E; [apply Z.leb_le in E|apply Z.leb_gt in E]; euclid.
Qed.

Lemma MakeDay_January year day : MakeDay year 0 day = DayFromYear year + day - 1.
Proof.
  unfold MakeDay. cbv zeta. change (0 / 12) with 0. change (0 mod 12) with 0.
  replace (year + 0) with year by lia.
  change (daysBeforeMonth (InLeapYear year) 0) with 0. lia.
Qed.

Lemma Day_MakeDate day time :
  0 <= time < msPerDay -> Day (MakeDate day time) = day.
Proof. unfold Day, MakeDate, msPerDay. intros H. euclid. Qed.

(** A day of January, at a time of that day, is in month 0 of its year. *)
Lemma January year day hour minute :
  1 <= day <= 31 -> 0 <= hour <= 23 -> 0 <= minute <= 59 ->
  let t := MakeDate (MakeDay year 0 day) (MakeTime hour minute 0 0) in
  YearFromTime t = year /\ MonthFromTime t = 0.
Proof.
  intros Hday Hhour Hminute t.
  assert (Hd : Day t = DayFromYear year + day - 1).
  { subst t. rewrite Day_MakeDate; [apply MakeDay_January|].
    unfold MakeTime, msPerHour, msPerMinute, msPerDay. lia. }
  assert (Hy : YearFromTime t = year).
  { unfold YearFromTime. rewrite Hd. apply YearFromDay_spec.
    pose proof (DayFromYear_step year). lia. }
  split; [exact Hy|].
  unfold MonthFromTime. rewrite Hy, Hd.
  replace (DayFromYear year + day - 1 - DayFromYear year) with (day - 1) by lia.
  assert (E : (day - 1 <? daysBeforeMonth (InLeapYear year) 1) = true).
  { apply Z.ltb_lt. change (daysBeforeMonth (InLeapYear year) 1) with 31. lia. }
  now rewrite E.
Qed.

Lemma digitsVal2 a b :
  isDigit a = true -> isDigit b = true -> 0 <= digitsVal [a; b] <= 99.
Proof.
  unfold isDigit, digitsVal, digitVal. cbn [fold_left].
  rewrite !andb_true_iff, !N.leb_le. lia.
Qed.

Lemma digitsVal4 a b c d :
  isDigit a = true -> isDigit b = true -> isDigit c = true -> isDigit d = true ->
  0 <= digitsVal [a; b; c; d] <= 9999.
Proof.
  unfold isDigit, digitsVal, digitVal. cbn [fold_left].
  rewrite !andb_true_iff, !N.leb_le. lia.
Qed.

Lemma matchDateAt_range s m : matchDateAt s = Some m -> inDigitRange m.
Proof.
  unfold matchDateAt. intros H.
  repeat match type of H with
         | context [match ?l with [] => _ | _ :: _ => _ end] =>
             is_var l; destruct l; try discriminate
         end.
  match type of H with
  | (if ?c then _ else _) = _ => destruct c eqn:E; [|discriminate]
  end.
  destruct (trimStart s) as [|? [|? [|? [|? [|? ?]]]]]; try discriminate.
  match type of H with
  | (if ?c then _ else _) = _ => destruct c eqn:E'; [|discriminate]
  end.
  injection H as <-. cbn [m_day m_year m_hour m_minute].
  do 11 (apply andb_true_iff in E as [E ?]).
  do 4 (apply andb_true_iff in E' as [E' ?]).
  repeat split; first [apply digitsVal2|apply digitsVal4]; assumption.
Qed.

Lemma matchDate_range s m : matchDate s = Some m -> inDigitRange m.
Proof.
  induction s as [|c s IH]; cbn [matchDate].
  - destruct (matchDateAt []) eqn:E; [|discriminate].
    intros [= <-]. now apply matchDateAt_range in E.
  - destruct (matchDateAt (c :: s)) eqn:E; [|exact IH].
    intros [= <-]. now apply matchDateAt_range in E.
Qed.

Lemma getMonthIndex_unknown month :
  month ∉ monthNames -> getMonthIndex month = 0.
Proof.
  intros H. unfold getMonthIndex, months.
  rewrite (not_elem_of_list_to_map_1 _ month); [reflexivity|exact H].
Qed.

Section WithHost.
Context {host : Host}.

Lemma newDate_valid year day hour minute :
  0 <= year <= 9999 -> 0 <= day <= 99 -> 0 <= hour <= 99 -> 0 <= minute <= 99 ->
  exists t, newDate year 0 day hour minute = DateAt t.
Proof.
  intros Hy Hd Hh Hm. unfold newDate, TimeClip.
  set (yr := if (0 <=? year) && (year <=? 99) then 1900 + year else year).
  assert (Hyr : 0 <= yr <= 9999) by (subst yr; destruct (_ && _) eqn:E; lia).
  pose proof LocalTZA_range as Htz.
  match goal with |- context [Z.abs ?t <=? _] => set (tv := t) end.
  assert (Hb : Z.abs tv <= 8640000000000000).
  { subst tv. rewrite MakeDay_January.
    unfold UTC, MakeDate, MakeTime, msPerDay, msPerHour, msPerMinute.
    pose proof (DayFromYear_mono 0 yr ltac:(lia)) as H0.
    pose proof (DayFromYear_mono yr 9999 ltac:(lia)) as H1.
    change (DayFromYear 0) with (-719528) in H0.
    change (DayFromYear 9999) with 2932532 in H1. lia. }
  apply Z.leb_le in Hb. rewrite Hb. eauto.
Qed.

Lemma LocalTime_UTC t : LocalTime (UTC t) = t.
Proof. unfold LocalTime, UTC. lia. Qed.

Lemma newDate_January year day hour minute :
  100 <= year <= 9999 -> 1 <= day <= 31 -> 0 <= hour <= 23 -> 0 <= minute <= 59 ->
  getMonth (newDate year 0 day hour minute) = Some 0
  /\ getFullYear (newDate year 0 day hour minute) = Some year.
Proof.
  intros Hy Hd Hh Hm.
  destruct (newDate_valid year day hour minute) as [t Ht]; try lia.
  rewrite Ht. unfold newDate in Ht.
  assert (E : (0 <=? year) && (year <=? 99) = false).
  { apply andb_false_iff. right. apply Z.leb_gt. lia. }
  rewrite E in Ht. unfold TimeClip in Ht.
  destruct (Z.abs _ <=? _); [|discriminate]. injection Ht as <-.
  cbn [getMonth getFullYear]. rewrite LocalTime_UTC.
  destruct (January year day hour minute Hd Hh Hm) as [-> ->]. now split.
Qed.

End WithHost.

(** C8 (as stated): the month "Foo" is no month and the date is built with
    month index 0, but day 32 rolls over: the date is in February. *)
Lemma day_32_rolls_into_February :
  matchDate outOfRangeDay
    = Some {| m_day := js "32"; m_month := js "Foo"; m_year := js "2025";
              m_hour := js "10"; m_minute := js "00" |}
  /\ bool_decide (js "Foo" ∈ monthNames) = false
  /\ parseDate (host := utcHost) outOfRangeDay
     = newDate (host := utcHost) 2025 0 32 10 0
  /\ getMonth (host := utcHost) (parseDate (host := utcHost) outOfRangeDay) = Some 1
  /\ getFullYear (host := utcHost) (parseDate (host := utcHost) outOfRangeDay)
     = Some 2025.
Proof. vm_compute. repeat split. Qed.

(** C8 (amended): when the pattern matches and the month token is none of
    Jan to Dec, [parseDate] takes month index 0 and returns the valid date
    [new Date(YYYY, 0, DD, HH, MM)], which is in January of year YYYY when
    YYYY is at least 100, DD is from 1 to 31, HH at most 23 and MM at most
    59; when the pattern matches nowhere in the string, [parseDate] is
    [new Date] of the raw string. *)
Theorem parseDate_unknown_month :
  (forall (host : Host) (dateStr : jsstring) (m : DateMatch),
     matchDate dateStr = Some m ->
     m_month m ∉ monthNames ->
     let year := digitsVal (m_year m) in
     let day := digitsVal (m_day m) in
     let hour := digitsVal (m_hour m) in
     let minute := digitsVal (m_minute m) in
     getMonthIndex (m_month m) = 0
     /\ parseDate dateStr = newDate year 0 day hour minute
     /\ isValid (parseDate dateStr) = true
     /\ (100 <= year -> 1 <= day <= 31 -> hour <= 23 -> minute <= 59 ->
         getMonth (parseDate dateStr) = Some 0
         /\ getFullYear (parseDate dateStr) = Some year))
  /\ (forall (host : Host) (dateStr : jsstring),
        matchDate dateStr = None ->
        parseDate dateStr = newDateOfString dateStr).
Proof.
  split.
  - intros host dateStr m Hm Hmonth year day hour minute.
    pose proof (getMonthIndex_unknown _ Hmonth) as Hidx.
    destruct (matchDate_range _ _ Hm) as (Hd & Hy & Hh & Hmi).
    assert (Hp : parseDate dateStr = newDate year 0 day hour minute).
    { unfold parseDate. now rewrite Hm, Hidx. }
    split; [exact Hidx|]. split; [exact Hp|]. rewrite Hp. split.
    + destruct (newDate_valid year day hour minute) as [t ->]; auto.
    + intros Hy' Hd' Hh' Hmi'. apply newDate_January; subst year day hour minute; lia.
  - intros host dateStr Hm. unfold parseDate. now rewrite Hm.
Qed.

Lemma parseDate_unknown_month_witness :
  let dateStr := js "07/Foo/2025 23:13" in
  parseDate (host := utcHost) dateStr = newDate (host := utcHost) 2025 0 7 23 13
  /\ getMonth (host := utcHost) (parseDate (host := utcHost) dateStr) = Some 0
  /\ getFullYear (host := utcHost) (parseDate (host := utcHost) dateStr) = Some 2025.
Proof.
  intros dateStr.
  assert (Hm : matchDate dateStr
               = Some {| m_day := js "07"; m_month := js "Foo"; m_year := js "2025";
                         m_hour := js "23"; m_minute := js "13" |})
    by (vm_compute; reflexivity).
  assert (Hmonth : js "Foo" ∉ monthNames)
    by (apply (bool_decide_eq_false_1 _); vm_compute; reflexivity).
  destruct (proj1 parseDate_unknown_month utcHost dateStr _ Hm Hmonth)
    as (_ & Hp & _ & Hjan).
  split; [exact Hp|].
  apply Hjan; cbv -[Z.le]; lia.
Defined.

Section Unparseable.
Context {host : Host}.

Lemma parseDate_unparseable dateStr :
  matchDate dateStr = None -> newDateOfString dateStr = InvalidDate ->
  parseDate dateStr = InvalidDate.
Proof. intros Hm Hn. unfold parseDate. now rewrite Hm. Qed.

Lemma monthlyStep_unparseable monthly t :
  parseDate (date t) = InvalidDate ->
  (exists b, monthlyStep monthly t !! js "NaN-NaN" = Some b
             /\ count b = S (count (default emptyBucket (monthly !! js "NaN-NaN"))))
  /\ (forall key, key <> js "NaN-NaN" ->
        monthlyStep monthly t !! key = monthly !! key).
Proof.
  intros Hd. unfold monthlyStep. rewrite Hd.
  change (monthKey InvalidDate) with (js "NaN-NaN"). split.
  - eexists. rewrite lookup_insert_eq. split; reflexivity.
  - intros key Hkey. now rewrite lookup_insert_ne.
Qed.

Lemma getTransactionsByDateRange_unparseable table startDate endDate t :
  parseDate (date t) = InvalidDate ->
  ~ In t (getTransactionsByDateRange table startDate endDate).
Proof.
  intros Hd [_ Hin]%filter_In. cbv zeta in Hin. rewrite Hd in Hin.
  discriminate Hin.
Qed.

Lemma getDateRange_single t :
  isEmpty (date t) = false ->
  getDateRange [t] = {| start := date t; end_ := date t |}.
Proof.
  intros Hne. unfold getDateRange, sortedDates. cbn [map List.filter].
  now rewrite Hne.
Qed.

(** Only the empty date strings are left out of the sorted dates. *)
Lemma sortedDates_keeps ts t :
  In t ts -> isEmpty (date t) = false -> In (date t) (sortedDates ts).
Proof.
  intros Hin Hne. unfold sortedDates.
  apply (Permutation_in _ (Permutation_sym (SortFacts.sort_perm _ _))).
  apply filter_In. split; [now apply in_map|now rewrite Hne].
Qed.

End Unparseable.

(** C5 (as stated): a row dated "garbage" is counted in a monthly bucket of
    its own, gives the table its date range, and is credited an hour of work
    at the epoch. *)
Lemma undated_row_is_not_excluded :
  let table := parseBankingData (host := utcHost) undatedText in
  map date (transactions table) = [js "garbage"]
  /\ matchDate (js "garbage") = None
  /\ newDateOfString (host := utcHost) (js "garbage") = InvalidDate
  /\ option_map count (getMonthlySummary (host := utcHost) table !! js "NaN-NaN")
     = Some 1%nat
  /\ dateRange table = {| start := js "garbage"; end_ := js "garbage" |}
  /\ Dashboard.relevantDates (host := utcHost) (transactions table) [] None None None
     = [DateAt 0]
  /\ Dashboard.computeHoursForReasons (host := utcHost) (Some table) [] None None None
     = ofZ 1.
Proof. vm_compute. repeat split. Qed.

(** C5 (amended): a transaction whose date string matches neither the
    pattern nor the free-form parser has an invalid parsed date; no date
    range filter selects it; the monthly rollup counts it in the bucket
    "NaN-NaN" and leaves every other bucket as it was; and the date range of
    a table only leaves out empty date strings: a non-empty unparseable
    string stays among the sorted dates that start and end are taken from,
    and alone in a table it is both. *)
Theorem unparseable_date_handling (host : Host) (t : BankingTransaction) :
  matchDate (date t) = None ->
  newDateOfString (date t) = InvalidDate ->
  parseDate (date t) = InvalidDate
  /\ (forall table startDate endDate,
        ~ In t (getTransactionsByDateRange table startDate endDate))
  /\ monthKey (parseDate (date t)) = js "NaN-NaN"
  /\ (forall monthly,
        (exists b, monthlyStep monthly t !! js "NaN-NaN" = Some b
                   /\ count b
                      = S (count (default emptyBucket (monthly !! js "NaN-NaN"))))
        /\ (forall key, key <> js "NaN-NaN" ->
              monthlyStep monthly t !! key = monthly !! key))
  /\ (isEmpty (date t) = false ->
      (forall ts, In t ts -> In (date t) (sortedDates ts))
      /\ getDateRange [t] = {| start := date t; end_ := date t |}).
Proof.
  intros Hm Hn. pose proof (parseDate_unparseable _ Hm Hn) as Hd.
  split; [exact Hd|]. split.
  { intros table startDate endDate.
    now apply getTransactionsByDateRange_unparseable. }
  split; [now rewrite Hd|]. split.
  { intros monthly. now apply monthlyStep_unparseable. }
  intros Hne. split; [|now apply getDateRange_single].
  intros ts Hin. now apply sortedDates_keeps.
Qed.

Lemma unparseable_date_handling_witness :
  let t := parseTransaction {[ js "Amount" := js "+$500"; js "Date" := js "garbage" ]} in
  parseDate (host := utcHost) (date t) = InvalidDate
  /\ getDateRange (host := utcHost) [t] = {| start := js "garbage"; end_ := js "garbage" |}.
Proof.
  intros t.
  destruct (unparseable_date_handling utcHost t) as (Hd & _ & _ & _ & Hr);
    [vm_compute; reflexivity|vm_compute; reflexivity|].
  split; [exact Hd|]. apply Hr. vm_compute. reflexivity.
Defined.

End DateFacts.

(* ===================================================================== *)
(** ** The order of numbers, [Math.min] and [Math.max] *)
(* ===================================================================== *)

Module OrderFacts.

Ltac order_cases :=
  repeat match goal with
  | |- context [Z.compare ?a ?b] => destruct (Z.compare_spec a b)
  | H : context [Z.compare ?a ?b] |- _ => destruct (Z.compare_spec a b)
  | |- context [Pos.compare_cont Eq ?a ?b] =>
      change (Pos.compare_cont Eq a b) with (Pos.compare a b);
      destruct (Pos.compare_spec a b)
  | H : context [Pos.compare_cont Eq ?a ?b] |- _ =>
      change (Pos.compare_cont Eq a b) with (Pos.compare a b) in H;
      destruct (Pos.compare_spec a b)
  end.

Lemma leb_trans x y z :
  Math.leb x y = true -> Math.leb y z = true -> Math.leb x z = true.
Proof.
  unfold Math.leb, SFleb.
  destruct x as [[]|[]| |[] mx ex], y as [[]|[]| |[] my ey],
    z as [[]|[]| |[] mz ez]; cbn; try easy;
    order_cases; cbn; try easy; subst; try lia.
Qed.

Lemma leb_total x y :
  isNaN x = false -> isNaN y = false -> Math.leb x y = true \/ ltb y x = true.
Proof.
  unfold Math.leb, ltb, SFleb, SFltb.
  destruct x as [[]|[]| |[] mx ex], y as [[]|[]| |[] my ey]; cbn; try easy; auto;
    order_cases; cbn; auto; subst; try lia.
Qed.

Lemma ltb_leb x y : ltb x y = true -> Math.leb x y = true.
Proof.
  unfold Math.leb, ltb, SFleb, SFltb. now destruct (SFcompare x y) as [[]|].
Qed.

Lemma ltb_not_leb x y : ltb x y = true -> Math.leb y x = false.
Proof.
  unfold Math.leb, ltb, SFleb, SFltb.
  destruct x as [[]|[]| |[] mx ex], y as [[]|[]| |[] my ey]; cbn; try easy;
    order_cases; cbn; try easy; subst; try lia.
Qed.

Lemma leb_refl x : isNaN x = false -> Math.leb x x = true.
Proof.
  unfold Math.leb, SFleb. destruct x as [[]|[]| |[] mx ex]; cbn; try easy;
    order_cases; cbn; try easy; lia.
Qed.

Lemma leb_not_NaN x y : Math.leb x y = true -> isNaN x = false /\ isNaN y = false.
Proof. unfold Math.leb, SFleb. now destruct x as [[]|[]| |[] mx ex], y as [[]|[]| |[] ? ?]. Qed.

Lemma not_below_Infinity x :
  isNaN x = false -> ltb x Infinity = false -> x = Infinity.
Proof. unfold ltb, SFltb. now destruct x as [[]|[]| |[] mx ex]. Qed.

Lemma not_above_minus_Infinity x :
  isNaN x = false -> gtb x (neg Infinity) = false -> x = neg Infinity.
Proof. unfold gtb, SFltb. now destruct x as [[]|[]| |[] mx ex]. Qed.

(** What one round of [Math.min] keeps. *)
Lemma minStep_spec lowest v :
  isNaN lowest = false -> isNaN v = false ->
  let r := Math.minStep lowest v in
  isNaN r = false /\ Math.leb r lowest = true /\ Math.leb r v = true
  /\ (r = lowest \/ r = v).
Proof.
  intros Hl Hv. unfold Math.minStep. rewrite Hl, Hv. cbn [orb].
  destruct (Math.isNegativeZero v && Math.isPositiveZero lowest) eqn:Ez.
  - apply andb_true_iff in Ez as [E1 E2].
    destruct v as [[]| | |]; try discriminate.
    destruct lowest as [[]| | |]; try discriminate. cbn. auto.
  - destruct (ltb v lowest) eqn:E.
    + cbn zeta. repeat split; auto using ltb_leb, leb_refl.
    + cbn zeta. repeat split; auto using leb_refl.
      destruct (leb_total lowest v Hl Hv); [assumption|congruence].
Qed.

Lemma min_fold values : forall lowest,
  isNaN lowest = false -> Forall (fun v => isNaN v = false) values ->
  let r := fold_left Math.minStep values lowest in
  isNaN r = false /\ Math.leb r lowest = true
  /\ Forall (fun v => Math.leb r v = true) values
  /\ (r = lowest \/ In r values).
Proof.
  induction values as [|v values IH]; intros lowest Hl Hvs; cbn [fold_left].
  - cbn zeta. repeat split; auto using leb_refl.
  - apply Forall_cons_1 in Hvs as [Hv Hvs].
    destruct (minStep_spec lowest v Hl Hv) as (Hn & H1 & H2 & H3).
    destruct (IH _ Hn Hvs) as (Hr & G1 & G2 & G3). cbn zeta.
    repeat split; [assumption|eauto using leb_trans| |].
    + constructor; [eauto using leb_trans|assumption].
    + destruct G3 as [->|G3]; [|right; now right].
      destruct H3 as [->| ->]; [now left|right; now left].
Qed.

Lemma maxStep_spec highest v :
  isNaN highest = false -> isNaN v = false ->
  let r := Math.maxStep highest v in
  isNaN r = false /\ Math.leb highest r = true /\ Math.leb v r = true
  /\ (r = highest \/ r = v).
Proof.
  intros Hl Hv. unfold Math.maxStep. rewrite Hl, Hv. cbn [orb].
  destruct (Math.isPositiveZero v && Math.isNegativeZero highest) eqn:Ez.
  - apply andb_true_iff in Ez as [E1 E2].
    destruct v as [[]| | |]; try discriminate.
    destruct highest as [[]| | |]; try discriminate. cbn. auto.
  - destruct (gtb v highest) eqn:E.
    + cbn zeta. repeat split; auto using ltb_leb, leb_refl.
    + cbn zeta. repeat split; auto using leb_refl.
      destruct (leb_total v highest Hv Hl); [assumption|].
      unfold gtb in E. unfold ltb in *. congruence.
Qed.

Lemma max_fold values : forall highest,
  isNaN highest = false -> Forall (fun v => isNaN v = false) values ->
  let r := fold_left Math.maxStep values highest in
  isNaN r = false /\ Math.leb highest r = true
  /\ Forall (fun v => Math.leb v r = true) values
  /\ (r = highest \/ In r values).
Proof.
  induction values as [|v values IH]; intros highest Hl Hvs; cbn [fold_left].
  - cbn zeta. repeat split; auto using leb_refl.
  - apply Forall_cons_1 in Hvs as [Hv Hvs].
    destruct (maxStep_spec highest v Hl Hv) as (Hn & H1 & H2 & H3).
    destruct (IH _ Hn Hvs) as (Hr & G1 & G2 & G3). cbn zeta.
    repeat split; [assumption|eauto using leb_trans| |].
    + constructor; [eauto using leb_trans|assumption].
    + destruct G3 as [->|G3]; [|right; now right].
      destruct H3 as [->| ->]; [now left|right; now left].
Qed.

(** [Math.min] of a non-empty list without NaN is one of its elements, and
    below all of them. *)
Lemma min_spec values :
  values <> [] -> Forall (fun v => isNaN v = false) values ->
  In (Math.min values) values
  /\ Forall (fun v => Math.leb (Math.min values) v = true) values.
Proof.
  intros Hne Hvs. unfold Math.min.
  destruct (min_fold values Infinity eq_refl Hvs) as (Hr & G1 & G2 & G3).
  split; [|exact G2]. destruct G3 as [E|G3]; [|exact G3].
  destruct values as [|v values]; [contradiction|].
  apply Forall_cons_1 in Hvs as [Hv _]. apply Forall_cons_1 in G2 as [G2 _].
  rewrite E in *. left. apply not_below_Infinity; [exact Hv|].
  destruct (ltb v Infinity) eqn:L; [|reflexivity].
  apply ltb_not_leb in L. congruence.
Qed.

Lemma max_spec values :
  values <> [] -> Forall (fun v => isNaN v = false) values ->
  In (Math.max values) values
  /\ Forall (fun v => Math.leb v (Math.max values) = true) values.
Proof.
  intros Hne Hvs. unfold Math.max.
  destruct (max_fold values (neg Infinity) eq_refl Hvs) as (Hr & G1 & G2 & G3).
  split; [|exact G2]. destruct G3 as [E|G3]; [|exact G3].
  destruct values as [|v values]; [contradiction|].
  apply Forall_cons_1 in Hvs as [Hv _]. apply Forall_cons_1 in G2 as [G2 _].
  rewrite E in *. left. apply not_above_minus_Infinity; [exact Hv|].
  destruct (gtb v (neg Infinity)) eqn:L; [|reflexivity].
  unfold gtb in L. apply ltb_not_leb in L. congruence.
Qed.

End OrderFacts.

(* ===================================================================== *)
(** ** The shape of a parsed table *)
(* ===================================================================== *)

Module ParseFacts.
Import CSVParser CSVParserMethods.

Lemma trimStart_blank s : forallb isWhiteSpace s = true -> trimStart s = [].
Proof.
  induction s as [|c s IH]; cbn; [reflexivity|].
  intros [Hc Hs]%andb_true_iff. rewrite Hc. auto.
Qed.

Lemma trim_blank s : forallb isWhiteSpace s = true -> trim s = [].
Proof. intros H. unfold trim. now rewrite (trimStart_blank s H). Qed.

Lemma split_forallb (P : char -> bool) sep s :
  forallb P s = true -> Forall (fun piece => forallb P piece = true) (split sep s).
Proof.
  induction s as [|c s IH]; cbn [split forallb]; [repeat constructor|].
  intros [Hc Hs]%andb_true_iff. specialize (IH Hs).
  destruct (c =? sep)%N; [now constructor|].
  destruct (split sep s) as [|piece pieces]; [repeat constructor; cbn; now rewrite Hc|].
  apply Forall_cons_1 in IH as [Hp Hps]. constructor; [|exact Hps].
  cbn. now rewrite Hc.
Qed.

Lemma nonEmptyLines_blank csvContent :
  forallb isWhiteSpace csvContent = true -> nonEmptyLines csvContent = [].
Proof.
  intros H. unfold nonEmptyLines.
  pose proof (split_forallb isWhiteSpace LF csvContent H) as Hp.
  induction Hp as [|piece pieces Hpiece _ IH]; [reflexivity|].
  cbn [List.filter]. now rewrite (trim_blank piece Hpiece).
Qed.

Lemma parseCSVLine_nonempty line : parseCSVLine line <> [].
Proof. apply CSVParserFacts.parseCSVLine_loop_nonempty. Qed.

Lemma parseRows_length o hs lines :
  Forall (fun line => isEmpty (trim line) = false) lines ->
  length (parseRows o hs lines) = length lines.
Proof.
  induction 1 as [|l lines Hl _ IH]; cbn [parseRows]; [reflexivity|].
  rewrite Hl. cbn [andb].
  pose proof (parseCSVLine_nonempty (trim l)) as Hne.
  destruct (parseCSVLine (trim l)) as [|v vs]; [contradiction|].
  cbn [length Nat.eqb]. now rewrite IH.
Qed.

Lemma fillRow_keys (o : CSVParseOptions) (hs values : list jsstring)
  (row : CSVRow) (k : jsstring) :
  is_Some (fillRow o hs values row !! k)
  <-> (k ∈ hs /\ k <> PROTO) \/ is_Some (row !! k).
Proof.
  revert values row. induction hs as [|h hs IH]; intros values row; cbn [fillRow].
  - rewrite elem_of_nil. tauto.
  - destruct values as [|v values];
      rewrite IH, CSVParserFacts.assign_keys, elem_of_cons; tauto.
Qed.

Lemma parseRows_Forall (o : CSVParseOptions) (hs lines : list jsstring)
  (P : CSVRow -> Prop) :
  (forall values, P (fillRow o hs values (∅ : CSVRow))) ->
  Forall P (parseRows o hs lines).
Proof.
  intros HP. induction lines as [|l lines IH]; cbn [parseRows]; [constructor|].
  destruct (isEmpty (trim l) && skipEmptyRows o); [exact IH|].
  destruct (length (parseCSVLine (trim l)) =? 0)%nat; [exact IH|].
  constructor; [apply HP|exact IH].
Qed.

Lemma processHeader_named o index header :
  handleEmptyHeaders o = true -> processHeader o index header <> [].
Proof.
  intros Ho. unfold processHeader. rewrite Ho, andb_true_r.
  destruct (trim header) eqn:E; cbn [isEmpty]; [|discriminate].
  now destruct index.
Qed.

Lemma split_nonempty sep s : split sep s <> [].
Proof.
  destruct s as [|c s]; cbn [split]; [discriminate|].
  destruct (c =? sep)%N; [discriminate|]. now destruct (split sep s).
Qed.

(** Without double quotes, [parseCSVLine] cuts the line at its commas. *)
Lemma parseCSVLine_loop_unquoted line values current :
  contains DQUOTE line = false ->
  parseCSVLine_loop line values current false
  = values ++ match split COMMA line with
              | piece :: pieces => (current ++ piece) :: pieces
              | [] => [current]
              end.
Proof.
  revert values current.
  induction line as [|c line IH]; intros values current; cbn [contains existsb].
  - intros _. cbn. now rewrite app_nil_r.
  - intros [Hc Hl]%orb_false_iff. rewrite N.eqb_sym in Hc.
    cbn [parseCSVLine_loop split]. rewrite Hc.
    destruct (c =? COMMA)%N eqn:E; cbn [andb negb].
    + rewrite (IH _ _ Hl), <- app_assoc, app_nil_r. cbn [app].
      pose proof (split_nonempty COMMA line).
      now destruct (split COMMA line).
    + rewrite (IH _ _ Hl). destruct (split COMMA line) as [|p ps].
      * reflexivity.
      * now rewrite <- app_assoc.
Qed.

(** Inside quotes, the escaped text of a field is read back as the field. *)
Lemma parseCSVLine_loop_escaped s tail values current :
  tail = [] \/ (exists t, tail = COMMA :: t) ->
  parseCSVLine_loop
    (flat_map (fun c => if (c =? DQUOTE)%N then [DQUOTE; DQUOTE] else [c]) s
     ++ DQUOTE :: tail) values current true
  = parseCSVLine_loop tail values (current ++ s) false.
Proof.
  intros Htail. revert current.
  induction s as [|c s IH]; intros current; cbn [flat_map app].
  - rewrite app_nil_r. cbn [parseCSVLine_loop]. rewrite N.eqb_refl.
    destruct Htail as [->|[t ->]]; reflexivity.
  - destruct (c =? DQUOTE)%N eqn:E.
    + apply N.eqb_eq in E. subst c. cbn [app parseCSVLine_loop].
      rewrite N.eqb_refl. cbn [andb]. rewrite IH. now rewrite <- app_assoc.
    + cbn [app parseCSVLine_loop]. rewrite E. rewrite andb_false_r.
      rewrite IH. now rewrite <- app_assoc.
Qed.

Lemma parseCSVLine_loop_escaped_fields f fs values :
  parseCSVLine_loop (join [COMMA] (map escapeField (f :: fs))) values [] false
  = values ++ f :: fs.
Proof.
  revert f values. induction fs as [|g fs IH]; intros f values.
  - cbn [map join]. unfold escapeField. cbn [app].
    rewrite CSVParserFacts.parseCSVLine_loop_open.
    rewrite parseCSVLine_loop_escaped by now left. reflexivity.
  - change (join [COMMA] (map escapeField (f :: g :: fs)))
      with (escapeField f ++ COMMA :: join [COMMA] (map escapeField (g :: fs))).
    unfold escapeField at 1. cbn [app]. rewrite <- app_assoc. cbn [app].
    rewrite CSVParserFacts.parseCSVLine_loop_open.
    rewrite parseCSVLine_loop_escaped by (right; eauto).
    cbn [app parseCSVLine_loop]. change (COMMA =? DQUOTE)%N with false.
    rewrite N.eqb_refl. cbn [andb negb].
    rewrite IH, <- app_assoc. reflexivity.
Qed.

Lemma parse_rows_Forall (o : CSVParseOptions) (csvContent : jsstring)
  (P : list jsstring -> CSVRow -> Prop) :
  (forall hs values, P hs (fillRow o hs values (∅ : CSVRow))) ->
  Forall (P (headers (parse o csvContent))) (rows (parse o csvContent)).
Proof.
  intros HP. unfold parse. destruct (nonEmptyLines csvContent) as [|line0 lines];
    [constructor|].
  cbn [headers rows]. apply parseRows_Forall. intros values. apply HP.
Qed.

Lemma parse_totalRows (o : CSVParseOptions) (csvContent : jsstring) :
  totalRows (parse o csvContent) = length (rows (parse o csvContent)).
Proof. unfold parse. now destruct (nonEmptyLines csvContent). Qed.

(** X1: content that holds nothing but white space, the empty text
    included, parses to the empty table: no headers, no rows. *)
Theorem parse_blank_content (o : CSVParseOptions) (csvContent : jsstring) :
  forallb isWhiteSpace csvContent = true ->
  parse o csvContent = {| headers := []; rows := []; totalRows := 0 |}.
Proof. intros H. unfold parse. now rewrite (nonEmptyLines_blank csvContent H). Qed.

Lemma parse_blank_content_witness :
  parse defaultOptions [32; 10; 9; 10]%N
  = {| headers := []; rows := []; totalRows := 0 |}.
Proof. apply (parse_blank_content defaultOptions [32; 10; 9; 10]%N). reflexivity. Defined.

(** X2: every line that is not blank, the first one apart, becomes exactly
    one row, whatever it holds, and [totalRows] is the number of rows. *)
Theorem parse_row_count (o : CSVParseOptions) (csvContent : jsstring) :
  length (rows (parse o csvContent)) = Nat.pred (length (nonEmptyLines csvContent))
  /\ totalRows (parse o csvContent) = length (rows (parse o csvContent)).
Proof.
  unfold parse. pose proof (CSVParserFacts.nonEmptyLines_spec csvContent) as H.
  destruct (nonEmptyLines csvContent) as [|line0 lines]; [now split|].
  apply Forall_cons_1 in H as [_ H]. cbn [rows totalRows length Nat.pred].
  split; [now apply parseRows_length|reflexivity].
Qed.

(** X3: the keys of every row of a parsed table are the headers of the
    table, apart from [__proto__], under which the assignment of the parser
    stores nothing: a short line is padded, a long one is cut.  So a row
    reads as a string under every header but [__proto__], where it reads as
    [Object.prototype]. *)
Theorem parse_rows_keyed_by_headers (o : CSVParseOptions) (csvContent : jsstring) :
  Forall (fun row : CSVRow =>
            (forall k, is_Some (row !! k)
                       <-> k ∈ headers (parse o csvContent) /\ k <> PROTO)
            /\ (forall h, h ∈ headers (parse o csvContent) ->
                 read row h = if bool_decide (h = PROTO) then Member PROTO
                              else Text (get row h)))
    (rows (parse o csvContent)).
Proof.
  apply (parse_rows_Forall o csvContent
           (fun hs row =>
              (forall k, is_Some (row !! k) <-> k ∈ hs /\ k <> PROTO)
              /\ (forall h, h ∈ hs ->
                   read row h = if bool_decide (h = PROTO) then Member PROTO
                                else Text (get row h)))).
  intros hs values.
  assert (Hkeys : forall k, is_Some (fillRow o hs values ∅ !! k)
                            <-> k ∈ hs /\ k <> PROTO).
  { intros k. rewrite fillRow_keys, lookup_empty.
    split; [intros [H|[? H]]; [exact H|discriminate]|now left]. }
  split; [exact Hkeys|]. intros h Hh.
  destruct (decide (h = PROTO)) as [->|Hne].
  - rewrite bool_decide_eq_true_2 by reflexivity.
    apply CSVParserFacts.read_inherited; [|reflexivity].
    apply eq_None_not_Some. rewrite Hkeys. now intros [_ ?].
  - rewrite bool_decide_eq_false_2 by assumption.
    apply CSVParserFacts.read_held, Hkeys. now split.
Qed.

Lemma parse_rows_keyed_by_headers_witness :
  headers (parse defaultOptions protoText) = [PROTO; js "b"]
  /\ rows (parse defaultOptions protoText) = [protoRow]
  /\ Forall (fun row : CSVRow =>
               (forall k, is_Some (row !! k)
                          <-> k ∈ headers (parse defaultOptions protoText)
                              /\ k <> PROTO)
               /\ (forall h, h ∈ headers (parse defaultOptions protoText) ->
                    read row h = if bool_decide (h = PROTO) then Member PROTO
                                 else Text (get row h)))
       (rows (parse defaultOptions protoText)).
Proof.
  split; [vm_compute; reflexivity|]. split; [vm_compute; reflexivity|].
  exact (parse_rows_keyed_by_headers defaultOptions protoText).
Defined.



(** X5: on a line without a double quote, [parseCSVLine] returns what
    [line.split(',')] returns. *)
Theorem parseCSVLine_without_quotes (line : jsstring) :
  contains DQUOTE line = false -> parseCSVLine line = split COMMA line.
Proof.
  intros H. unfold parseCSVLine. rewrite parseCSVLine_loop_unquoted by exact H.
  pose proof (split_nonempty COMMA line). now destruct (split COMMA line).
Qed.

Lemma parseCSVLine_without_quotes_witness :
  parseCSVLine (js "a, b,,c") = split COMMA (js "a, b,,c").
Proof. apply (parseCSVLine_without_quotes (js "a, b,,c")). reflexivity. Defined.

(** X6: [parseCSVLine] undoes the usual escaping: fields written in double
    quotes, with every double quote inside them doubled, and joined by
    commas are read back as they were, whatever characters they hold. *)
Theorem parseCSVLine_escaped_fields (f : jsstring) (fs : list jsstring) :
  parseCSVLine (join [COMMA] (map escapeField (f :: fs))) = f :: fs.
Proof. unfold parseCSVLine. now rewrite parseCSVLine_loop_escaped_fields. Qed.

End ParseFacts.

(* ===================================================================== *)
(** ** Columns of a table *)
(* ===================================================================== *)

Module QueryFacts.
Import CSVParser CSVParserMethods.

(** What a row of a parsed table reads under a name. *)
Lemma read_filled (o : CSVParseOptions) (hs values : list jsstring)
  (headerName : jsstring) :
  let row := fillRow o hs values (∅ : CSVRow) in
  (headerName ∈ hs -> headerName <> PROTO ->
   read row headerName = Text (get row headerName))
  /\ (headerName ∉ hs \/ headerName = PROTO ->
      read row headerName
      = if inherited headerName then Member headerName else Text []).
Proof.
  intros row.
  assert (Hkeys : is_Some (row !! headerName) <-> headerName ∈ hs /\ headerName <> PROTO).
  { subst row. rewrite ParseFacts.fillRow_keys, lookup_empty.
    split; [intros [H|[? H]]; [exact H|discriminate]|now left]. }
  split.
  - intros Hin Hne. apply CSVParserFacts.read_held, Hkeys. now split.
  - intros Hout. unfold read.
    destruct (row !! headerName) as [v|] eqn:E; [|reflexivity].
    assert (H : is_Some (Some v)) by eauto.
    apply Hkeys in H as [Hin Hne]. destruct Hout; contradiction.
Qed.

(** X7: a column of a parsed table has one cell per row.  Under a header of
    the table other than [__proto__] every cell is the string that its row
    holds; under a name that is no header of the table, and under
    [__proto__], every cell is the same: the empty string, or the member of
    [Object.prototype] when the name is one of its names. *)
Theorem getColumn_of_parsed (o : CSVParseOptions) (csvContent headerName : jsstring) :
  let table := parse o csvContent in
  length (getColumn table headerName) = totalRows table
  /\ (headerName ∈ headers table -> headerName <> PROTO ->
      getColumn table headerName
      = map (fun row => Text (get row headerName)) (rows table))
  /\ (headerName ∉ headers table \/ headerName = PROTO ->
      getColumn table headerName
      = replicate (totalRows table)
          (if inherited headerName then Member headerName else Text [])).
Proof.
  cbn zeta. rewrite ParseFacts.parse_totalRows.
  unfold getColumn. split; [apply length_map|].
  pose proof (ParseFacts.parse_rows_Forall o csvContent
                (fun hs row =>
                   (headerName ∈ hs -> headerName <> PROTO ->
                    read row headerName = Text (get row headerName))
                   /\ (headerName ∉ hs \/ headerName = PROTO ->
                       read row headerName
                       = if inherited headerName then Member headerName else Text []))
                (fun hs values => read_filled o hs values headerName)) as H.
  cbn beta in H. split.
  - intros Hin Hne. apply map_ext_in. intros row Hrow.
    rewrite List.Forall_forall in H. now apply (H row Hrow).
  - intros Hout.
    induction H as [|row rows Hrow _ IH]; [reflexivity|].
    cbn [map length replicate]. rewrite IH. f_equal. now apply Hrow.
Qed.

Lemma getColumn_of_parsed_witness :
  let table := parse defaultOptions protoText in
  getColumn table (js "toString") = [Member (js "toString")]
  /\ getColumn table PROTO = [Member PROTO]
  /\ getColumn table (js "c") = [Text []]
  /\ getColumn table (js "b") = [Text (js "y")].
Proof.
  intros table.
  pose proof (getColumn_of_parsed defaultOptions protoText) as H. cbv zeta in H.
  fold table in H. split; [|split; [|split]].
  - etransitivity; [apply (proj2 (proj2 (H (js "toString"))))|reflexivity].
    left. apply (bool_decide_unpack _). vm_compute. exact I.
  - etransitivity; [apply (proj2 (proj2 (H PROTO)))|reflexivity].
    now right.
  - etransitivity; [apply (proj2 (proj2 (H (js "c"))))|reflexivity].
    left. apply (bool_decide_unpack _). vm_compute. exact I.
  - etransitivity; [apply (proj1 (proj2 (H (js "b"))))|reflexivity].
    + apply (bool_decide_unpack _). vm_compute. exact I.
    + discriminate.
Defined.

Lemma newSet_fold (values : list Value) : forall set : list Value,
  NoDup set ->
  let result :=
    fold_left (fun set val => if bool_decide (val ∈ set) then set else set ++ [val])
      values set in
  NoDup result
  /\ (forall v, v ∈ result <-> v ∈ set \/ v ∈ values)
  /\ exists added, result = set ++ added /\ added `sublist_of` values.
Proof.
  induction values as [|val values IH]; intros set Hset; cbn [fold_left].
  - cbn zeta. split; [exact Hset|]. split.
    + intros v. rewrite elem_of_nil. tauto.
    + exists []. now rewrite app_nil_r.
  - destruct (bool_decide (val ∈ set)) eqn:E.
    + apply bool_decide_eq_true in E.
      destruct (IH set Hset) as (H1 & H2 & added & H3 & H4). cbn zeta.
      split; [exact H1|]. split.
      * intros v. rewrite H2, elem_of_cons.
        split; [tauto|intros [?|[->|?]]; tauto].
      * exists added. split; [exact H3|now apply sublist_cons].
    + apply bool_decide_eq_false in E.
      assert (Hset' : NoDup (set ++ [val])).
      { apply NoDup_app. split; [exact Hset|]. split; [|apply NoDup_singleton].
        intros x Hx ->%list_elem_of_singleton. contradiction. }
      destruct (IH _ Hset') as (H1 & H2 & added & H3 & H4). cbn zeta.
      split; [exact H1|]. split.
      * intros v. rewrite H2, elem_of_app, list_elem_of_singleton, elem_of_cons. tauto.
      * exists (val :: added). split; [now rewrite H3, <- app_assoc|].
        now apply sublist_skip.
Qed.

(** X8: the unique values of a column are the values that the rows read
    under the name, apart from the empty string, each of them once, in an
    order in which the column holds them.  When the name is none of
    [Object.prototype] they are the non-empty strings that the rows hold
    under it: a missing cell never shows. *)
Theorem getUniqueValues_spec (table : CSVTable) (headerName : jsstring) :
  NoDup (getUniqueValues table headerName)
  /\ (forall v, v ∈ getUniqueValues table headerName
                <-> v <> Text [] /\ exists row, row ∈ rows table /\ read row headerName = v)
  /\ getUniqueValues table headerName `sublist_of` getColumn table headerName
  /\ (inherited headerName = false ->
      forall v, v ∈ getUniqueValues table headerName
                <-> exists s, v = Text s /\ s <> []
                              /\ exists row, row ∈ rows table
                                             /\ row !! headerName = Some s).
Proof.
  unfold getUniqueValues, newSet.
  destruct (newSet_fold
              (List.filter (fun val => negb (isEmptyText val)) (getColumn table headerName))
              [] (NoDup_nil_2)) as (H1 & H2 & added & H3 & H4).
  cbn zeta in *.
  assert (Hmem : forall v,
            v ∈ fold_left (fun set val => if bool_decide (val ∈ set) then set
                                          else set ++ [val])
                  (List.filter (fun val => negb (isEmptyText val))
                     (getColumn table headerName)) []
            <-> v <> Text [] /\ exists row, row ∈ rows table /\ read row headerName = v).
  { intros v. rewrite H2, elem_of_nil, list_elem_of_In, List.filter_In.
    unfold getColumn, isEmptyText. rewrite List.in_map_iff, negb_true_iff. split.
    - intros [[]|[(row & E & Hin) Hv]].
      split; [now apply bool_decide_eq_false_1 in Hv|].
      exists row. split; [now apply list_elem_of_In|exact E].
    - intros [Hv (row & Hin & E)]. right.
      split; [|now apply bool_decide_eq_false_2].
      exists row. split; [exact E|now apply list_elem_of_In]. }
  split; [exact H1|]. split; [exact Hmem|]. split.
  - rewrite H3. cbn [app]. etransitivity; [exact H4|].
    clear. induction (getColumn table headerName) as [|v vs IH]; [constructor|].
    cbn [List.filter]. destruct (negb (isEmptyText v));
      [now apply sublist_skip|now apply sublist_cons].
  - intros Hinh v. rewrite Hmem. split.
    + intros [Hv (row & Hin & E)].
      rewrite CSVParserFacts.read_not_inherited in E by assumption.
      exists (get row headerName). split; [now symmetry|].
      assert (Hs : get row headerName <> []) by (intros Hs; rewrite Hs in E; congruence).
      split; [exact Hs|]. exists row. split; [exact Hin|].
      unfold get in *. destruct (row !! headerName); [reflexivity|contradiction].
    + intros (s & -> & Hs & row & Hin & E). split; [congruence|].
      exists row. split; [exact Hin|]. unfold read. now rewrite E.
Qed.

Lemma getUniqueValues_spec_witness :
  let table := parse defaultOptions protoText in
  Member (js "toString") ∈ getUniqueValues table (js "toString")
  /\ getUniqueValues table (js "c") = []
  /\ Text (js "y") ∈ getUniqueValues table (js "b").
Proof.
  intros table.
  assert (Hrow : protoRow ∈ rows table) by (apply list_elem_of_here).
  split; [|split; [reflexivity|]].
  - apply (proj1 (proj2 (getUniqueValues_spec table (js "toString")))).
    split; [discriminate|]. exists protoRow. split; [exact Hrow|reflexivity].
  - apply (proj1 (proj2 (getUniqueValues_spec table (js "b")))).
    split; [discriminate|]. exists protoRow. split; [exact Hrow|reflexivity].
Defined.

End QueryFacts.

(* ===================================================================== *)
(** ** Statistics of a column *)
(* ===================================================================== *)

Module StatsFacts.
Import CSVParser CSVParserMethods.

(** [parseAmounts] throws exactly when one of the values is no string. *)
Lemma parseAmounts_texts (strs : list jsstring) :
  parseAmounts (map Text strs) = Normal (map parseAmount strs).
Proof.
  induction strs as [|s strs IH]; [reflexivity|].
  cbn [map parseAmounts]. now rewrite IH.
Qed.

Lemma parseAmounts_TypeError (values : list Value) :
  parseAmounts values = TypeError <-> exists name, In (Member name) values.
Proof.
  induction values as [|[s|name] values IH]; cbn [parseAmounts].
  - split; [discriminate|intros [? []]].
  - destruct (parseAmounts values) as [nums|].
    + split; [discriminate|]. intros [name [H|H]]; [discriminate|].
      apply proj2 in IH. specialize (IH (ex_intro _ name H)). discriminate.
    + split; [|reflexivity]. intros _.
      destruct (proj1 IH eq_refl) as [name H]. exists name. now right.
  - split; [|reflexivity]. intros _. exists name. now left.
Qed.

Lemma statsOf_spec (nums : list number) :
  let stats := statsOf nums in
  let parsed := List.filter (fun num => negb (isNaN num)) nums in
  count stats = length parsed
  /\ match parsed with
     | [] => stats = {| count := 0; sum := zero; average := zero;
                        min := zero; max := zero |}
     | _ => In (min stats) parsed /\ In (max stats) parsed
            /\ Forall (fun v => Math.leb (min stats) v = true
                                /\ Math.leb v (max stats) = true) parsed
     end.
Proof.
  cbn zeta.
  assert (Hnum : Forall (fun v => isNaN v = false)
                   (List.filter (fun num => negb (isNaN num)) nums)).
  { apply List.Forall_forall. intros v [_ Hv]%List.filter_In.
    now apply negb_true_iff in Hv. }
  unfold statsOf.
  destruct (List.filter (fun num => negb (isNaN num)) nums) as [|v vs] eqn:E;
    [now split|].
  cbn [length Nat.eqb count min max]. split; [reflexivity|].
  destruct (OrderFacts.min_spec (v :: vs) ltac:(discriminate) Hnum) as [M1 M2].
  destruct (OrderFacts.max_spec (v :: vs) ltac:(discriminate) Hnum) as [N1 N2].
  repeat split; try assumption.
  rewrite List.Forall_forall in *. intros x Hx. split; auto.
Qed.

(** X9: [getColumnStats] throws a [TypeError] exactly when the name is one
    of [Object.prototype] and some row does not hold it: [parseAmount] is
    then handed the inherited member.  Otherwise it returns, and counts the
    cells of the column that parse; when none does (no rows, an unknown
    header, cells of text) the statistics are 0, 0, 0, 0, 0, neither NaN
    nor infinite; otherwise [min] and [max] are two of the parsed amounts
    and every parsed amount lies between them. *)
Theorem getColumnStats_spec (table : CSVTable) (headerName : jsstring) :
  (getColumnStats table headerName = TypeError
   <-> inherited headerName = true
       /\ exists row, row ∈ rows table /\ row !! headerName = None)
  /\ (Forall (fun row => holdsText headerName row = true) (rows table) ->
      let parsed := List.filter (fun num => negb (isNaN num))
                      (map (fun row => parseAmount (get row headerName))
                         (rows table)) in
      exists stats,
        getColumnStats table headerName = Normal stats
        /\ count stats = length parsed
        /\ match parsed with
           | [] => stats = {| count := 0; sum := zero; average := zero;
                              min := zero; max := zero |}
           | _ => In (min stats) parsed /\ In (max stats) parsed
                  /\ Forall (fun v => Math.leb (min stats) v = true
                                      /\ Math.leb v (max stats) = true) parsed
           end).
Proof.
  split.
  - unfold getColumnStats. cbn zeta.
    assert (E : parseAmounts (getColumn table headerName) = TypeError
                <-> inherited headerName = true
                    /\ exists row, row ∈ rows table /\ row !! headerName = None).
    { rewrite parseAmounts_TypeError. unfold getColumn. split.
      - intros (name & (row & E & Hin)%List.in_map_iff). unfold read in E.
        destruct (row !! headerName) eqn:El; [discriminate|].
        destruct (inherited headerName) eqn:Ei; [|discriminate].
        split; [reflexivity|]. exists row. split; [now apply list_elem_of_In|exact El].
      - intros (Hi & row & Hin & El). exists headerName.
        apply List.in_map_iff. exists row.
        split; [now apply CSVParserFacts.read_inherited|now apply list_elem_of_In]. }
    rewrite <- E. destruct (parseAmounts (getColumn table headerName));
      split; congruence.
  - intros Htext parsed.
    assert (E : getColumn table headerName
                = map Text (map (fun row => get row headerName) (rows table))).
    { unfold getColumn. rewrite map_map. apply map_ext_in. intros row Hrow.
      rewrite List.Forall_forall in Htext.
      specialize (Htext row Hrow). unfold holdsText in Htext.
      now apply bool_decide_eq_true_1 in Htext. }
    exists (statsOf (map (fun row => parseAmount (get row headerName)) (rows table))).
    split.
    + unfold getColumnStats. cbn zeta. rewrite E, parseAmounts_texts.
      now rewrite map_map.
    + apply statsOf_spec.
Qed.

Lemma getColumnStats_spec_witness :
  let table := parse defaultOptions protoText in
  getColumnStats table (js "toString") = TypeError
  /\ getColumnStats table (js "c")
     = Normal {| count := 0; sum := zero; average := zero; min := zero; max := zero |}.
Proof.
  intros table. split; [|reflexivity].
  apply (proj1 (getColumnStats_spec table (js "toString"))).
  split; [reflexivity|]. exists protoRow.
  split; [apply list_elem_of_here|reflexivity].
Defined.

End StatsFacts.

(* ===================================================================== *)
(** ** Sorting the rows of a table *)
(* ===================================================================== *)

Module SortRowsFacts.
Import CSVParser CSVParserMethods.

Section SortBy.
Context {A : Type} (compareFn : A -> A -> option Z).
Hypothesis total : forall a b,
  comesFirst compareFn a b = true \/ comesFirst compareFn b a = true.
Hypothesis trans : forall a b c,
  comesFirst compareFn a b = true -> comesFirst compareFn b c = true ->
  comesFirst compareFn a c = true.

Lemma insertSorted_sorted x l :
  StronglySorted (fun a b => comesFirst compareFn a b = true) l ->
  StronglySorted (fun a b => comesFirst compareFn a b = true)
    (insertSorted compareFn x l).
Proof.
  induction 1 as [|y l Hl IH Hy]; cbn [insertSorted].
  - repeat constructor.
  - destruct (comesFirst compareFn x y) eqn:E.
    + constructor; [now constructor|]. constructor; [exact E|].
      eapply List.Forall_impl; [|exact Hy]. cbn. intros z Hz. eauto.
    + constructor; [exact IH|]. rewrite List.Forall_forall in *. intros z Hz.
      apply (Permutation_in _ (SortFacts.insertSorted_perm compareFn x l)) in Hz
        as [<-|Hz]; [|now apply Hy].
      destruct (total x y) as [H|H]; [congruence|exact H].
Qed.

Lemma sort_sorted l :
  StronglySorted (fun a b => comesFirst compareFn a b = true) (sort compareFn l).
Proof.
  induction l as [|x l IH]; [constructor|].
  unfold sort in *. cbn [foldr]. now apply insertSorted_sorted.
Qed.

End SortBy.

Lemma StronglySorted_weaken {A} (R R' : A -> A -> Prop) l :
  (forall a b, R a b -> R' a b) -> StronglySorted R l -> StronglySorted R' l.
Proof.
  intros HR. induction 1 as [|x l Hl IH Hx]; constructor; [exact IH|].
  eapply List.Forall_impl; [|exact Hx]. apply HR.
Qed.

Lemma compareCodeUnits_total a b :
  compareCodeUnits a b <= 0 \/ compareCodeUnits b a <= 0.
Proof.
  revert b. induction a as [|x a IH]; intros [|y b]; cbn; try lia.
  destruct (N.ltb_spec x y), (N.ltb_spec y x); try lia. apply IH.
Qed.

Lemma compareCodeUnits_trans a b c :
  compareCodeUnits a b <= 0 -> compareCodeUnits b c <= 0 -> compareCodeUnits a c <= 0.
Proof.
  revert b c. induction a as [|x a IH]; intros [|y b] [|z c]; cbn; try lia.
  destruct (N.ltb_spec x y), (N.ltb_spec y x), (N.ltb_spec y z), (N.ltb_spec z y),
    (N.ltb_spec x z), (N.ltb_spec z x); try lia.
  apply IH.
Qed.

(** X10: for a table whose rows all read as strings under the name (a name
    that is none of [Object.prototype], or that every row holds), and a
    collation of the locale that is a total preorder, [sortRows] returns
    the rows of the table, none lost and none repeated, in the order of the
    column: ascending, or descending on request. *)
Theorem sortRows_sorted {locale : Locale} (table : CSVTable) (headerName : jsstring)
  (ascending : bool) :
  Forall (fun row => holdsText headerName row = true) (rows table) ->
  (forall a b, localeCompare a b <= 0 \/ localeCompare b a <= 0) ->
  (forall a b c, localeCompare a b <= 0 -> localeCompare b c <= 0 ->
                 localeCompare a c <= 0) ->
  Permutation (sortRows table headerName ascending) (rows table)
  /\ StronglySorted
       (fun r1 r2 : CSVRow =>
          if ascending
          then localeCompare (get r1 headerName) (get r2 headerName) <= 0
          else localeCompare (get r2 headerName) (get r1 headerName) <= 0)
       (sortRows table headerName ascending).
Proof.
  intros _ Htotal Htrans. unfold sortRows. split; [apply SortFacts.sort_perm|].
  eapply StronglySorted_weaken; [|apply sort_sorted].
  - intros r1 r2. unfold comesFirst, compareRows. intros H%Z.leb_le.
    destruct ascending; exact H.
  - intros a b. unfold comesFirst, compareRows. rewrite !Z.leb_le.
    destruct ascending; apply Htotal.
  - intros a b c. unfold comesFirst, compareRows. rewrite !Z.leb_le.
    destruct ascending; eauto.
Qed.

Lemma sortRows_sorted_witness :
  Forall (fun row => holdsText (js "From") row = true) (rows sampleTable)
  /\ Permutation (sortRows (locale := plainLocale) sampleTable (js "From") false)
       (rows sampleTable)
  /\ StronglySorted
       (fun r1 r2 : CSVRow =>
          compareCodeUnits (get r2 (js "From")) (get r1 (js "From")) <= 0)
       (sortRows (locale := plainLocale) sampleTable (js "From") false).
Proof.
  assert (H : Forall (fun row => holdsText (js "From") row = true) (rows sampleTable))
    by (repeat constructor).
  split; [exact H|].
  apply (sortRows_sorted (locale := plainLocale) sampleTable (js "From") false H).
  - exact compareCodeUnits_total.
  - exact compareCodeUnits_trans.
Defined.

End SortRowsFacts.

(* ===================================================================== *)
(** ** The validity check of csvUtils *)
(* ===================================================================== *)

Module UtilsFacts.
Import CSVParser csvUtils.

Lemma split_app sep s t :
  split sep (s ++ sep :: t) = split sep s ++ split sep t.
Proof.
  induction s as [|c s IH]; cbn [app split].
  - now rewrite N.eqb_refl.
  - rewrite IH. destruct (c =? sep)%N; [reflexivity|].
    pose proof (ParseFacts.split_nonempty sep s).
    now destruct (split sep s).
Qed.

(** X11: [isValidCSV] looks at the first five lines only: whatever follows
    them does not change its answer. *)
Theorem isValidCSV_first_five_lines (content extra : jsstring) :
  (5 <= length (split LF content))%nat ->
  isValidCSV (content ++ LF :: extra) = isValidCSV content.
Proof.
  intros H. unfold isValidCSV. rewrite split_app.
  destruct (split LF content) as [|l0 [|l1 [|l2 [|l3 [|l4 ls]]]]];
    cbn [length] in H; try lia.
  reflexivity.
Qed.

Lemma isValidCSV_first_five_lines_witness :
  isValidCSV (js "a,b" ++ [LF; LF; LF; LF] ++ LF :: js "1,2,3,4,5")
  = isValidCSV (js "a,b" ++ [LF; LF; LF; LF]).
Proof.
  apply (isValidCSV_first_five_lines (js "a,b" ++ [LF; LF; LF; LF]) (js "1,2,3,4,5")).
  vm_compute. lia.
Defined.

End UtilsFacts.

(* ===================================================================== *)
(** ** Queries and export of the banking parser *)
(* ===================================================================== *)

Module BankingQueryFacts.
Import CSVParser BankingCSVParser BankingCSVParserMethods.

Section WithHost.
Context {host : Host}.

(** X12: a file without a data line (blank, or a header line alone) gives
    the table of no transactions: every total is 0, the average is 0 and
    not NaN, and the date range is a pair of empty strings. *)
Theorem parseBankingData_without_rows (csvContent : jsstring) :
  (length (nonEmptyLines csvContent) <= 1)%nat ->
  parseBankingData csvContent
  = {| transactions := []; totalTransactions := 0;
       totalAmount := zero; averageAmount := zero;
       dateRange := {| start := []; end_ := [] |};
       summary := {| deposits := zero; withdrawals := zero; netChange := zero |} |}.
Proof.
  intros H. unfold parseBankingData, parse.
  destruct (nonEmptyLines csvContent) as [|line0 [|line1 lines]];
    [reflexivity|reflexivity|cbn [length] in H; lia].
Qed.

Lemma ascending_last {A} (key : A -> Z) x l :
  ascending key (x :: l) -> key x <= key (List.last l x)
  /\ Forall (fun y => key y <= key (List.last l x)) l.
Proof.
  unfold ascending. revert x. induction l as [|y l IH]; intros x H.
  - cbn. split; [lia|constructor].
  - apply StronglySorted_inv in H as [Hl Hx].
    apply Forall_cons_1 in Hx as [Hxy Hx].
    destruct (IH y Hl) as [H1 H2].
    assert (E : List.last (y :: l) x = List.last l y).
    { clear. revert x y. induction l as [|z l IH]; intros x y; [reflexivity|].
      change (List.last (y :: z :: l) x) with (List.last (z :: l) x).
      rewrite IH. symmetry. apply (IH y z). }
    rewrite E. split; [lia|]. constructor; [exact H1|exact H2].
Qed.

(** The time value of a date string, 0 when it is no date. *)
Lemma compareDateStrings_valid a b :
  isValid (parseDate a) = true -> isValid (parseDate b) = true ->
  compareDateStrings a b
  = Some (default 0 (getTime (parseDate a)) - default 0 (getTime (parseDate b))).
Proof.
  unfold compareDateStrings. now destruct (parseDate a), (parseDate b).
Qed.

(** X13: when every date that is not empty parses, [dateRange.start] is a
    date of the table that no other date precedes, and [dateRange.end] one
    that no other date follows. *)
Theorem getDateRange_extremes (ts : list BankingTransaction) (t : BankingTransaction) :
  forallb (fun t => isEmpty (date t) || isValid (parseDate (date t))) ts = true ->
  In t ts -> isEmpty (date t) = false ->
  let range := getDateRange ts in
  In (start range) (map date ts) /\ In (end_ range) (map date ts)
  /\ dateLeb (parseDate (start range)) (parseDate (date t)) = true
  /\ dateLeb (parseDate (date t)) (parseDate (end_ range)) = true.
Proof.
  intros Hall Hin Hne. cbn zeta.
  pose proof (DateFacts.sortedDates_keeps ts t Hin Hne) as Hkept.
  assert (Hvalid : forall d, In d (sortedDates ts) -> isValid (parseDate d) = true).
  { intros d Hd. unfold sortedDates in Hd.
    apply (Permutation_in _ (SortFacts.sort_perm _ _)) in Hd.
    apply filter_In in Hd as [Hd Hd'].
    apply in_map_iff in Hd as (t' & <- & Ht').
    rewrite forallb_forall in Hall. specialize (Hall t' Ht').
    apply negb_true_iff in Hd'. now rewrite Hd' in Hall. }
  assert (Hfrom : forall d, In d (sortedDates ts) -> In d (map date ts)).
  { intros d Hd. unfold sortedDates in Hd.
    apply (Permutation_in _ (SortFacts.sort_perm _ _)) in Hd.
    now apply filter_In in Hd as [Hd _]. }
  assert (Hsorted : ascending (fun d => default 0 (getTime (parseDate d)))
                      (sortedDates ts)).
  { unfold sortedDates. apply SortFacts.sort_ascending. intros a b Ha Hb.
    apply compareDateStrings_valid.
    - apply Hvalid. unfold sortedDates.
      exact (Permutation_in _ (Permutation_sym (SortFacts.sort_perm _ _)) Ha).
    - apply Hvalid. unfold sortedDates.
      exact (Permutation_in _ (Permutation_sym (SortFacts.sort_perm _ _)) Hb). }
  unfold getDateRange.
  destruct (sortedDates ts) as [|first rest] eqn:E; [destruct Hkept|].
  cbn [start end_].
  assert (Hlast : In (List.last rest first) (first :: rest)).
  { clear. revert first. induction rest as [|y rest IH]; intros first; [now left|].
    right. change (List.last (y :: rest) first) with
      (match rest with [] => y | _ => List.last rest first end).
    destruct rest as [|z rest]; [now left|].
    specialize (IH y). rewrite (DashboardFacts.last_cons z y rest) in IH.
    rewrite (DashboardFacts.last_cons z first rest). exact IH. }
  destruct (ascending_last _ first rest Hsorted) as [H1 H2].
  pose proof Hsorted as Hs. unfold ascending in Hs.
  apply StronglySorted_inv in Hs as [_ Hfirst].
  pose proof (Hvalid first (or_introl eq_refl)) as Vf.
  pose proof (Hvalid _ Hlast) as Vl.
  pose proof (Hvalid _ Hkept) as Vt.
  repeat split.
  - apply Hfrom. now left.
  - now apply Hfrom.
  - unfold dateLeb. destruct (parseDate first) as [|a] eqn:Ea; [discriminate|].
    destruct (parseDate (date t)) as [|b] eqn:Eb; [discriminate|].
    cbn [getTime]. apply Z.leb_le. destruct Hkept as [Hk|Hk].
    + rewrite Hk, Eb in Ea. injection Ea as ->. lia.
    + rewrite List.Forall_forall in Hfirst. specialize (Hfirst _ Hk).
      cbn in Hfirst. rewrite Eb in Hfirst. exact Hfirst.
  - unfold dateLeb.
    destruct (parseDate (List.last rest first)) as [|a] eqn:Ea; [discriminate|].
    destruct (parseDate (date t)) as [|b] eqn:Eb; [discriminate|].
    cbn [getTime]. apply Z.leb_le. destruct Hkept as [Hk|Hk].
    + rewrite Hk, Eb in H1. exact H1.
    + rewrite List.Forall_forall in H2. specialize (H2 _ Hk).
      cbn in H2. rewrite Eb in H2. exact H2.
Qed.

Lemma monthBucketOf_snoc ts t :
  monthBucketOf (ts ++ [t])
  = let b := monthBucketOf ts in
    let a := amount t in
    {| count := S (count b);
       total := add (total b) a;
       bucketDeposits :=
         if gtb a zero then add (bucketDeposits b) a else bucketDeposits b;
       bucketWithdrawals :=
         if gtb a zero then bucketWithdrawals b
         else add (bucketWithdrawals b) (abs a) |}.
Proof.
  cbv zeta. unfold monthBucketOf. cbn [count total bucketDeposits bucketWithdrawals].
  pose proof (BankingFacts.calculateSummary_snoc ts t) as H. cbv zeta in H.
  rewrite length_app. cbn [length]. rewrite Nat.add_1_r.
  unfold calculateTotalAmount at 1. rewrite fold_left_app. cbn [fold_left].
  fold (calculateTotalAmount ts).
  destruct (gtb (amount t) zero); destruct H as [-> ->]; reflexivity.
Qed.

Lemma inMonth_snoc key ts t :
  inMonth key (ts ++ [t])
  = inMonth key ts
    ++ (if bool_decide (monthKey (parseDate (date t)) = key) then [t] else []).
Proof. unfold inMonth. rewrite List.filter_app. reflexivity. Qed.

(** X14: the bucket that [getMonthlySummary] keeps under a month key sums up
    the transactions of that month and nothing else: their number, their
    total, and the deposits and withdrawals that [calculateSummary] finds in
    them; a month without a transaction has no bucket. *)
Theorem getMonthlySummary_bucket (table : BankingCSVTable) (key : jsstring) :
  getMonthlySummary table !! key
  = match inMonth key (transactions table) with
    | [] => None
    | ts => Some (monthBucketOf ts)
    end.
Proof.
  unfold getMonthlySummary.
  induction (transactions table) as [|t ts IH] using rev_ind; [reflexivity|].
  rewrite fold_left_app, inMonth_snoc. cbn [fold_left].
  unfold monthlyStep at 1.
  destruct (bool_decide (monthKey (parseDate (date t)) = key)) eqn:E.
  - apply bool_decide_eq_true in E. subst key. rewrite lookup_insert_eq, IH.
    set (k := monthKey (parseDate (date t))).
    match goal with
    | |- context [default emptyBucket ?m] =>
        replace (default emptyBucket m) with (monthBucketOf (inMonth k ts))
          by now destruct (inMonth k ts)
    end.
    pose proof (monthBucketOf_snoc (inMonth k ts) t) as R. cbv zeta in R.
    rewrite <- R. now destruct (inMonth k ts).
  - apply bool_decide_eq_false in E. rewrite lookup_insert_ne by exact E.
    now rewrite IH, app_nil_r.
Qed.

(** X15: when a bound of [getTransactionsByDateRange] is no date, no
    transaction is returned: an invalid bound is not taken for an absent
    one. *)
Theorem getTransactionsByDateRange_invalid_bound (table : BankingCSVTable)
  (startDate endDate : jsstring) :
  isValid (parseDate startDate) && isValid (parseDate endDate) = false ->
  getTransactionsByDateRange table startDate endDate = [].
Proof.
  intros H. unfold getTransactionsByDateRange. cbv zeta.
  induction (transactions table) as [|t ts IH]; [reflexivity|].
  cbn [List.filter]. rewrite IH.
  unfold dateGeb, dateLeb.
  destruct (parseDate startDate), (parseDate endDate), (parseDate (date t));
    try discriminate; cbn [getTime]; rewrite ?andb_false_r; reflexivity.
Qed.

End WithHost.

Lemma parseBankingData_without_rows_witness :
  parseBankingData (host := utcHost) (js "TransactionID,From,Amount,Date")
  = {| transactions := []; totalTransactions := 0;
       totalAmount := zero; averageAmount := zero;
       dateRange := {| start := []; end_ := [] |};
       summary := {| deposits := zero; withdrawals := zero; netChange := zero |} |}.
Proof.
  apply (parseBankingData_without_rows (host := utcHost)
           (js "TransactionID,From,Amount,Date")).
  vm_compute. lia.
Defined.

Lemma getTransactionsByDateRange_invalid_bound_witness :
  getTransactionsByDateRange (host := utcHost)
    (parseBankingData (host := utcHost) ProfileManagerService.uploadText)
    (js "07/Aug/2025 00:00") (js "tomorrow") = [].
Proof.
  apply (getTransactionsByDateRange_invalid_bound (host := utcHost)).
  vm_compute. reflexivity.
Defined.

Lemma getDateRange_extremes_witness :
  let late := parseTransaction {[ js "Date" := js "07/Aug/2025 21:00" ]} in
  let early := parseTransaction {[ js "Date" := js "07/Aug/2025 19:00" ]} in
  let undated := parseTransaction ∅ in
  let range := getDateRange (host := utcHost) [late; undated; early] in
  In (start range) (map date [late; undated; early])
  /\ In (end_ range) (map date [late; undated; early])
  /\ dateLeb (parseDate (host := utcHost) (start range))
             (parseDate (host := utcHost) (date late)) = true
  /\ dateLeb (parseDate (host := utcHost) (date late))
             (parseDate (host := utcHost) (end_ range)) = true.
Proof.
  intros late early undated.
  apply (getDateRange_extremes (host := utcHost) [late; undated; early] late).
  - vm_compute. reflexivity.
  - left. reflexivity.
  - reflexivity.
Defined.

(** X16: [getTransactionsByAmountRange] never returns a transaction whose
    amount is NaN, and returns nothing when the bounds are crossed or when
    one of them is NaN. *)
Theorem getTransactionsByAmountRange_edges (table : BankingCSVTable)
  (minAmount maxAmount : number) :
  Forall (fun t => isNaN (amount t) = false)
    (getTransactionsByAmountRange table minAmount maxAmount)
  /\ (ltb maxAmount minAmount = true \/ isNaN minAmount = true
      \/ isNaN maxAmount = true ->
      getTransactionsByAmountRange table minAmount maxAmount = []).
Proof.
  unfold getTransactionsByAmountRange. split.
  - apply List.Forall_forall. intros t [_ Ht]%filter_In.
    apply andb_true_iff in Ht as [Ht _]. unfold Math.geb in Ht.
    now apply OrderFacts.leb_not_NaN in Ht as [_ ?].
  - intros H. induction (transactions table) as [|t ts IH]; [reflexivity|].
    cbn [List.filter]. rewrite IH.
    destruct (Math.geb (amount t) minAmount) eqn:E1; [|reflexivity].
    destruct (Math.leb (amount t) maxAmount) eqn:E2; [|reflexivity].
    exfalso. unfold Math.geb in E1.
    pose proof (OrderFacts.leb_trans _ _ _ E1 E2) as E3.
    destruct H as [H|[H|H]].
    + apply OrderFacts.ltb_not_leb in H. congruence.
    + apply OrderFacts.leb_not_NaN in E3 as [? _]. congruence.
    + apply OrderFacts.leb_not_NaN in E3 as [_ ?]. congruence.
Qed.

Section WithLocale.
Context {locale : Locale}.

Lemma parseAmount_cleanAmount s s' :
  cleanAmount s = cleanAmount s' -> parseAmount s = parseAmount s'.
Proof. intros H. unfold parseAmount. now rewrite H. Qed.

Lemma abs_abs x : abs (abs x) = abs x.
Proof. now destruct x. Qed.

Lemma geb_abs_zero x : isNaN x = false -> Math.geb (abs x) zero = true.
Proof. now destruct x as [[]|[]| |[] m e]. Qed.

(** X17: [formatAmount] writes a negative amount without its sign, so the
    text of an amount and the text of its absolute value parse to the same
    number: the sign of a withdrawal is lost in the export. *)
Theorem formatAmount_drops_sign (amount : number) :
  parseAmount (formatAmount amount) = parseAmount (formatAmount (abs amount)).
Proof.
  unfold formatAmount. rewrite abs_abs.
  destruct (isNaN amount) eqn:En.
  - destruct amount; try discriminate. reflexivity.
  - rewrite (geb_abs_zero amount En).
    destruct (Math.geb amount zero); [reflexivity|].
    apply parseAmount_cleanAmount. reflexivity.
Qed.

Lemma exportBankingData_lines (table : BankingCSVTable) :
  exists rest,
    nonEmptyLines (exportBankingData table)
    = join [COMMA] (map quote exportHeaders) :: rest.
Proof.
  unfold exportBankingData, nonEmptyLines. cbv zeta.
  set (headerLine := join [COMMA] (map quote exportHeaders)).
  assert (Hh : contains LF headerLine = false) by reflexivity.
  destruct (map _ (map exportCells (transactions table))) as [|l ls].
  - cbn [join]. rewrite (CSVParserFacts.split_no_sep LF headerLine Hh).
    eexists. reflexivity.
  - change (join [LF] (headerLine :: l :: ls))
      with (headerLine ++ LF :: join [LF] (l :: ls)).
    rewrite (CSVParserFacts.split_app_sep LF headerLine _ Hh).
    eexists. reflexivity.
Qed.

(** X18: whatever the transactions hold, the text that [exportBankingData]
    writes is read back by [parse] with the seven headers of the export. *)
Theorem exportBankingData_headers (table : BankingCSVTable) :
  headers (parse defaultOptions (exportBankingData table)) = exportHeaders.
Proof.
  destruct (exportBankingData_lines table) as [rest E].
  unfold parse. rewrite E. reflexivity.
Qed.

End WithLocale.

End BankingQueryFacts.
(* ===================================================================== *)
(** ** From the generic table to transactions *)
(* ===================================================================== *)

Module BankingParseFacts.
Import CSVParser BankingCSVParser bankingUtils.

Lemma get_absent (row : CSVRow) (k : jsstring) : row !! k = None -> get row k = [].
Proof. unfold get. now intros ->. Qed.

Lemma orElse_empty a : orElse a [] = a.
Proof. unfold orElse. now destruct a. Qed.

Section WithHost.
Context {host : Host}.

(** X19: a text that [isValidBankingCSV] accepts has a data line, so that
    [parseBankingData] finds at least one transaction in it. *)
Theorem isValidBankingCSV_has_transaction (content : jsstring) :
  isValidBankingCSV content = true ->
  (1 <= totalTransactions (parseBankingData content))%nat.
Proof.
  unfold isValidBankingCSV, parseBankingData, parse. intros H.
  pose proof (CSVParserFacts.nonEmptyLines_spec content) as Hne.
  destruct (nonEmptyLines content) as [|line0 [|line1 lines]]; try discriminate.
  apply Forall_cons_1 in Hne as [_ Hne].
  cbn [summarize totalTransactions]. unfold parseTransactions. cbn [rows].
  rewrite length_map, (ParseFacts.parseRows_length _ _ _ Hne). cbn [length]. lia.
Qed.

(** X20: a transaction of [parseBankingData] takes its identifier from the
    column [TransactionID] alone: the parser leaves no column with an empty
    name for the second choice to read; and there is one transaction per
    row of the generic table, in the same order. *)
Theorem parseBankingData_transactionId (csvContent : jsstring) :
  Forall (fun t => transactionId t = get (rawRow t) (js "TransactionID")
                   /\ rawRow t !! [] = None)
    (transactions (parseBankingData csvContent))
  /\ map rawRow (transactions (parseBankingData csvContent))
     = rows (parse defaultOptions csvContent).
Proof.
  unfold parseBankingData. cbn [summarize transactions]. unfold parseTransactions.
  split; [|rewrite map_map; apply map_id].
  apply Forall_map. unfold parse.
  destruct (nonEmptyLines csvContent) as [|line0 lines]; [constructor|].
  cbn [rows]. apply ParseFacts.parseRows_Forall. intros values.
  assert (Hnone : fillRow defaultOptions
                    (processHeaders defaultOptions (parseCSVLine line0)) values ∅
                  !! [] = None).
  { apply eq_None_not_Some. rewrite ParseFacts.fillRow_keys, lookup_empty.
    intros [[Hin _]|[? H]]; [|discriminate].
    unfold processHeaders in Hin.
    apply elem_of_lookup_imap in Hin as (i & x & E & _).
    symmetry in E. now apply ParseFacts.processHeader_named in E. }
  split; [|exact Hnone].
  cbn [transactionId parseTransaction rawRow].
  rewrite (get_absent _ [] Hnone). apply orElse_empty.
Qed.

End WithHost.

Lemma isValidBankingCSV_has_transaction_witness :
  (1 <= totalTransactions
          (parseBankingData (host := utcHost) ProfileManagerService.storedText))%nat.
Proof.
  apply (isValidBankingCSV_has_transaction (host := utcHost)
           ProfileManagerService.storedText).
  vm_compute. reflexivity.
Defined.

End BankingParseFacts.

(* ===================================================================== *)
(** ** The summaries of the dashboard *)
(* ===================================================================== *)

Module DashboardSummaryFacts.
Import CSVParser BankingCSVParser Dashboard DashboardSummaries.

Lemma months_range k v : months !! k = Some v -> 0 <= v <= 11.
Proof.
  unfold months. intros H%elem_of_list_to_map_2.
  repeat (apply elem_of_cons in H as [H|H]; [injection H as _ ->; lia|]).
  now apply elem_of_nil in H.
Qed.

Lemma daysBeforeMonth_range leap m : 0 <= daysBeforeMonth leap m <= 335.
Proof.
  unfold daysBeforeMonth. destruct leap; destruct m as [|p|p]; try lia;
    repeat match goal with
           | |- context [match ?q with xI _ => _ | xO _ => _ | xH => _ end] =>
               destruct q
           end; lia.
Qed.

Section WithHost.
Context {host : Host}.

Lemma newDate_valid_month year month day hour minute :
  0 <= year <= 9999 -> 0 <= month <= 11 -> 0 <= day <= 99 ->
  0 <= hour <= 99 -> 0 <= minute <= 99 ->
  isValid (newDate year month day hour minute) = true.
Proof.
  intros Hy Hmo Hd Hh Hm. unfold newDate, TimeClip.
  set (yr := if (0 <=? year) && (year <=? 99) then 1900 + year else year).
  assert (Hyr : 0 <= yr <= 9999) by (subst yr; destruct (_ && _) eqn:E; lia).
  pose proof LocalTZA_range as Htz.
  match goal with |- context [Z.abs ?t <=? _] => set (tv := t) end.
  assert (Hb : Z.abs tv <= 8640000000000000).
  { subst tv. unfold MakeDay. cbv zeta.
    rewrite (Z.div_small month 12), (Z.mod_small month 12), Z.add_0_r by lia.
    pose proof (daysBeforeMonth_range (InLeapYear yr) month) as Hdm.
    unfold UTC, MakeDate, MakeTime, msPerDay, msPerHour, msPerMinute.
    pose proof (DateFacts.DayFromYear_mono 0 yr ltac:(lia)) as H0.
    pose proof (DateFacts.DayFromYear_mono yr 9999 ltac:(lia)) as H1.
    change (DayFromYear 0) with (-719528) in H0.
    change (DayFromYear 9999) with 2932532 in H1. lia. }
  apply Z.leb_le in Hb. now rewrite Hb.
Qed.

Lemma parseBankingDate_valid (dateStr : jsstring) :
  isValid (parseBankingDate dateStr) = true.
Proof.
  unfold parseBankingDate. destruct (matchDate dateStr) as [m|] eqn:E.
  - destruct (DateFacts.matchDate_range dateStr m E) as (Hd & Hy & Hh & Hm).
    apply newDate_valid_month; try assumption.
    destruct (months !! m_month m) as [v|] eqn:Ev; cbn; [|lia].
    exact (months_range _ _ Ev).
  - now destruct (isValid (newDateOfString dateStr)) eqn:Ev.
Qed.

(** The time value that the dashboard gives a transaction. *)
Lemma getTime_parseBankingDate (dateStr : jsstring) :
  exists v, parseBankingDate dateStr = DateAt v.
Proof.
  pose proof (parseBankingDate_valid dateStr) as H.
  destruct (parseBankingDate dateStr) as [|v]; [discriminate|eauto].
Qed.

Lemma transactionWithinDateRange_unbounded dateStr start end_ :
  boundDate start = None -> boundDate end_ = None ->
  transactionWithinDateRange dateStr start end_ = true.
Proof.
  intros Hs He. unfold transactionWithinDateRange. rewrite Hs, He.
  now destruct (getTime_parseBankingDate dateStr) as [v ->].
Qed.

Lemma filter_all {A} (f : A -> bool) l :
  (forall x, In x l -> f x = true) -> List.filter f l = l.
Proof.
  induction l as [|x l IH]; intros H; [reflexivity|].
  cbn [List.filter]. rewrite (H x (or_introl eq_refl)), IH; [reflexivity|].
  intros y Hy. apply H. now right.
Qed.

Lemma relevantDates_perm (transactions : list BankingTransaction)
  (reasons : list jsstring) (froms : option (list jsstring))
  (dateStart dateEnd : option jsstring) :
  Permutation
    (timeValues (relevantDates transactions reasons froms dateStart dateEnd))
    (map (fun t => default 0 (getTime (parseBankingDate (date t))))
       (List.filter
          (fun t => transactionMatchesReasons (reason t) reasons
                    && transactionMatchesFroms (from t) froms
                    && transactionWithinDateRange (date t) dateStart dateEnd)
          transactions)).
Proof.
  unfold relevantDates. set (selected := List.filter _ transactions).
  rewrite filter_all.
  2:{ intros d (t & <- & _)%in_map_iff. apply parseBankingDate_valid. }
  assert (E : forall ds : list Date,
            Forall (fun d => isValid d = true) ds ->
            timeValues ds = map (fun d => default 0 (getTime d)) ds).
  { induction 1 as [|d ds Hd _ IH]; [reflexivity|].
    unfold timeValues in *. cbn [map omap list_omap]. rewrite IH.
    now destruct d. }
  rewrite E.
  - rewrite (Permutation_map _ (SortFacts.sort_perm compareDates _)).
    now rewrite map_map.
  - apply List.Forall_forall. intros d Hd.
    apply (Permutation_in _ (SortFacts.sort_perm _ _)) in Hd.
    apply in_map_iff in Hd as (t & <- & _). apply parseBankingDate_valid.
Qed.

(** X21: the dashboard's date parser never returns an invalid date (the
    epoch stands in for a text that is no date), so every transaction that
    the filters of a summary select takes part in the clustering of worked
    hours: the clustered time stamps are those of the selected
    transactions, one each. *)
Theorem relevantDates_one_per_match (transactions : list BankingTransaction)
  (reasons : list jsstring) (froms : option (list jsstring))
  (dateStart dateEnd : option jsstring) :
  (forall dateStr, isValid (parseBankingDate dateStr) = true)
  /\ Permutation
       (timeValues (relevantDates transactions reasons froms dateStart dateEnd))
       (map (fun t => default 0 (getTime (parseBankingDate (date t))))
          (List.filter
             (fun t => transactionMatchesReasons (reason t) reasons
                       && transactionMatchesFroms (from t) froms
                       && transactionWithinDateRange (date t) dateStart dateEnd)
             transactions)).
Proof.
  split; [exact parseBankingDate_valid|apply relevantDates_perm].
Qed.

Lemma fold_matching_all (matches : BankingTransaction -> bool) ts :
  (forall t, In t ts -> matches t = true) ->
  fold_left (fun sum t => if matches t then add sum (amount t) else sum) ts zero
  = calculateTotalAmount ts.
Proof.
  unfold calculateTotalAmount. generalize zero.
  induction ts as [|t ts IH]; intros acc H; [reflexivity|].
  cbn [fold_left]. rewrite (H t (or_introl eq_refl)). apply IH.
  intros t' Ht'. apply H. now right.
Qed.

(** X22: a custom summary without filters (each of them absent, or empty)
    nets the whole table: its amount is [totalAmount]. *)
Theorem computeNetWithFilters_unfiltered (table : BankingCSVTable) :
  computeNetWithFilters (Some table) None None None None
  = calculateTotalAmount (transactions table)
  /\ computeNetWithFilters (Some table) (Some []) (Some []) (Some []) (Some [])
     = calculateTotalAmount (transactions table).
Proof.
  unfold computeNetWithFilters. cbv zeta.
  split; apply fold_matching_all; intros t _;
    now rewrite transactionWithinDateRange_unbounded.
Qed.

Lemma compareNewestFirst_key a b :
  compareNewestFirst a b
  = Some (- default 0 (getTime (parseBankingDate (date a)))
          - - default 0 (getTime (parseBankingDate (date b)))).
Proof.
  unfold compareNewestFirst.
  destruct (getTime_parseBankingDate (date a)) as [x ->].
  destruct (getTime_parseBankingDate (date b)) as [y ->].
  cbn. f_equal. lia.
Qed.

(** X23: the balance on display is the balance of a latest transaction:
    one of the table's transactions, with no transaction dated after it. *)
Theorem currentBalance_latest (table : BankingCSVTable) (t0 : BankingTransaction) :
  In t0 (transactions table) ->
  exists latest,
    In latest (transactions table)
    /\ currentBalance (Some table) = parseBalanceNumber (balance latest)
    /\ Forall (fun t => dateLeb (parseBankingDate (date t))
                                (parseBankingDate (date latest)) = true)
         (transactions table).
Proof.
  intros Hin. unfold currentBalance, recentTransactions.
  pose proof (SortFacts.sort_perm compareNewestFirst (transactions table)) as Hp.
  pose proof (SortFacts.sort_ascending compareNewestFirst
                (fun t => - default 0 (getTime (parseBankingDate (date t))))
                (transactions table)
                (fun a b _ _ => compareNewestFirst_key a b)) as Hs.
  destruct (sort compareNewestFirst (transactions table)) as [|latest rest].
  { apply Permutation_nil in Hp. rewrite Hp in Hin. destruct Hin. }
  exists latest. split; [apply (Permutation_in _ Hp); now left|]. split; [reflexivity|].
  apply List.Forall_forall. intros t Ht.
  apply (Permutation_in _ (Permutation_sym Hp)) in Ht.
  unfold ascending in Hs. apply StronglySorted_inv in Hs as [_ Hs].
  unfold dateLeb.
  destruct (getTime_parseBankingDate (date t)) as [x Ex].
  destruct (getTime_parseBankingDate (date latest)) as [y Ey].
  rewrite Ex, Ey. cbn [getTime]. apply Z.leb_le.
  destruct Ht as [<-|Ht]; [rewrite Ex in Ey; injection Ey; lia|].
  rewrite List.Forall_forall in Hs. specialize (Hs _ Ht). cbn in Hs.
  rewrite Ex, Ey in Hs. cbn in Hs. lia.
Qed.

End WithHost.

Lemma trim_SPACE s : trim (32%N :: s) = trim s.
Proof. reflexivity. Qed.

Lemma parseReasonsInput_items input :
  Forall (fun r => isEmpty r = false /\ trim r = r /\ contains COMMA r = false)
    (parseReasonsInput input).
Proof.
  unfold parseReasonsInput. apply List.Forall_forall.
  intros r [Hin Hne]%filter_In. apply in_map_iff in Hin as (piece & <- & Hin).
  split; [now apply negb_true_iff in Hne|]. split.
  - apply CSVParserFacts.trim_idempotent.
  - apply CSVParserFacts.trim_contains.
    pose proof (CSVParserFacts.split_pieces COMMA input) as H.
    rewrite List.Forall_forall in H. now apply H.
Qed.

Lemma split_reasonsText r rs :
  Forall (fun r => contains COMMA r = false) (r :: rs) ->
  split COMMA (reasonsText (r :: rs)) = r :: map (cons 32%N) rs.
Proof.
  revert r. induction rs as [|r2 rs IH]; intros r H.
  - apply Forall_cons_1 in H as [H _]. cbn [reasonsText join map].
    now apply CSVParserFacts.split_no_sep.
  - apply Forall_cons_1 in H as [H1 H2].
    change (reasonsText (r :: r2 :: rs))
      with (r ++ COMMA :: 32%N :: reasonsText (r2 :: rs)).
    rewrite CSVParserFacts.split_app_sep by exact H1.
    cbn [split]. change (32 =? COMMA)%N with false. cbv iota.
    now rewrite (IH r2 H2).
Qed.

(** X24: the list of reasons of a summary survives the edit dialog: the
    text that the dialog shows for the reasons read from an input
    ([reasons.join(', ')]) is read back as the same reasons. *)
Theorem parseReasonsInput_reasonsText (input : jsstring) :
  parseReasonsInput (reasonsText (parseReasonsInput input)) = parseReasonsInput input.
Proof.
  pose proof (parseReasonsInput_items input) as H.
  destruct (parseReasonsInput input) as [|r rs]; [reflexivity|].
  unfold parseReasonsInput at 1. rewrite split_reasonsText.
  2:{ eapply List.Forall_impl; [|exact H]. now intros ? (_ & _ & ?). }
  assert (E : map trim (r :: map (cons 32%N) rs) = r :: rs).
  { cbn [map]. apply Forall_cons_1 in H as [(_ & -> & _) H]. f_equal.
    rewrite map_map. clear -H. induction H as [|x rs (_ & Hx & _) _ IH]; [reflexivity|].
    cbn [map]. now rewrite trim_SPACE, Hx, IH. }
  rewrite E. apply filter_all. intros x Hx.
  rewrite List.Forall_forall in H. now destruct (H x Hx) as (-> & _).
Qed.

Lemma sessionLoop_bounds rest : forall totalMs sessionStart last,
  sessionStart <= last -> ascending id (last :: rest) ->
  totalMs + (last - sessionStart) + ONE_HOUR_MS
  <= sessionLoop totalMs sessionStart last rest
  <= totalMs + (last - sessionStart) + (1 + Z.of_nat (length rest)) * ONE_HOUR_MS.
Proof.
  unfold ascending, ONE_HOUR_MS.
  induction rest as [|cur rest IH]; intros totalMs sessionStart last Hs Ha.
  - cbn [sessionLoop length]. unfold ONE_HOUR_MS. lia.
  - apply StronglySorted_inv in Ha as [Ha Hl].
    apply Forall_cons_1 in Hl as [Hl _]. unfold id in Hl.
    cbn [sessionLoop length]. unfold ONE_HOUR_MS.
    destruct (cur - last <=? 60 * 60 * 1000) eqn:E.
    + apply Z.leb_le in E.
      specialize (IH totalMs sessionStart cur ltac:(lia) Ha). lia.
    + apply Z.leb_gt in E.
      specialize (IH (totalMs + (last + 60 * 60 * 1000 - sessionStart)) cur cur
                    ltac:(lia) Ha). lia.
Qed.

Section WithHost.
Context {host : Host}.

(** X25: the hours of [computeHoursForReasons] are the clustered time
    divided by one hour; the clustered time is at least one hour as soon as
    a transaction is selected, and at most one hour for each selected
    transaction. *)
Theorem computeHoursForReasons_bounds (table : BankingCSVTable)
  (reasons : list jsstring) (froms : option (list jsstring))
  (dateStart dateEnd : option jsstring) :
  let selected :=
    List.filter
      (fun t => transactionMatchesReasons (reason t) reasons
                && transactionMatchesFroms (from t) froms
                && transactionWithinDateRange (date t) dateStart dateEnd)
      (transactions table) in
  exists totalMs,
    computeHoursForReasons (Some table) reasons froms dateStart dateEnd
    = (if (length selected =? 0)%nat then zero
       else div (ofZ totalMs) (ofZ ONE_HOUR_MS))
    /\ (selected <> [] -> ONE_HOUR_MS <= totalMs)
    /\ totalMs <= Z.of_nat (length selected) * ONE_HOUR_MS.
Proof.
  cbn zeta. unfold computeHoursForReasons.
  pose proof (DashboardFacts.relevantDates_ascending (transactions table) reasons
                froms dateStart dateEnd) as H.
  pose proof (Permutation_length
                (relevantDates_perm (transactions table) reasons froms
                   dateStart dateEnd)) as L.
  rewrite length_map in L. rewrite <- L.
  destruct (timeValues _) as [|first rest].
  - exists 0. cbn. repeat split; [|lia].
    intros Hne. symmetry in L. now apply length_zero_iff_nil in L.
  - exists (sessionLoop 0 first first rest). split; [reflexivity|].
    pose proof (sessionLoop_bounds rest 0 first first ltac:(lia) H) as B.
    cbn [length]. split; [intros _|]; lia.
Qed.

Lemma filter_perm {A} (f : A -> bool) l l' :
  Permutation l l' -> Permutation (List.filter f l) (List.filter f l').
Proof.
  induction 1 as [|x l l' _ IH|x y l|l l' l'' _ IH1 _ IH2]; cbn [List.filter].
  - constructor.
  - destruct (f x); [now constructor|exact IH].
  - destruct (f x), (f y); try reflexivity. apply perm_swap.
  - now transitivity (List.filter f l').
Qed.

Lemma ascending_perm_eq (l1 l2 : list Z) :
  ascending id l1 -> ascending id l2 -> Permutation l1 l2 -> l1 = l2.
Proof.
  unfold ascending, id. revert l2.
  induction l1 as [|x l1 IH]; intros l2 H1 H2 Hp.
  - now apply Permutation_nil in Hp.
  - destruct l2 as [|y l2]; [now apply Permutation_sym, Permutation_nil in Hp|].
    apply StronglySorted_inv in H1 as [H1 Hx], H2 as [H2 Hy].
    rewrite List.Forall_forall in Hx, Hy.
    assert (E : x = y).
    { pose proof (Permutation_in x Hp (or_introl eq_refl)) as [E|Hin]; [easy|].
      pose proof (Permutation_in y (Permutation_sym Hp) (or_introl eq_refl))
        as [E|Hin']; [easy|].
      specialize (Hx _ Hin'). specialize (Hy _ Hin). lia. }
    subst y. f_equal. apply IH; [assumption|assumption|].
    now apply Permutation_cons_inv in Hp.
Qed.

(** X26: the worked hours of a summary do not depend on the order of the
    transactions in the table. *)
Theorem computeHoursForReasons_order (table table' : BankingCSVTable)
  (reasons : list jsstring) (froms : option (list jsstring))
  (dateStart dateEnd : option jsstring) :
  Permutation (transactions table) (transactions table') ->
  computeHoursForReasons (Some table) reasons froms dateStart dateEnd
  = computeHoursForReasons (Some table') reasons froms dateStart dateEnd.
Proof.
  intros Hp. unfold computeHoursForReasons. f_equal.
  apply ascending_perm_eq.
  - apply DashboardFacts.relevantDates_ascending.
  - apply DashboardFacts.relevantDates_ascending.
  - rewrite !relevantDates_perm. apply Permutation_map. now apply filter_perm.
Qed.

End WithHost.

Lemma currentBalance_latest_witness :
  let mid := parseTransaction {[ js "Balance" := js "$1,500";
                                 js "Date" := js "07/Aug/2025 20:00" ]} in
  let late := parseTransaction {[ js "Balance" := js "$1,750";
                                  js "Date" := js "07/Aug/2025 21:00" ]} in
  let early := parseTransaction {[ js "Balance" := js "$1,000";
                                   js "Date" := js "07/Aug/2025 19:00" ]} in
  let table := summarize (host := utcHost) [mid; late; early] in
  In early (transactions table)
  /\ currentBalance (host := utcHost) (Some table)
     = parseBalanceNumber (js "$1,750")
  /\ exists latest,
       In latest (transactions table)
       /\ currentBalance (host := utcHost) (Some table)
          = parseBalanceNumber (balance latest)
       /\ Forall (fun t => dateLeb (parseBankingDate (host := utcHost) (date t))
                                   (parseBankingDate (host := utcHost) (date latest))
                           = true)
            (transactions table).
Proof.
  intros mid late early table.
  assert (Hin : In early (transactions table)) by (right; right; left; reflexivity).
  split; [exact Hin|]. split; [vm_compute; reflexivity|].
  exact (currentBalance_latest (host := utcHost) table early Hin).
Defined.

Lemma computeHoursForReasons_order_witness :
  let first := parseTransaction {[ js "Date" := js "07/Aug/2025 10:00" ]} in
  let second := parseTransaction {[ js "Date" := js "07/Aug/2025 13:00" ]} in
  computeHoursForReasons (host := utcHost)
    (Some (summarize (host := utcHost) [first; second])) [] None None None
  = computeHoursForReasons (host := utcHost)
      (Some (summarize (host := utcHost) [second; first])) [] None None None.
Proof.
  intros first second.
  apply (computeHoursForReasons_order (host := utcHost)
           (summarize (host := utcHost) [first; second])
           (summarize (host := utcHost) [second; first])).
  apply perm_swap.
Defined.

End DashboardSummaryFacts.

(* ===================================================================== *)
(** ** The store of profiles *)
(* ===================================================================== *)

Module ProfileStoreFacts.
Import ProfileStore.

Lemma hasId_true i p : hasId i p = true <-> id p = i.
Proof. unfold hasId. apply bool_decide_eq_true. Qed.

Lemma hasId_false i p : hasId i p = false <-> id p <> i.
Proof. unfold hasId. apply bool_decide_eq_false. Qed.

(** [find] and [findIndex] stop at the same profile. *)
Lemma find_findIndex i ps :
  match findIndex i ps with
  | Some index => exists p, ps !! index = Some p /\ List.find (hasId i) ps = Some p
                            /\ id p = i
  | None => List.find (hasId i) ps = None
  end.
Proof.
  induction ps as [|q ps IH]; cbn [findIndex List.find]; [reflexivity|].
  destruct (hasId i q) eqn:E.
  - exists q. repeat split. now apply hasId_true.
  - destruct (findIndex i ps) as [index|]; cbn [option_map]; [|exact IH].
    destruct IH as (p & H1 & H2 & H3). exists p. now repeat split.
Qed.

Lemma findIndex_of_find i ps p :
  List.find (hasId i) ps = Some p ->
  exists index, findIndex i ps = Some index /\ ps !! index = Some p /\ id p = i.
Proof.
  intros H. pose proof (find_findIndex i ps) as F.
  destruct (findIndex i ps) as [index|]; [|congruence].
  destruct F as (q & H1 & H2 & H3). exists index. split; [reflexivity|].
  rewrite H in H2. injection H2 as <-. now split.
Qed.

(** Replacing the profile that [findIndex] stops at by one of the same id. *)
Lemma find_insert i j ps index q :
  findIndex i ps = Some index -> id q = i ->
  List.find (hasId j) (<[index := q]> ps)
  = if bool_decide (j = i) then Some q else List.find (hasId j) ps.
Proof.
  revert index. induction ps as [|p ps IH]; intros index; cbn [findIndex];
    [discriminate|].
  destruct (hasId i p) eqn:E.
  - intros [= <-] Hq. change (<[0%nat := q]> (p :: ps)) with (q :: ps).
    cbn [List.find]. apply hasId_true in E.
    destruct (decide (j = i)) as [->|Hne].
    + rewrite bool_decide_eq_true_2 by reflexivity.
      now rewrite (proj2 (hasId_true i q) Hq).
    + rewrite (bool_decide_eq_false_2 (j = i)) by exact Hne.
      rewrite (proj2 (hasId_false j q)) by congruence.
      now rewrite (proj2 (hasId_false j p)) by congruence.
  - destruct (findIndex i ps) as [n|] eqn:En; cbn [option_map]; [|discriminate].
    intros [= <-] Hq. change (<[S n := q]> (p :: ps)) with (p :: <[n := q]> ps).
    cbn [List.find]. rewrite (IH n eq_refl Hq).
    apply hasId_false in E.
    destruct (decide (j = i)) as [->|Hne].
    + rewrite bool_decide_eq_true_2 by reflexivity.
      now rewrite (proj2 (hasId_false i p) E).
    + now rewrite (bool_decide_eq_false_2 (j = i)).
Qed.

Lemma find_filter i j ps :
  List.find (hasId j) (List.filter (fun p => negb (hasId i p)) ps)
  = if bool_decide (j = i) then None else List.find (hasId j) ps.
Proof.
  induction ps as [|p ps IH]; cbn [List.filter List.find].
  - now destruct (bool_decide (j = i)).
  - destruct (hasId i p) eqn:E; cbn [negb List.find]; rewrite IH.
    + apply hasId_true in E.
      destruct (decide (j = i)) as [->|Hne].
      * now rewrite bool_decide_eq_true_2.
      * rewrite (bool_decide_eq_false_2 (j = i)) by exact Hne.
        now rewrite (proj2 (hasId_false j p)) by congruence.
    + apply hasId_false in E.
      destruct (decide (j = i)) as [->|Hne].
      * rewrite bool_decide_eq_true_2 by reflexivity.
        now rewrite (proj2 (hasId_false i p) E).
      * now rewrite (bool_decide_eq_false_2 (j = i)).
Qed.

Section WithPlatform.
Context {platform : Platform}.

Lemma updateProfile_unknown i updates s :
  getProfile s i = None -> updateProfile i updates s = (s, Rejected (NotFound i)).
Proof.
  unfold getProfile, updateProfile. intros H.
  pose proof (find_findIndex i (profiles s)) as F.
  destruct (findIndex i (profiles s)) as [index|]; [|reflexivity].
  destruct F as (p & _ & F & _). congruence.
Qed.

(** What an update that the platform accepts leaves behind. *)
Lemma updateProfile_accepted i updates s p :
  (forall ps, accepts ps = true) ->
  getProfile s i = Some p -> id (spread p updates) = i ->
  exists s',
    updateProfile i updates s = (s', Resolved (spread p updates))
    /\ (forall j, getProfile s' j
                  = if bool_decide (j = i) then Some (spread p updates)
                    else getProfile s j)
    /\ activeProfile s'
       = (if activeHasId s i then Some (spread p updates) else activeProfile s)
    /\ saved s' = profiles s'
    /\ length (profiles s') = length (profiles s).
Proof.
  intros Hok Hp Hid. unfold getProfile in Hp.
  destruct (findIndex_of_find i (profiles s) p Hp) as (index & Hi & Hl & _).
  unfold updateProfile. rewrite Hi, Hl, Hok. eexists. split; [reflexivity|].
  cbn [profiles activeProfile saved]. repeat split.
  - intros j. unfold getProfile. cbn [profiles]. now apply find_insert.
  - apply length_insert.
Qed.

(** X27: saving data for an identifier that no profile of the store has is
    rejected with "not found", and leaves the store as it was: the answer
    [replaced] that the missing profile selects is never returned. *)
Theorem saveOrMergeProfileData_unknown_profile {host : Host}
  (i incomingCSV nowIso : jsstring) (s : Store) :
  getProfile s i = None ->
  saveOrMergeProfileData i incomingCSV nowIso s = (s, Rejected (NotFound i)).
Proof.
  intros H. unfold saveOrMergeProfileData. rewrite H.
  now rewrite (updateProfile_unknown i _ s H).
Qed.

(** X28: an update that keeps the identifier and that the platform accepts
    resolves with the merged profile; [getProfile] then returns the merged
    profile for that identifier and what it returned before for every
    other one, and what was saved is the list of the store. *)
Theorem updateProfile_then_getProfile (i : jsstring) (updates : Updates)
  (s : Store) (p : Profile) :
  (forall ps, accepts ps = true) ->
  getProfile s i = Some p -> u_id updates = None ->
  let s' := fst (updateProfile i updates s) in
  snd (updateProfile i updates s) = Resolved (spread p updates)
  /\ getProfile s' i = Some (spread p updates)
  /\ (forall j, j <> i -> getProfile s' j = getProfile s j)
  /\ saved s' = profiles s'.
Proof.
  intros Hok Hp Hu. cbn zeta.
  assert (Hid : id (spread p updates) = i).
  { cbn [spread id]. rewrite Hu. cbn.
    unfold getProfile in Hp. apply find_some in Hp as [_ Hp].
    now apply hasId_true in Hp. }
  destruct (updateProfile_accepted i updates s p Hok Hp Hid)
    as (s' & -> & Hget & _ & Hsaved & _).
  cbn [fst snd]. repeat split; [| |exact Hsaved].
  - rewrite Hget. now rewrite bool_decide_eq_true_2.
  - intros j Hj. rewrite Hget. now rewrite bool_decide_eq_false_2.
Qed.

(** X29: after a deletion that the platform accepts, no profile has the
    deleted identifier, every other identifier finds what it found before,
    and when the active profile was the deleted one the first profile left
    (or none) is active. *)
Theorem deleteProfile_spec (i : jsstring) (s : Store) :
  (forall ps, accepts ps = true) ->
  let s' := fst (deleteProfile i s) in
  snd (deleteProfile i s) = Resolved tt
  /\ getProfile s' i = None
  /\ (forall j, j <> i -> getProfile s' j = getProfile s j)
  /\ activeProfile s'
     = (if activeHasId s i then head (profiles s') else activeProfile s).
Proof.
  intros Hok. cbn zeta. unfold deleteProfile. rewrite Hok. cbn [fst snd].
  unfold getProfile. cbn [profiles activeProfile]. repeat split.
  - rewrite find_filter. now rewrite bool_decide_eq_true_2.
  - intros j Hj. rewrite find_filter. now rewrite bool_decide_eq_false_2.
Qed.

Lemma spread_stamp_twice p now1 now2 :
  spread (spread p (stamp now1)) (stamp now2) = spread p (stamp now2).
Proof. reflexivity. Qed.

Lemma id_spread_stamp p now : id (spread p (stamp now)) = id p.
Proof. reflexivity. Qed.

(** X30: [switchProfile] leaves as active profile the profile as it was
    found before the switch: its [lastActive] is the old one, while the
    profile kept in the list carries the new time stamp. *)
Theorem switchProfile_active_is_stale (i now1 now2 : jsstring) (s : Store)
  (p : Profile) :
  (forall ps, accepts ps = true) ->
  getProfile s i = Some p ->
  (forall a, activeProfile s = Some a -> is_Some (getProfile s (id a))) ->
  let s' := fst (switchProfile i now1 now2 s) in
  snd (switchProfile i now1 now2 s) = Resolved tt
  /\ activeProfile s' = Some p
  /\ getProfile s' i = Some (spread p (stamp now2)).
Proof.
  intros Hok Hp Hactive. cbn zeta.
  assert (Hidp : id p = i).
  { unfold getProfile in Hp. apply find_some in Hp as [_ Hp].
    now apply hasId_true in Hp. }
  unfold switchProfile. unfold getProfile in Hp. rewrite Hp.
  fold (getProfile s i) in Hp.
  assert (H1 : exists s1 r, (match activeProfile s with
                             | Some currentActive =>
                                 updateProfile (id currentActive) (stamp now1) s
                             | None => (s, Resolved p)
                             end) = (s1, Resolved r)
                            /\ exists q, getProfile s1 i = Some q
                                         /\ spread q (stamp now2)
                                            = spread p (stamp now2)).
  { destruct (activeProfile s) as [a|] eqn:Ea.
    - destruct (Hactive a eq_refl) as [pa Hpa].
      assert (Hida : id pa = id a).
      { unfold getProfile in Hpa. apply find_some in Hpa as [_ Hpa].
        now apply hasId_true in Hpa. }
      destruct (updateProfile_accepted (id a) (stamp now1) s pa Hok Hpa
                  ltac:(now rewrite id_spread_stamp))
        as (s1 & E & Hget & _).
      exists s1, (spread pa (stamp now1)). split; [exact E|].
      rewrite Hget. destruct (decide (i = id a)) as [Hia|Hia].
      + rewrite bool_decide_eq_true_2 by exact Hia.
        exists (spread pa (stamp now1)). split; [reflexivity|].
        rewrite <- Hia, Hp in Hpa. injection Hpa as <-.
        apply spread_stamp_twice.
      + rewrite bool_decide_eq_false_2 by exact Hia. now exists p.
    - exists s, p. split; [reflexivity|]. now exists p. }
  destruct H1 as (s1 & r & -> & q & Hq & Hspread).
  assert (Hidq : id (spread q (stamp now2)) = i).
  { rewrite Hspread, id_spread_stamp. exact Hidp. }
  destruct (updateProfile_accepted i (stamp now2) s1 q Hok Hq Hidq)
    as (s2 & -> & Hget & _).
  cbn [fst snd activeProfile]. repeat split.
  unfold getProfile in *. cbn [profiles]. rewrite Hget.
  now rewrite bool_decide_eq_true_2, Hspread.
Qed.

End WithPlatform.

Lemma reliable_accepts : forall ps, accepts (Platform := reliable) ps = true.
Proof. reflexivity. Qed.

Lemma saveOrMergeProfileData_unknown_profile_witness :
  saveOrMergeProfileData (platform := reliable) (host := utcHost)
    (js "p2") ProfileManagerService.uploadText (js "2025-08-07T21:30:00.000Z")
    exampleStore
  = (exampleStore, Rejected (NotFound (js "p2"))).
Proof.
  apply (saveOrMergeProfileData_unknown_profile (platform := reliable)
           (host := utcHost)).
  reflexivity.
Defined.

Lemma updateProfile_then_getProfile_witness :
  let updates := stamp (js "2025-08-07T21:30:00.000Z") in
  let s' := fst (updateProfile (platform := reliable) (js "p1") updates exampleStore) in
  snd (updateProfile (platform := reliable) (js "p1") updates exampleStore)
  = Resolved (spread exampleProfile updates)
  /\ getProfile s' (js "p1") = Some (spread exampleProfile updates)
  /\ (forall j, j <> js "p1" -> getProfile s' j = getProfile exampleStore j)
  /\ saved s' = profiles s'.
Proof.
  intros updates.
  apply (updateProfile_then_getProfile (platform := reliable) (js "p1") updates
           exampleStore exampleProfile reliable_accepts); reflexivity.
Defined.

Lemma deleteProfile_spec_witness :
  let s' := fst (deleteProfile (platform := reliable) (js "p1") exampleStore) in
  snd (deleteProfile (platform := reliable) (js "p1") exampleStore) = Resolved tt
  /\ getProfile s' (js "p1") = None
  /\ (forall j, j <> js "p1" -> getProfile s' j = getProfile exampleStore j)
  /\ activeProfile s'
     = (if activeHasId exampleStore (js "p1") then head (profiles s')
        else activeProfile exampleStore).
Proof.
  apply (deleteProfile_spec (platform := reliable) (js "p1") exampleStore
           reliable_accepts).
Defined.

Lemma switchProfile_active_is_stale_witness :
  let s' := fst (switchProfile (platform := reliable) (js "p1")
                   (js "2025-08-07T21:30:00.000Z") (js "2025-08-07T21:30:00.001Z")
                   exampleStore) in
  snd (switchProfile (platform := reliable) (js "p1")
         (js "2025-08-07T21:30:00.000Z") (js "2025-08-07T21:30:00.001Z")
         exampleStore) = Resolved tt
  /\ activeProfile s' = Some exampleProfile
  /\ getProfile s' (js "p1")
     = Some (spread exampleProfile (stamp (js "2025-08-07T21:30:00.001Z"))).
Proof.
  apply (switchProfile_active_is_stale (platform := reliable) (js "p1")
           (js "2025-08-07T21:30:00.000Z") (js "2025-08-07T21:30:00.001Z")
           exampleStore exampleProfile reliable_accepts).
  - reflexivity.
  - intros a [= <-]. eexists. reflexivity.
Defined.

End ProfileStoreFacts.
